(** * node-storage-service: tag ledger, local object store and retrieval pipeline

    A shallow embedding of [project/routers/local.py] and
    [project/routers/intermediate.py].  Handlers are functions in a small
    state-and-exception monad over a [World] that holds the relational
    tables, the MinIO bucket, the chronological list of store writes and,
    for the round trips to come, which of them the stores fail to answer. *)

From Stdlib Require Import List Bool Arith Lia NArith String Ascii.
Import ListNotations.

Set Implicit Arguments.

(** ** Python values *)

(** A Python [str] is a sequence of code points. *)
Definition str := list N.

(** [bytes]: a sequence of octets. *)
Definition bytes := list N.

Definition py (s : string) : str := map N_of_ascii (list_ascii_of_string s).

Fixpoint str_eqb (a b : str) : bool :=
  match a, b with
  | [], [] => true
  | x :: a', y :: b' => N.eqb x y && str_eqb a' b'
  | _, _ => false
  end.

(** [s.startswith(p)] *)
Fixpoint starts_with (p s : str) : bool :=
  match p, s with
  | [], _ => true
  | x :: p', y :: s' => N.eqb x y && starts_with p' s'
  | _ :: _, [] => false
  end.

(** [s.split(sep)[-1]] for a one-character separator: what follows the last
    occurrence of [sep], or all of [s] when there is none. *)
Fixpoint last_segment (sep : N) (s : str) : str :=
  match s with
  | [] => []
  | c :: s' =>
      if existsb (N.eqb sep) s' then last_segment sep s'
      else if N.eqb c sep then s' else c :: s'
  end.

(** ** The tag grammar ([_TAG_PATTERN], [is_valid_tag]) *)

Module TagGrammar.

(** The fragment of Python's [re] syntax the pattern is written in. *)
Inductive regex : Type :=
| Class (ranges : list (N * N))        (* [a-z0-9-]: inclusive ranges *)
| Seq (r1 r2 : regex)                  (* r1 r2 *)
| Alt (r1 r2 : regex)                  (* r1|r2 *)
| Repeat (r : regex) (lo hi : nat).    (* r{lo,hi}, greedy *)

Definition in_class (ranges : list (N * N)) (c : N) : bool :=
  existsb (fun r => N.leb (fst r) c && N.leb c (snd r)) ranges.

(** Backtracking matcher in continuation-passing style: [matchk r s k]
    tries the ways [r] can consume a prefix of [s], in the engine's order
    (left alternative first, longest repetition first), and hands the rest
    to [k].  [repeatk m lo hi] is the loop for [{lo,hi}] around the
    matcher [m] of the repeated expression. *)
Fixpoint repeatk (m : str -> (str -> bool) -> bool) (lo hi : nat)
         (s : str) (k : str -> bool) {struct hi} : bool :=
  match hi with
  | 0 => match lo with 0 => k s | S _ => false end
  | S hi' =>
      m s (fun s' => repeatk m (pred lo) hi' s' k)
      || match lo with 0 => k s | S _ => false end
  end.

Fixpoint matchk (r : regex) (s : str) (k : str -> bool) {struct r} : bool :=
  match r with
  | Class ranges =>
      match s with
      | c :: s' => in_class ranges c && k s'
      | [] => false
      end
  | Seq r1 r2 => matchk r1 s (fun s' => matchk r2 s' k)
  | Alt r1 r2 => matchk r1 s k || matchk r2 s k
  | Repeat r0 lo hi => repeatk (matchk r0) lo hi s k
  end.

(** [pattern.fullmatch(s) is not None] *)
Definition fullmatch (r : regex) (s : str) : bool :=
  matchk r s (fun rest => match rest with [] => true | _ :: _ => false end).

Definition lower_alnum : regex := Class [(97, 122); (48, 57)]%N.
Definition lower_alnum_hyphen : regex := Class [(97, 122); (48, 57); (45, 45)]%N.

(** [re.compile(r"[a-z0-9]{1,2}|[a-z0-9][a-z0-9-]{,30}[a-z0-9]")] *)
Definition _TAG_PATTERN : regex :=
  Alt (Repeat lower_alnum 1 2)
      (Seq lower_alnum (Seq (Repeat lower_alnum_hyphen 0 30) lower_alnum)).

Definition is_valid_tag (tag : str) : bool := fullmatch _TAG_PATTERN tag.

(** The grammar as the specification words it: a 1-2 character
    lowercase-alphanumeric string, or a 2-32 character string of lowercase
    alphanumerics and hyphens that starts and ends with an alphanumeric. *)
Definition is_lower_alnum (c : N) : bool :=
  (N.leb 97 c && N.leb c 122) || (N.leb 48 c && N.leb c 57).

Definition is_hyphen (c : N) : bool := N.eqb c 45.

Definition first_is_alnum (t : str) : bool :=
  match t with c :: _ => is_lower_alnum c | [] => false end.

Definition last_is_alnum (t : str) : bool :=
  match rev t with c :: _ => is_lower_alnum c | [] => false end.

Definition grammar_accepts (t : str) : bool :=
  ((1 <=? List.length t) && (List.length t <=? 2) && forallb is_lower_alnum t)
  || ((2 <=? List.length t) && (List.length t <=? 32)
      && forallb (fun c => is_lower_alnum c || is_hyphen c) t
      && first_is_alnum t && last_is_alnum t).

(** The strings a regular expression denotes. *)
Fixpoint power (P : str -> Prop) (n : nat) (s : str) : Prop :=
  match n with
  | 0 => s = []
  | S n' => exists s1 s2, s = s1 ++ s2 /\ P s1 /\ power P n' s2
  end.

Fixpoint lang (r : regex) (s : str) : Prop :=
  match r with
  | Class ranges => exists c, s = [c] /\ in_class ranges c = true
  | Seq r1 r2 => exists s1 s2, s = s1 ++ s2 /\ lang r1 s1 /\ lang r2 s2
  | Alt r1 r2 => lang r1 s \/ lang r2 s
  | Repeat r0 lo hi => exists n, lo <= n <= hi /\ power (lang r0) n s
  end.

(** [k] accepts what is left after a prefix in [P]. *)
Definition splits (P : str -> Prop) (s : str) (k : str -> bool) : Prop :=
  exists s1 s2, s = s1 ++ s2 /\ P s1 /\ k s2 = true.

End TagGrammar.

(** ** Exceptions and outcomes *)

(** What an [HTTPException]'s [detail] reports; the formatted text is
    determined by the constructor and its arguments. *)
Inductive detail : Type :=
| InvalidTagName (tag : str)
| FilenameConflict (object_id client_id filename : str)
| AnalysisNotFound (analysis_id : str)
| ObjectNotFound (object_id : str)
| UnexpectedObjectStoreError
| NotHubAdapter (client_id : str)
| ProjectStillOnHub (project_id : str)
| NodeNotFound (node_id : str)
| NodeWithoutPublicKey (node_id : str)
| DecryptionNotPossible (object_id node_id : str).

Inductive exn : Type :=
| HTTPException (status_code : nat) (d : detail)
| IntegrityError                 (* peewee: a uniqueness constraint refused the row *)
| OperationalError               (* peewee: the relational store did not answer *)
| DoesNotExist                   (* peewee: [.get()] on an empty selection *)
| S3Error (code : str)           (* minio *)
| StopIteration                  (* [next()] on an exhausted iterator *)
| InvalidTag                     (* cryptography.exceptions.InvalidTag *)
| ValueError.

Definition HTTP_400_BAD_REQUEST := 400.
Definition HTTP_403_FORBIDDEN := 403.
Definition HTTP_404_NOT_FOUND := 404.
Definition HTTP_502_BAD_GATEWAY := 502.

Inductive outcome (A : Type) : Type :=
| Return (a : A)
| Raise (e : exn).
Arguments Return {A} a.
Arguments Raise {A} e.

(** ** The relational store: Result, Tag, TaggedResult

    The rows carry the columns the routers read and write, and the [id]
    every peewee model has. *)

Record ResultRow : Type := mkResult {
  result_id : nat;
  result_client_id : str;
  result_object_id : str;
  result_filename : str
}.

Record TagRow : Type := mkTag {
  tag_id : nat;
  tag_name : str;
  tag_project_id : str
}.

Record TaggedResultRow : Type := mkTaggedResult {
  link_id : nat;
  link_tag : nat;       (* foreign key: Tag.id *)
  link_result : nat     (* foreign key: Result.id *)
}.

Record Db : Type := mkDb {
  results : list ResultRow;
  tags : list TagRow;
  tagged_results : list TaggedResultRow;
  result_seq : nat;     (* next value of each table's id sequence *)
  tag_seq : nat;
  tagged_result_seq : nat
}.

Definition empty_db : Db := mkDb [] [] [] 1 1 1.

(** ** The object store (one MinIO bucket) *)

Record StoredObject : Type := mkObject {
  object_data : bytes;
  object_content_type : str
}.

(** ** Writes, in the order the stores receive them *)

Inductive event : Type :=
| ObjectPut (name : str)
| ObjectRemove (name : str)
| InsertResult (row : ResultRow)
| InsertTag (row : TagRow)
| InsertTaggedResult (row : TaggedResultRow)
| DeleteResults (object_ids : list str)
| DeleteTags (project_id : str).

Definition is_object_event (e : event) : bool :=
  match e with ObjectPut _ | ObjectRemove _ => true | _ => false end.

Definition is_ledger_event (e : event) : bool := negb (is_object_event e).

(** ** The world a request handler runs in *)

Record World : Type := mkWorld {
  db : Db;
  objects : list (str * StoredObject);
  trace : list event;
  (** For each coming round trip to a store, in order, whether the store
      fails to answer it; every round trip past the end of the list is
      answered. *)
  outages : list bool
}.

Definition with_db (w : World) (d : Db) : World :=
  mkWorld d (objects w) (trace w) (outages w).

Definition with_objects (w : World) (o : list (str * StoredObject)) : World :=
  mkWorld (db w) o (trace w) (outages w).

Definition logged (w : World) (e : event) : World :=
  mkWorld (db w) (objects w) (trace w ++ [e]) (outages w).

(** ** Handlers: state and exceptions *)

Definition M (A : Type) : Type := World -> outcome A * World.

Definition ret {A} (a : A) : M A := fun w => (Return a, w).

Definition raise {A} (e : exn) : M A := fun w => (Raise e, w).

Definition bind {A B} (m : M A) (k : A -> M B) : M B :=
  fun w =>
    match m w with
    | (Return a, w') => k a w'
    | (Raise e, w') => (Raise e, w')
    end.

(** [try: m except ...: h]; [h e = None] when no clause catches [e]. *)
Definition try_except {A} (m : M A) (h : exn -> option (M A)) : M A :=
  fun w =>
    match m w with
    | (Return a, w') => (Return a, w')
    | (Raise e, w') =>
        match h e with
        | Some handler => handler w'
        | None => (Raise e, w')
        end
    end.

Declare Scope handler_scope.
Delimit Scope handler_scope with handler.
Notation "x <- m ;; k" := (bind m (fun x => k))
  (at level 61, m at next level, right associativity) : handler_scope.
Notation "m ;;; k" := (bind m (fun _ => k))
  (at level 61, right associativity) : handler_scope.
Open Scope handler_scope.

(** Whether the next round trip to a store fails. *)
Definition next_fails (w : World) : bool := hd false (outages w).

(** One round trip to a store; raises [e] when the store does not answer. *)
Definition round_trip (e : exn) : M unit :=
  fun w =>
    match outages w with
    | [] => (Return tt, w)
    | failed :: rest =>
        (if failed then Raise e else Return tt,
         mkWorld (db w) (objects w) (trace w) rest)
    end.

(** ** Tables with a unique index *)

Section Table.

Variables Row K : Type.
Variable key : Row -> K.              (* the indexed columns of a row *)
Variable key_eqb : K -> K -> bool.

Definition has_key (k : K) (r : Row) : bool := key_eqb (key r) k.

Definition key_taken (k : K) (rows : list Row) : bool := existsb (has_key k) rows.

(** No two rows of the table agree on the indexed columns. *)
Fixpoint unique_index (rows : list Row) : bool :=
  match rows with
  | [] => true
  | r :: rest => negb (key_taken (key r) rest) && unique_index rest
  end.

End Table.

Definition pair_eqb {A B} (eqa : A -> A -> bool) (eqb : B -> B -> bool)
           (x y : A * B) : bool :=
  eqa (fst x) (fst y) && eqb (snd x) (snd y).

Definition str2_eqb : str * str -> str * str -> bool := pair_eqb str_eqb str_eqb.
Definition nat2_eqb : nat * nat -> nat * nat -> bool := pair_eqb Nat.eqb Nat.eqb.

(** ** [project.crud]: the peewee models *)

Module crud.

Definition mem_str (x : str) (xs : list str) : bool := existsb (str_eqb x) xs.
Definition mem_nat (x : nat) (xs : list nat) : bool := existsb (Nat.eqb x) xs.

(** Modelled from the spec: [project/crud.py] is not among the sources, so
    the model declarations follow the spec's data model.  Result is unique
    on (object_id, client_id). *)
Definition result_key (r : ResultRow) : str * str :=
  (result_client_id r, result_object_id r).

(** Modelled from the spec: Tag is unique on (tag_name, project_id). *)
Definition tag_key (t : TagRow) : str * str := (tag_name t, tag_project_id t).

(** Modelled from the spec: TaggedResult is unique on (tag, result). *)
Definition link_key (l : TaggedResultRow) : nat * nat := (link_tag l, link_result l).

Definition result_key_taken (d : Db) (client_id object_id : str) : bool :=
  key_taken result_key str2_eqb (client_id, object_id) (results d).

Definition tag_key_taken (d : Db) (name project_id : str) : bool :=
  key_taken tag_key str2_eqb (name, project_id) (tags d).

Definition link_key_taken (d : Db) (tag result : nat) : bool :=
  key_taken link_key nat2_eqb (tag, result) (tagged_results d).

(** Modelled from the spec: the state of a database that enforces the three
    uniqueness constraints of the missing model declarations. *)
Definition constraints_hold (d : Db) : bool :=
  unique_index result_key str2_eqb (results d)
  && unique_index tag_key str2_eqb (tags d)
  && unique_index link_key nat2_eqb (tagged_results d).

(** Modelled from the spec: [bind_to] of the missing [project/crud.py].  The
    spec has all ledger writes all-or-nothing per call, through the store's
    own transaction and not through a rollback by hand; so
    [with crud.bind_to(db): body] binds the models to [db] and runs [body]
    in one transaction of the relational store: when [body] raises, the
    ledger is as it was before [body], whatever [body] had written.  The
    record of writes keeps what the store received. *)
Definition bind_to {A} (body : M A) : M A :=
  fun w =>
    match body w with
    | (Return a, w') => (Return a, w')
    | (Raise e, w') => (Raise e, with_db w' (db w))
    end.

(** Modelled from the spec: [Result.create], as [get_or_create] runs it
    inside [database.atomic()], against the unique index of the missing
    model declaration: the row is stored, or [IntegrityError] is raised and
    nothing is. *)
Definition Result_create (client_id object_id filename : str) : M ResultRow :=
  fun w =>
    let d := db w in
    if result_key_taken d client_id object_id then (Raise IntegrityError, w)
    else
      let row := mkResult (result_seq d) client_id object_id filename in
      (Return row,
       logged (with_db w (mkDb (results d ++ [row]) (tags d) (tagged_results d)
                               (S (result_seq d)) (tag_seq d) (tagged_result_seq d)))
              (InsertResult row)).

(** Modelled from the spec: [Tag.create], likewise. *)
Definition Tag_create (name project_id : str) : M TagRow :=
  fun w =>
    let d := db w in
    if tag_key_taken d name project_id then (Raise IntegrityError, w)
    else
      let row := mkTag (tag_seq d) name project_id in
      (Return row,
       logged (with_db w (mkDb (results d) (tags d ++ [row]) (tagged_results d)
                               (result_seq d) (S (tag_seq d)) (tagged_result_seq d)))
              (InsertTag row)).

(** Modelled from the spec: [TaggedResult.create], likewise. *)
Definition TaggedResult_create (tag result : nat) : M TaggedResultRow :=
  fun w =>
    let d := db w in
    if link_key_taken d tag result then (Raise IntegrityError, w)
    else
      let row := mkTaggedResult (tagged_result_seq d) tag result in
      (Return row,
       logged (with_db w (mkDb (results d) (tags d) (tagged_results d ++ [row])
                               (result_seq d) (tag_seq d) (S (tagged_result_seq d))))
              (InsertTaggedResult row)).

(** peewee's [Model.get_or_create]: select on all the given fields; when
    nothing matches, create; when the create is refused, select once more
    and re-raise the [IntegrityError] if there is still no match. *)
Definition get_or_create {Row} (query : Db -> option Row) (create : M Row)
  : M (Row * bool) :=
  round_trip OperationalError ;;;
  fun w =>
    match query (db w) with
    | Some row => (Return (row, false), w)
    | None =>
        try_except (row <- create ;; ret (row, true))
          (fun e =>
             match e with
             | IntegrityError =>
                 Some (fun w' =>
                         match query (db w') with
                         | Some row => (Return (row, false), w')
                         | None => (Raise IntegrityError, w')
                         end)
             | _ => None
             end) w
    end.

Definition Result_select (client_id object_id filename : str) (d : Db)
  : option ResultRow :=
  find (fun r => has_key result_key str2_eqb (client_id, object_id) r
                 && str_eqb (result_filename r) filename) (results d).

Definition Tag_select (name project_id : str) (d : Db) : option TagRow :=
  find (has_key tag_key str2_eqb (name, project_id)) (tags d).

Definition TaggedResult_select (tag result : nat) (d : Db)
  : option TaggedResultRow :=
  find (has_key link_key nat2_eqb (tag, result)) (tagged_results d).

Definition Result_get_or_create (client_id object_id filename : str) :=
  get_or_create (Result_select client_id object_id filename)
                (Result_create client_id object_id filename).

Definition Tag_get_or_create (name project_id : str) :=
  get_or_create (Tag_select name project_id) (Tag_create name project_id).

Definition TaggedResult_get_or_create (tag : TagRow) (result : ResultRow) :=
  get_or_create (TaggedResult_select (tag_id tag) (result_id result))
                (TaggedResult_create (tag_id tag) (result_id result)).

(** [Result.select().where((object_id == ..) & (client_id == ..)).get()] *)
Definition Result_get (object_id client_id : str) : M ResultRow :=
  round_trip OperationalError ;;;
  fun w =>
    match find (fun r => str_eqb (result_object_id r) object_id
                         && str_eqb (result_client_id r) client_id)
               (results (db w)) with
    | Some row => (Return row, w)
    | None => (Raise DoesNotExist, w)
    end.

(** Modelled from the spec: the foreign keys of the missing model
    declarations cascade, so a TaggedResult row goes with its Result in
    [Result.delete().where(Result.object_id.in_(object_ids)).execute()]. *)
Definition Result_delete_where_object_id_in (object_ids : list str) : M unit :=
  round_trip OperationalError ;;;
  fun w =>
    let d := db w in
    let doomed r := mem_str (result_object_id r) object_ids in
    let doomed_ids := map result_id (filter doomed (results d)) in
    (Return tt,
     logged (with_db w (mkDb (filter (fun r => negb (doomed r)) (results d))
                             (tags d)
                             (filter (fun l => negb (mem_nat (link_result l) doomed_ids))
                                     (tagged_results d))
                             (result_seq d) (tag_seq d) (tagged_result_seq d)))
            (DeleteResults object_ids)).

(** Modelled from the spec: a TaggedResult row goes with its Tag in
    [Tag.delete().where(Tag.project_id == project_id).execute()]. *)
Definition Tag_delete_where_project_id (project_id : str) : M unit :=
  round_trip OperationalError ;;;
  fun w =>
    let d := db w in
    let doomed t := str_eqb (tag_project_id t) project_id in
    let doomed_ids := map tag_id (filter doomed (tags d)) in
    (Return tt,
     logged (with_db w (mkDb (results d)
                             (filter (fun t => negb (doomed t)) (tags d))
                             (filter (fun l => negb (mem_nat (link_tag l) doomed_ids))
                                     (tagged_results d))
                             (result_seq d) (tag_seq d) (tagged_result_seq d)))
            (DeleteTags project_id)).

End crud.

(** ** The MinIO client, on the configured bucket *)

Module Minio.

Definition InternalError : str := py "InternalError".
Definition NoSuchKey : str := py "NoSuchKey".

Definition without (name : str) (os : list (str * StoredObject)) :=
  filter (fun kv => negb (str_eqb (fst kv) name)) os.

Definition lookup (name : str) (os : list (str * StoredObject)) : option StoredObject :=
  option_map snd (find (fun kv => str_eqb (fst kv) name) os).

Definition put_object (name : str) (data : bytes) (content_type : str) : M unit :=
  round_trip (S3Error InternalError) ;;;
  fun w =>
    (Return tt,
     logged (with_objects w (without name (objects w)
                             ++ [(name, mkObject data content_type)]))
            (ObjectPut name)).

Definition get_object (name : str) : M StoredObject :=
  round_trip (S3Error InternalError) ;;;
  fun w =>
    match lookup name (objects w) with
    | Some o => (Return o, w)
    | None => (Raise (S3Error NoSuchKey), w)
    end.

(** The names under [prefix].  The service stores every object as
    [local/{project_id}/{object_id}], so nothing lies deeper than one level
    below a project's prefix. *)
Definition names_under (prefix : str) (os : list (str * StoredObject)) : list str :=
  map fst (filter (fun kv => starts_with prefix (fst kv)) os).

Definition list_objects (prefix : str) : M (list str) :=
  round_trip (S3Error InternalError) ;;;
  fun w => (Return (names_under prefix (objects w)), w).

Definition remove_object (name : str) : M unit :=
  round_trip (S3Error InternalError) ;;;
  fun w =>
    (Return tt, logged (with_objects w (without name (objects w))) (ObjectRemove name)).

End Minio.

(** ** The hub's core client and the settings, as the handlers read them *)

Record Analysis : Type := mkAnalysis { analysis_project_id : str }.

Record Node : Type := mkNode { node_public_key : option str }.

(** What the hub answers to the three lookups; [None] is its "not found".
    A lookup that the hub does not answer properly raises
    [flame_hub.HubAPIError] in the client; no handler catches it, and
    [server.py] answers it with a 502.  The handlers are embedded for the
    lookups that the hub answers, so a statement about a handler is a
    statement about the runs in which the hub answered. *)
Record CoreClient : Type := mkCoreClient {
  get_analysis : str -> option Analysis;
  get_project : str -> option unit;
  get_node : str -> option Node
}.

Record Settings : Type := mkSettings { hub_adapter_client_id : str }.

Record UploadFile : Type := mkUploadFile {
  file_filename : option str;
  file_content : bytes;
  file_content_type : option str
}.

(** ** [project/routers/local.py] *)

Module local.

Import TagGrammar.

(** [x or default] on an optional string: [None] and the empty string are
    both falsy. *)
Definition str_or (x : option str) (default : str) : str :=
  match x with
  | Some (c :: s) => c :: s
  | Some [] | None => default
  end.

Definition data_bin : str := py "data.bin".

Definition tag_object (tag project_id client_id object_id : str)
           (filename : option str) : M unit :=
  if negb (is_valid_tag tag) then
    raise (HTTPException HTTP_400_BAD_REQUEST (InvalidTagName tag))
  else
    crud.bind_to
      (result <- try_except
                   (crud.Result_get_or_create client_id object_id
                                              (str_or filename data_bin))
                   (fun e =>
                      match e with
                      | IntegrityError =>
                          Some (raise (HTTPException HTTP_400_BAD_REQUEST
                                         (FilenameConflict object_id client_id
                                                           (str_or filename data_bin))))
                      | _ => None
                      end) ;;
       tag_row <- crud.Tag_get_or_create tag project_id ;;
       crud.TaggedResult_get_or_create (fst tag_row) (fst result) ;;;
       ret tt).

Definition _get_project_id_for_analysis_or_raise (core_client : CoreClient)
           (analysis_id : str) : M str :=
  match get_analysis core_client analysis_id with
  | None => raise (HTTPException HTTP_404_NOT_FOUND (AnalysisNotFound analysis_id))
  | Some analysis => ret (analysis_project_id analysis)
  end.

(** [f"local/{project_id}/{object_id}"] *)
Definition object_name (project_id object_id : str) : str :=
  py "local/" ++ project_id ++ py "/" ++ object_id.

(** [f"local/{project_id}/"] *)
Definition project_prefix (project_id : str) : str :=
  py "local/" ++ project_id ++ py "/".

Definition _get_object_from_s3 (project_id object_id client_id : str)
  : M StoredObject :=
  try_except (Minio.get_object (object_name project_id object_id))
    (fun e =>
       match e with
       | S3Error code =>
           Some (if str_eqb code Minio.NoSuchKey then
                   raise (HTTPException HTTP_404_NOT_FOUND (ObjectNotFound object_id))
                 else
                   raise (HTTPException HTTP_502_BAD_GATEWAY UnexpectedObjectStoreError))
       | _ => None
       end).

Definition octet_stream : str := py "application/octet-stream".

(** [PUT /local]; [fresh_object_id] is what [uuid.uuid4()] draws.  The
    response carries the object id (and an URL made from it). *)
Definition submit_intermediate_result_to_local (core_client : CoreClient)
           (client_id : str) (file : UploadFile) (tag : option str)
           (fresh_object_id : str) : M str :=
  project_id <- _get_project_id_for_analysis_or_raise core_client client_id ;;
  let object_id := fresh_object_id in
  let name := object_name project_id object_id in
  match tag with
  | Some t => tag_object t project_id client_id object_id (file_filename file)
  | None => ret tt
  end ;;;
  Minio.put_object name (file_content file)
                   (str_or (file_content_type file) octet_stream) ;;;
  ret object_id.

(** The loop of [delete_local_results]: remove each listed object and
    collect the last path segment of its name. *)
Fixpoint remove_listed (listed : list str) (object_ids : list str) : M (list str) :=
  match listed with
  | [] => ret object_ids
  | name :: rest =>
      Minio.remove_object name ;;;
      remove_listed rest (object_ids ++ [last_segment 47%N name])
  end.

(** [DELETE /local] *)
Definition delete_local_results (settings : Settings) (core_client : CoreClient)
           (project_id client_id : str) : M unit :=
  if negb (str_eqb client_id (hub_adapter_client_id settings)) then
    raise (HTTPException HTTP_403_FORBIDDEN (NotHubAdapter client_id))
  else
    match get_project core_client project_id with
    | Some _ => raise (HTTPException HTTP_400_BAD_REQUEST (ProjectStillOnHub project_id))
    | None =>
        listed <- Minio.list_objects (project_prefix project_id) ;;
        object_ids <- remove_listed listed [] ;;
        crud.bind_to
          (crud.Result_delete_where_object_id_in object_ids ;;;
           crud.Tag_delete_where_project_id project_id)
    end.

(** [POST /local/tags]; the response carries the stored filename. *)
Definition create_object_tag (core_client : CoreClient)
           (tag_name object_id client_id : str) (filename : option str) : M str :=
  project_id <- _get_project_id_for_analysis_or_raise core_client client_id ;;
  _get_object_from_s3 project_id object_id client_id ;;;
  tag_object tag_name project_id client_id object_id filename ;;;
  result <- crud.bind_to (crud.Result_get object_id client_id) ;;
  ret (result_filename result).

(** [GET /local/{object_id}]; the response streams the stored bytes. *)
Definition retrieve_intermediate_result_from_local (core_client : CoreClient)
           (client_id object_id : str) : M bytes :=
  project_id <- _get_project_id_for_analysis_or_raise core_client client_id ;;
  response <- _get_object_from_s3 project_id object_id client_id ;;
  ret (object_data response).

End local.

(** ** [project.crypto]: the secure channel codec *)

Module crypto.

Section Codec.

(** The primitives of the [cryptography] package: key agreement on the
    fixed curve, key derivation, and an authenticated cipher that returns
    ciphertext and tag. *)
Variables PrivateKey PublicKey SharedSecret SymmetricKey : Type.
Variable ecdh_exchange : PrivateKey -> PublicKey -> SharedSecret.
Variable kdf : SharedSecret -> SymmetricKey.
Variable nonce_len tag_len : nat.
Variable aead_seal : SymmetricKey -> bytes -> bytes -> bytes * bytes.
Variable aead_open : SymmetricKey -> bytes -> bytes -> bytes -> option bytes.

(** Modelled from the spec: [project/crypto.py] is not among the sources.
    The symmetric key is the key derivation of the key agreement between
    the local private key and the peer's public key. *)
Definition deriveSharedKey (localPrivateKey : PrivateKey)
           (peerPublicKey : PublicKey) : SymmetricKey :=
  kdf (ecdh_exchange localPrivateKey peerPublicKey).

(** Modelled from the spec: a unit is the nonce, then the ciphertext, then
    the tag, with no length prefix and no version byte. *)
Definition encryptUnit (key : SymmetricKey) (nonce plaintext : bytes) : bytes :=
  let (ciphertext, tag) := aead_seal key nonce plaintext in
  nonce ++ ciphertext ++ tag.

(** Modelled from the spec: decryption parses the three parts back by the
    two fixed widths and fails with [AuthenticationFailure] (here [None])
    when the tag does not verify or the input is too short to hold them. *)
Definition decryptUnit (key : SymmetricKey) (unit : bytes) : option bytes :=
  if List.length unit <? nonce_len + tag_len then None
  else
    let nonce := firstn nonce_len unit in
    let body := skipn nonce_len unit in
    let split_at := List.length body - tag_len in
    aead_open key nonce (firstn split_at body) (skipn split_at body).

(** Modelled from the spec: [encrypt_default], as the routers call it; the
    nonce is the entropy it consumes. *)
Definition encrypt_default (private_key : PrivateKey) (peer : PublicKey)
           (nonce plaintext : bytes) : bytes :=
  encryptUnit (deriveSharedKey private_key peer) nonce plaintext.

(** Modelled from the spec: [decrypt_default], as the routers call it; a
    failed authentication is the [InvalidTag] they catch. *)
Definition decrypt_default (private_key : PrivateKey) (peer : PublicKey)
           (unit : bytes) : outcome bytes :=
  match decryptUnit (deriveSharedKey private_key peer) unit with
  | Some plaintext => Return plaintext
  | None => Raise InvalidTag
  end.

End Codec.

End crypto.

(** ** [project/routers/intermediate.py] *)

Record BucketFile : Type := mkBucketFile { bucket_file_name : str }.

Record StorageClient : Type := mkStorageClient {
  get_bucket_file : str -> option BucketFile;
  (** the chunks the hub's storage yields for a bucket file, in order *)
  stream_bucket_file : str -> list bytes
}.

(** What a [StreamingResponse] puts on the wire: the chunks its generator
    yielded, and the exception that ended it early, if any. *)
Record StreamingResponse : Type := mkStreamingResponse {
  sent : list bytes;
  broken_by : option exn
}.

Module intermediate.

Section Handlers.

Variables PrivateKey PublicKey : Type.
(** [crypto.load_ecdh_public_key_from_hex_string] and
    [crypto.decrypt_default], whatever they compute *)
Variable load_ecdh_public_key_from_hex_string : str -> outcome PublicKey.
Variable decrypt_default : PrivateKey -> PublicKey -> bytes -> outcome bytes.

Definition and_then {A B} (o : outcome A) (k : A -> outcome B) : outcome B :=
  match o with
  | Return a => k a
  | Raise e => Raise e
  end.

Definition get_remote_node_public_key (core_client : CoreClient)
           (remote_node_id : str) : outcome PublicKey :=
  match get_node core_client remote_node_id with
  | None => Raise (HTTPException HTTP_404_NOT_FOUND (NodeNotFound remote_node_id))
  | Some remote_node =>
      match node_public_key remote_node with
      | None =>
          Raise (HTTPException HTTP_400_BAD_REQUEST (NodeWithoutPublicKey remote_node_id))
      | Some hex => load_ecdh_public_key_from_hex_string hex
      end
  end.

(** [next(iterator)]; the [StopIteration] of an exhausted iterator reaches
    the caller of the coroutine as a [RuntimeError] that wraps it. *)
Definition next {A} (stream : list A) : outcome A :=
  match stream with
  | x :: _ => Return x
  | [] => Raise StopIteration
  end.

(** The decrypting branch of [_stream_bucket_file]: each chunk is
    decrypted and yielded; an exception ends the generator. *)
Fixpoint stream_decrypted (private_key : PrivateKey) (peer : PublicKey)
         (stream : list bytes) : StreamingResponse :=
  match stream with
  | [] => mkStreamingResponse [] None
  | b :: rest =>
      match decrypt_default private_key peer b with
      | Return plaintext =>
          let r := stream_decrypted private_key peer rest in
          mkStreamingResponse (plaintext :: sent r) (broken_by r)
      | Raise e => mkStreamingResponse [] (Some e)
      end
  end.

(** [GET /intermediate/{object_id}] *)
Definition retrieve_intermediate_result_from_hub (core_client : CoreClient)
           (storage_client : StorageClient) (private_key : PrivateKey)
           (object_id : str) (node_id : option str) : outcome StreamingResponse :=
  match get_bucket_file storage_client object_id with
  | None => Raise (HTTPException HTTP_404_NOT_FOUND (ObjectNotFound object_id))
  | Some _ =>
      match node_id with
      | None =>
          Return (mkStreamingResponse (stream_bucket_file storage_client object_id) None)
      | Some node =>
          and_then (next (stream_bucket_file storage_client object_id))
            (fun first_bytes =>
          and_then (get_remote_node_public_key core_client node)
            (fun remote_node_public_key =>
          match decrypt_default private_key remote_node_public_key first_bytes with
          | Raise InvalidTag =>
              Raise (HTTPException HTTP_400_BAD_REQUEST
                       (DecryptionNotPossible object_id node))
          | Raise e => Raise e
          | Return _ =>
              Return (stream_decrypted private_key remote_node_public_key
                        (stream_bucket_file storage_client object_id))
          end))
      end
  end.

(** The bytes a caller receives: nothing when the handler raised. *)
Definition delivered (r : outcome StreamingResponse) : list bytes :=
  match r with
  | Return response => sent response
  | Raise _ => []
  end.

End Handlers.

End intermediate.


(** ** An instance of the codec's primitives, for examples

    Keys are numbers; key agreement multiplies modulo 251; the cipher XORs
    every octet with the key and uses the key octet as a one-octet tag. *)

Module ExampleCodec.

Definition exchange (private_key public_key : N) : N :=
  ((private_key * public_key) mod 251)%N.

Definition derive (secret : N) : N := secret.

Definition seal (key : N) (nonce plaintext : bytes) : bytes * bytes :=
  (map (N.lxor key) plaintext, [key]).

Definition open (key : N) (nonce ciphertext tag : bytes) : option bytes :=
  if str_eqb tag [key] then Some (map (N.lxor key) ciphertext) else None.

End ExampleCodec.

(** ** Fixtures of the repository's tests *)

Module fixtures.

(** [tests/test_local_tagged.py], [_tag_test_cases] *)
Definition _tag_test_cases : list (str * bool) :=
  [(py "", false); (py " ", false); (py "-", false); (py "--", false);
   (py "-ab", false); (py "ab-", false); (py "-0", false); (py "0-", false);
   (py " -a", false); (py "a- ", false);
   (py "a", true); (py "0", true); (py "aa", true); (py "00", true);
   (py "a0", true); (py "0a", true); (py "result1", true); (py "result-1", true);
   (py "result--1", true);
   (py "a" ++ repeat 45%N 30 ++ py "a", true);
   (py "a" ++ repeat 45%N 31 ++ py "a", false);
   (repeat 97%N 33, false)].

(** A hub with two analyses, [an1] in project [p1] and [an2] in project
    [p2]; of the two projects it still has [p2]. *)
Definition hub : CoreClient :=
  mkCoreClient (fun analysis_id =>
                  if str_eqb analysis_id (py "an1") then Some (mkAnalysis (py "p1"))
                  else if str_eqb analysis_id (py "an2") then Some (mkAnalysis (py "p2"))
                  else None)
               (fun project_id =>
                  if str_eqb project_id (py "p2") then Some tt else None)
               (fun _ => None).

Definition settings : Settings := mkSettings (py "hub-adapter").

Definition blob : UploadFile := mkUploadFile (Some (py "r.csv")) [7; 8; 9]%N None.

Definition fresh : World := mkWorld empty_db [] [] [].

End fixtures.

(** ** The selects of the listing handlers *)

Module queries.

(** [Tag.select().where(Tag.project_id == project_id)], run when the
    handler iterates over it. *)
Definition Tag_select_where_project_id (project_id : str) : M (list TagRow) :=
  round_trip OperationalError ;;;
  fun w =>
    (Return (filter (fun t => str_eqb (tag_project_id t) project_id) (tags (db w))), w).

(** Modelled from the spec: the joins follow the foreign keys [tag] and
    [result] of TaggedResult, whose declaration is in the missing
    [project/crud.py].
    [Result.select().join(TaggedResult).join(Tag)
       .where((Tag.project_id == project_id) & (Tag.tag_name == tag_name))]:
    one row for every Result, TaggedResult and Tag that the two inner joins
    and the condition put together. *)
Definition Result_select_by_tag (project_id name : str) : M (list ResultRow) :=
  round_trip OperationalError ;;;
  fun w =>
    let d := db w in
    (Return
       (flat_map
          (fun r =>
             flat_map
               (fun l =>
                  if Nat.eqb (link_result l) (result_id r) then
                    flat_map
                      (fun t =>
                         if Nat.eqb (link_tag l) (tag_id t)
                            && str_eqb (tag_project_id t) project_id
                            && str_eqb (tag_name t) name
                         then [r] else [])
                      (tags d)
                  else [])
               (tagged_results d))
          (results d)),
     w).

(** [Result.select().where((object_id == ..) & (client_id == ..)).count()] *)
Definition Result_count (object_id client_id : str) : M nat :=
  round_trip OperationalError ;;;
  fun w =>
    (Return (List.length
               (filter (fun r => str_eqb (result_object_id r) object_id
                                 && str_eqb (result_client_id r) client_id)
                       (results (db w)))),
     w).

End queries.

(** ** [project/routers/local.py]: the listing handlers *)

Module local_listing.

Import local.

(** [GET /local/tags]; the response lists the tag names (and an URL made
    from each). *)
Definition get_project_tags (core_client : CoreClient) (client_id : str)
  : M (list str) :=
  project_id <- _get_project_id_for_analysis_or_raise core_client client_id ;;
  db_tags <- crud.bind_to (queries.Tag_select_where_project_id project_id) ;;
  ret (map tag_name db_tags).

(** [GET /local/tags/{tag_name}]; the response lists, for each result, its
    filename and the object id its URL is made from. *)
Definition get_results_by_project_tag (core_client : CoreClient)
           (name client_id : str) : M (list (str * str)) :=
  project_id <- _get_project_id_for_analysis_or_raise core_client client_id ;;
  db_tagged_results <- crud.bind_to (queries.Result_select_by_tag project_id name) ;;
  ret (map (fun result => (result_filename result, result_object_id result))
           db_tagged_results).

End local_listing.

(** ** Uploads to the hub *)

Inductive bucket_type : Type := TEMP | RESULT.

Record AnalysisBucket : Type := mkAnalysisBucket {
  analysis_bucket_id : str;
  bucket_id : str
}.

(** A bucket file as the storage service reports it after an upload. *)
Record UploadedBucketFile : Type := mkUploadedBucketFile {
  uploaded_id : str;
  uploaded_name : str
}.

Record Upload : Type := mkUpload {
  upload_bucket_id : str;
  upload_file_name : option str;
  upload_content : bytes;
  upload_content_type : str
}.

(** The two calls with which a handler changes the hub. *)
Inductive hub_call : Type :=
| upload_to_bucket_call (upload : Upload)
| create_analysis_bucket_file_call
    (path bucket_file_id of_analysis_bucket_id of_bucket_id : str).

(** The hub as an upload sees it: the analysis buckets it finds for an
    analysis and a bucket type, and the bucket files the storage service
    answers an upload with. *)
Record HubBuckets : Type := mkHubBuckets {
  find_analysis_buckets : str -> bucket_type -> list AnalysisBucket;
  upload_to_bucket : Upload -> list UploadedBucketFile
}.

(** The details of the [HTTPException]s that only the upload handlers raise. *)
Inductive upload_detail : Type :=
| BucketNotFound (kind : bucket_type) (analysis_id : str)
| UnexpectedUploadCount (got : nat).

Inductive upload_failure : Type :=
| UploadHTTPException (status_code : nat) (d : upload_detail)
| Propagated (e : exn).

Inductive upload_outcome (A : Type) : Type :=
| Uploaded (a : A)
| UploadFailed (f : upload_failure).
Arguments Uploaded {A} a.
Arguments UploadFailed {A} f.

(** [lst.pop()]: the last element. *)
Definition pop {A} (lst : list A) : option A :=
  match rev lst with
  | x :: _ => Some x
  | [] => None
  end.

Module hub_upload.

Section Handlers.

Variables PrivateKey PublicKey : Type.
(** [crypto.load_ecdh_public_key_from_hex_string] and
    [crypto.encrypt_default], whatever they compute; the third argument of
    the latter is the entropy the call draws. *)
Variable load_ecdh_public_key_from_hex_string : str -> outcome PublicKey.
Variable encrypt_default : PrivateKey -> PublicKey -> bytes -> bytes -> bytes.

(** [PUT /intermediate]; the response carries the id of the bucket file.
    Beside the outcome, the calls that changed the hub, in order. *)
Definition submit_intermediate_result_to_hub (core_client : CoreClient)
           (hub : HubBuckets) (private_key : PrivateKey) (client_id : str)
           (file : UploadFile) (remote_node_id : option str) (entropy : bytes)
  : upload_outcome str * list hub_call :=
  let analysis_bucket_lst := find_analysis_buckets hub client_id TEMP in
  match pop analysis_bucket_lst with
  | None =>
      (UploadFailed (UploadHTTPException HTTP_404_NOT_FOUND
                       (BucketNotFound TEMP client_id)), [])
  | Some analysis_bucket =>
      let encrypted :=
        match remote_node_id with
        | None => Return (file_content file)
        | Some node =>
            intermediate.and_then
              (intermediate.get_remote_node_public_key
                 load_ecdh_public_key_from_hex_string core_client node)
              (fun remote_public_key =>
                 Return (encrypt_default private_key remote_public_key entropy
                                         (file_content file)))
        end in
      match encrypted with
      | Raise e => (UploadFailed (Propagated e), [])
      | Return result_file =>
          let upload :=
            mkUpload (bucket_id analysis_bucket) (file_filename file) result_file
                     (local.str_or (file_content_type file) local.octet_stream) in
          match upload_to_bucket hub upload with
          | [bucket_file] =>
              (Uploaded (uploaded_id bucket_file),
               [upload_to_bucket_call upload;
                create_analysis_bucket_file_call
                  (uploaded_name bucket_file) (uploaded_id bucket_file)
                  (analysis_bucket_id analysis_bucket) (bucket_id analysis_bucket)])
          | bucket_file_lst =>            (* [len(bucket_file_lst) != 1] *)
              (UploadFailed (UploadHTTPException HTTP_502_BAD_GATEWAY
                               (UnexpectedUploadCount (List.length bucket_file_lst))),
               [upload_to_bucket_call upload])
          end
      end
  end.

End Handlers.

(** [PUT /final]; a 204 without a body on success. *)
Definition submit_final_result_to_hub (hub : HubBuckets) (client_id : str)
           (file : UploadFile) : upload_outcome unit * list hub_call :=
  let analysis_bucket_lst := find_analysis_buckets hub client_id RESULT in
  match pop analysis_bucket_lst with
  | None =>
      (UploadFailed (UploadHTTPException HTTP_404_NOT_FOUND
                       (BucketNotFound RESULT client_id)), [])
  | Some analysis_bucket =>
      let upload :=
        mkUpload (bucket_id analysis_bucket) (file_filename file) (file_content file)
                 (local.str_or (file_content_type file) local.octet_stream) in
      match upload_to_bucket hub upload with
      | [bucket_file] =>
          (Uploaded tt,
           [upload_to_bucket_call upload;
            create_analysis_bucket_file_call
              (uploaded_name bucket_file) (uploaded_id bucket_file)
              (analysis_bucket_id analysis_bucket) (bucket_id analysis_bucket)])
      | bucket_file_lst =>                (* [len(bucket_file_lst) != 1] *)
          (UploadFailed (UploadHTTPException HTTP_502_BAD_GATEWAY
                           (UnexpectedUploadCount (List.length bucket_file_lst))),
           [upload_to_bucket_call upload])
      end
  end.

(** [PUT /local/upload]: the stored object goes to the hub under the
    filename the ledger has for it, or under its object id. *)
Definition upload_local_file
           (PrivateKey PublicKey : Type)
           (load_ecdh_public_key_from_hex_string : str -> outcome PublicKey)
           (encrypt_default : PrivateKey -> PublicKey -> bytes -> bytes -> bytes)
           (core_client : CoreClient) (hub : HubBuckets) (private_key : PrivateKey)
           (object_id client_id : str) (remote_node_id : option str)
           (entropy : bytes)
  : M (upload_outcome str * list hub_call) :=
  project_id <- local._get_project_id_for_analysis_or_raise core_client client_id ;;
  response <- local._get_object_from_s3 project_id object_id client_id ;;
  filename <- crud.bind_to
                (n <- queries.Result_count object_id client_id ;;
                 if n =? 1 then
                   result <- crud.Result_get object_id client_id ;;
                   ret (result_filename result)
                 else ret object_id) ;;
  let file := mkUploadFile (Some filename) (object_data response)
                           (Some (object_content_type response)) in
  ret (submit_intermediate_result_to_hub
         load_ecdh_public_key_from_hex_string encrypt_default
         core_client hub private_key client_id file remote_node_id entropy).

End hub_upload.

(** ** [project/dependencies.py] *)

Module dependencies.

Record ProxyConfig : Type := mkProxyConfig {
  http_url : option str;
  https_url : option str
}.

(** [httpx.HTTPTransport(proxy=.., verify=ssl_context)]: the proxy URL, and
    whether the SSL context is handed over. *)
Record HTTPTransport : Type := mkHTTPTransport {
  transport_proxy : str;
  transport_verify : bool
}.

(** [str(url)] of an optional URL. *)
Definition str_of_url (url : option str) : str :=
  match url with
  | Some u => u
  | None => py "None"
  end.

Definition is_not_None {A} (x : option A) : bool :=
  match x with Some _ => true | None => false end.

(** The mounts are a [dict]: the keys in insertion order. *)
Definition get_proxy_mounts (proxy : ProxyConfig)
  : option (list (str * HTTPTransport)) :=
  let http_proxy_set := is_not_None (http_url proxy) in
  let https_proxy_set := is_not_None (https_url proxy) in
  let proxy_mounts :=
    if http_proxy_set && https_proxy_set then
      [(py "http://", mkHTTPTransport (str_of_url (http_url proxy)) false);
       (py "https://", mkHTTPTransport (str_of_url (https_url proxy)) true)]
    else if negb http_proxy_set && negb https_proxy_set then
      []
    else
      let proxy_url := if http_proxy_set then str_of_url (http_url proxy)
                       else str_of_url (https_url proxy) in
      [(py "http://", mkHTTPTransport proxy_url false);
       (py "https://", mkHTTPTransport proxy_url true)] in
  if List.length proxy_mounts =? 0 then None else Some proxy_mounts.

(** [data.replace(bytes([a, b]), new)]: every occurrence of the two octets
    [a b], found from the left and not overlapping, gives way to [new]. *)
Fixpoint replace_pair (a b : N) (new : bytes) (data : bytes) : bytes :=
  match data with
  | [] => []
  | c :: rest =>
      match rest with
      | d :: rest' =>
          if N.eqb c a && N.eqb d b then new ++ replace_pair a b new rest'
          else c :: replace_pair a b new rest
      | [] => [c]
      end
  end.

Inductive CryptoConfig : Type :=
| RawCryptoConfig (ecdh_private_key : bytes)
| FileCryptoConfig (ecdh_private_key_path : str).

Section KeyMaterial.

Variable PrivateKey : Type.
(** [crypto.load_ecdh_private_key] and
    [crypto.load_ecdh_private_key_from_path], whatever they compute *)
Variable load_ecdh_private_key : bytes -> outcome PrivateKey.
Variable load_ecdh_private_key_from_path : str -> outcome PrivateKey.

(** A backslash followed by [n] becomes a line feed before the key is
    parsed. *)
Definition get_ecdh_private_key_from_bytes (ecdh_private_key : bytes)
  : outcome PrivateKey :=
  load_ecdh_private_key (replace_pair 92 110 [10%N] ecdh_private_key).

Definition get_ecdh_private_key_from_path (ecdh_private_key_path : str)
  : outcome PrivateKey :=
  load_ecdh_private_key_from_path ecdh_private_key_path.

Definition get_ecdh_private_key (crypto_settings : CryptoConfig) : outcome PrivateKey :=
  match crypto_settings with
  | RawCryptoConfig key => get_ecdh_private_key_from_bytes key
  | FileCryptoConfig path => get_ecdh_private_key_from_path path
  end.

End KeyMaterial.

End dependencies.

(** ** The endpoints of [/local] as one service *)

Module service.

(** The requests, named by their operation ids. *)
Inductive request : Type :=
| putLocalResult (client_id : str) (file : UploadFile) (tag : option str)
                 (fresh_object_id : str)
| deleteLocalResults (project_id client_id : str)
| getProjectTags (client_id : str)
| tagObject (tag_name object_id client_id : str) (filename : option str)
| getTaggedResults (tag_name client_id : str)
| getLocalResult (client_id object_id : str)
| uploadLocalFile (object_id client_id : str) (remote_node_id : option str)
                  (entropy : bytes).

(** A request as it arrives: with what the hub answers at that time and
    with the outages of the stores it is going to meet. *)
Record arrival : Type := mkArrival {
  hub_core : CoreClient;
  hub_buckets : HubBuckets;
  coming_outages : list bool;
  asked : request
}.

Section Service.

Variable settings : Settings.
Variables PrivateKey PublicKey : Type.
Variable load_ecdh_public_key_from_hex_string : str -> outcome PublicKey.
Variable encrypt_default : PrivateKey -> PublicKey -> bytes -> bytes -> bytes.
Variable private_key : PrivateKey.

(** Runs the handler of the request; the response is dropped. *)
Definition handle (a : arrival) : M unit :=
  match asked a with
  | putLocalResult client_id file tag fresh_object_id =>
      local.submit_intermediate_result_to_local (hub_core a) client_id file tag
                                                fresh_object_id ;;;
      ret tt
  | deleteLocalResults project_id client_id =>
      local.delete_local_results settings (hub_core a) project_id client_id
  | getProjectTags client_id =>
      local_listing.get_project_tags (hub_core a) client_id ;;; ret tt
  | tagObject tag_name object_id client_id filename =>
      local.create_object_tag (hub_core a) tag_name object_id client_id filename ;;;
      ret tt
  | getTaggedResults tag_name client_id =>
      local_listing.get_results_by_project_tag (hub_core a) tag_name client_id ;;;
      ret tt
  | getLocalResult client_id object_id =>
      local.retrieve_intermediate_result_from_local (hub_core a) client_id object_id ;;;
      ret tt
  | uploadLocalFile object_id client_id remote_node_id entropy =>
      hub_upload.upload_local_file load_ecdh_public_key_from_hex_string encrypt_default
        (hub_core a) (hub_buckets a) private_key object_id client_id remote_node_id
        entropy ;;;
      ret tt
  end.

(** The stores after the request. *)
Definition serve (w : World) (a : arrival) : World :=
  snd (handle a (mkWorld (db w) (objects w) (trace w) (coming_outages a))).

(** The stores after a sequence of requests to a service that starts with
    an empty ledger and an empty bucket. *)
Definition after (arrivals : list arrival) : World :=
  fold_left serve arrivals (mkWorld empty_db [] [] []).

End Service.

(** ** What the ledger is expected to keep *)

(** Every TaggedResult row links a Tag row and a Result row that exist. *)
Definition links_resolve (d : Db) : bool :=
  forallb (fun l => existsb (fun t => Nat.eqb (tag_id t) (link_tag l)) (tags d)
                    && existsb (fun r => Nat.eqb (result_id r) (link_result l))
                               (results d))
          (tagged_results d).

(** Every row went through validation: tag names are valid, filenames are
    not empty. *)
Definition rows_validated (d : Db) : bool :=
  forallb (fun t => TagGrammar.is_valid_tag (tag_name t)) (tags d)
  && forallb (fun r => negb (str_eqb (result_filename r) [])) (results d).

End service.

(** ** What a handler leaves behind *)

(** The ledger, the bucket and the record of writes are as they were. *)
Definition untouched (w w' : World) : Prop :=
  db w' = db w /\ objects w' = objects w /\ trace w' = trace w.

(** What every ledger of the service is expected to satisfy: the unique
    indices, links that resolve, and validated rows. *)
Definition ledger_kept (d : Db) : Prop :=
  crud.constraints_hold d = true
  /\ service.links_resolve d = true
  /\ service.rows_validated d = true.

(** ** [tests/common/helpers.py] *)

Module helpers.

Section Eventually.

(** What the predicate reads and changes when it is called. *)
Variable State : Type.
Variable predicate : State -> bool * State.



(** The state after [k] calls of the predicate. *)
Fixpoint state_after (k : nat) (s : State) : State :=
  match k with
  | 0 => s
  | S k' => state_after k' (snd (predicate s))
  end.

End Eventually.

End helpers.
(** * Properties *)

(** ** Strings *)

Lemma str_eqb_eq (a b : str) : str_eqb a b = true <-> a = b.
Proof.
  revert b; induction a as [|x a IH]; intros [|y b]; simpl; split;
    try congruence; try reflexivity.
  - intros H. apply andb_true_iff in H as [Hx Hab].
    apply N.eqb_eq in Hx. apply IH in Hab. congruence.
  - intros H. injection H as -> ->.
    apply andb_true_iff. split; [apply N.eqb_refl | now apply IH].
Qed.

Lemma str_eqb_refl (a : str) : str_eqb a a = true.
Proof. now apply str_eqb_eq. Qed.

Lemma str_eqb_neq (a b : str) : str_eqb a b = false <-> a <> b.
Proof.
  split.
  - intros H E. apply str_eqb_eq in E. congruence.
  - intros H. destruct (str_eqb a b) eqn:E; [|reflexivity].
    apply str_eqb_eq in E. contradiction.
Qed.

(** ** The tag grammar *)

Module TagGrammarFacts.

Import TagGrammar.

Lemma repeatk_splits (m : str -> (str -> bool) -> bool) (P : str -> Prop) :
  (forall s k, m s k = true <-> splits P s k) ->
  forall hi lo s k,
    repeatk m lo hi s k = true <->
    splits (fun s1 => exists n, lo <= n <= hi /\ power P n s1) s k.
Proof.
  intros Hm. induction hi as [|hi IH]; intros lo s k; simpl.
  - split.
    + destruct lo; [|discriminate]. intros Hk.
      exists [], s. repeat split; trivial. exists 0. simpl. split; [lia|reflexivity].
    + intros (s1 & s2 & -> & (n & Hn & Hp) & Hk).
      assert (n = 0) by lia. subst n. assert (lo = 0) by lia. subst lo.
      simpl in Hp. subst s1. exact Hk.
  - rewrite orb_true_iff, Hm. split.
    + intros [(a & b & -> & Ha & Hb) | H0].
      * apply IH in Hb as (s1 & s2 & -> & (n & Hn & Hp) & Hk).
        exists (a ++ s1), s2. rewrite app_assoc. repeat split; trivial.
        exists (S n). split; [lia|]. simpl. exists a, s1. auto.
      * destruct lo; [|discriminate].
        exists [], s. repeat split; trivial. exists 0. simpl. split; [lia|reflexivity].
    + intros (s1 & s2 & -> & (n & Hn & Hp) & Hk).
      destruct n as [|n]; simpl in Hp.
      * subst s1. right. assert (lo = 0) by lia. subst lo. exact Hk.
      * destruct Hp as (a & b & -> & Ha & Hb). left.
        exists a, (b ++ s2). rewrite app_assoc. repeat split; trivial.
        apply IH. exists b, s2. repeat split; trivial. exists n. split; [lia|trivial].
Qed.

Lemma matchk_splits (r : regex) :
  forall s k, matchk r s k = true <-> splits (lang r) s k.
Proof.
  induction r as [ranges | r1 IH1 r2 IH2 | r1 IH1 r2 IH2 | r0 IH lo hi];
    intros s k; simpl.
  - split.
    + destruct s as [|c s']; [discriminate|]. intros H.
      apply andb_true_iff in H as [Hc Hk].
      exists [c], s'. repeat split; trivial. exists c. auto.
    + intros (s1 & s2 & -> & (c & -> & Hc) & Hk). simpl.
      now rewrite Hc, Hk.
  - rewrite IH1. split.
    + intros (a & b & -> & Ha & Hb). apply IH2 in Hb as (s1 & s2 & -> & Hs1 & Hk).
      exists (a ++ s1), s2. rewrite app_assoc. repeat split; trivial.
      exists a, s1. auto.
    + intros (s1 & s2 & -> & (a & b & -> & Ha & Hb) & Hk).
      exists a, (b ++ s2). rewrite app_assoc. repeat split; trivial.
      apply IH2. exists b, s2. auto.
  - rewrite orb_true_iff, IH1, IH2. split.
    + intros [(s1 & s2 & E & H & Hk) | (s1 & s2 & E & H & Hk)];
        exists s1, s2; auto.
    + intros (s1 & s2 & E & [H | H] & Hk); [left | right]; exists s1, s2; auto.
  - apply repeatk_splits. exact IH.
Qed.

Lemma fullmatch_lang (r : regex) (s : str) : fullmatch r s = true <-> lang r s.
Proof.
  unfold fullmatch. rewrite matchk_splits. split.
  - intros (s1 & [|c s2] & -> & H & Hk); [|discriminate].
    now rewrite app_nil_r.
  - intros H. exists s, []. rewrite app_nil_r. auto.
Qed.

(** Repetitions of a character class. *)
Lemma power_class (ranges : list (N * N)) (n : nat) (s : str) :
  power (lang (Class ranges)) n s <->
  List.length s = n /\ forallb (in_class ranges) s = true.
Proof.
  revert s. induction n as [|n IH]; intros s; simpl.
  - split.
    + intros ->. auto.
    + intros [H _]. now apply length_zero_iff_nil.
  - split.
    + intros (s1 & s2 & -> & (c & -> & Hc) & Hp). apply IH in Hp as [Hl Hf].
      simpl. rewrite Hc, Hf, Hl. auto.
    + destruct s as [|c s']; simpl; [intros [H _]; discriminate|].
      intros [Hl Hf]. apply andb_true_iff in Hf as [Hc Hf].
      exists [c], s'. repeat split; trivial.
      * exists c. auto.
      * apply IH. split; [lia | trivial].
Qed.

Lemma in_lower_alnum (c : N) :
  in_class [(97, 122); (48, 57)]%N c = is_lower_alnum c.
Proof. unfold in_class, is_lower_alnum. simpl. now rewrite orb_false_r. Qed.

Lemma in_lower_alnum_hyphen (c : N) :
  in_class [(97, 122); (48, 57); (45, 45)]%N c = (is_lower_alnum c || is_hyphen c).
Proof.
  unfold in_class, is_lower_alnum, is_hyphen. simpl.
  rewrite orb_false_r, orb_assoc. f_equal.
  destruct (N.eqb_spec c 45) as [->|Hne]; [reflexivity|].
  destruct (N.leb_spec 45 c), (N.leb_spec c 45); simpl; trivial. lia.
Qed.

Lemma forallb_ext_eq {A} (f g : A -> bool) (l : list A) :
  (forall x, f x = g x) -> forallb f l = forallb g l.
Proof. intros H. induction l; simpl; [reflexivity | now rewrite H, IHl]. Qed.

Lemma last_is_alnum_snoc (mid : str) (b : N) (a : N) :
  last_is_alnum (a :: mid ++ [b]) = is_lower_alnum b.
Proof.
  unfold last_is_alnum. simpl. rewrite rev_app_distr. reflexivity.
Qed.

Lemma is_valid_tag_lang (t : str) :
  is_valid_tag t = true <->
  (exists n, 1 <= n <= 2 /\ List.length t = n /\ forallb is_lower_alnum t = true)
  \/ (exists a mid b,
        t = a :: mid ++ [b] /\ is_lower_alnum a = true /\ is_lower_alnum b = true
        /\ List.length mid <= 30
        /\ forallb (fun c => is_lower_alnum c || is_hyphen c) mid = true).
Proof.
  unfold is_valid_tag. rewrite fullmatch_lang.
  unfold _TAG_PATTERN, lower_alnum, lower_alnum_hyphen. cbn [lang].
  split.
  - intros [(n & Hn & Hp)
           | (s1 & s2 & -> & (a & -> & Ha) & s3 & s4 & -> & (n & Hn & Hp) & (b & -> & Hb))].
    + left. apply (power_class [(97, 122); (48, 57)]%N) in Hp as [Hl Hf].
      exists n. repeat split; try lia.
      rewrite <- Hf. apply forallb_ext_eq. intros x. symmetry. apply in_lower_alnum.
    + right. apply (power_class [(97, 122); (48, 57); (45, 45)]%N) in Hp as [Hl Hf].
      exists a, s3, b. rewrite <- in_lower_alnum, <- in_lower_alnum.
      repeat split; trivial; try lia.
      rewrite <- Hf. apply forallb_ext_eq. intros x. symmetry. apply in_lower_alnum_hyphen.
  - intros [(n & Hn & Hl & Hf) | (a & mid & b & -> & Ha & Hb & Hl & Hf)].
    + left. exists n. split; [exact Hn|].
      apply (power_class [(97, 122); (48, 57)]%N). split; [exact Hl|].
      rewrite <- Hf. apply forallb_ext_eq. intros x. apply in_lower_alnum.
    + right. exists [a], (mid ++ [b]). split; [reflexivity|]. split.
      * exists a. rewrite in_lower_alnum. auto.
      * exists mid, [b]. split; [reflexivity|]. split.
        -- exists (List.length mid). split; [lia|].
           apply (power_class [(97, 122); (48, 57); (45, 45)]%N). split; [reflexivity|].
           rewrite <- Hf. apply forallb_ext_eq. intros x. apply in_lower_alnum_hyphen.
        -- exists b. rewrite in_lower_alnum. auto.
Qed.

Lemma is_valid_tag_grammar (t : str) : is_valid_tag t = grammar_accepts t.
Proof.
  apply eq_true_iff_eq. rewrite is_valid_tag_lang. unfold grammar_accepts.
  rewrite orb_true_iff, !andb_true_iff, !Nat.leb_le. split.
  - intros [(n & Hn & Hl & Hf) | (a & mid & b & -> & Ha & Hb & Hl & Hf)].
    + left. repeat split; trivial; lia.
    + right. rewrite last_is_alnum_snoc. simpl first_is_alnum.
      repeat split; trivial.
      * simpl. rewrite length_app. simpl. lia.
      * simpl. rewrite length_app. simpl. lia.
      * simpl. rewrite Ha. simpl. rewrite forallb_app, Hf. simpl. now rewrite Hb.
  - intros [[[H1 H2] Hf] | [[[[H1 H2] Hf] Hfirst] Hlast]].
    + left. exists (List.length t). repeat split; trivial.
    + right. destruct t as [|a t']; [discriminate|].
      destruct (exists_last (l := t')) as (mid & b & ->).
      { intros ->. simpl in H1. lia. }
      rewrite last_is_alnum_snoc in Hlast. simpl in Hfirst.
      exists a, mid, b. repeat split; trivial.
      * simpl in H2. rewrite length_app in H2. simpl in H2. lia.
      * simpl in Hf. apply andb_true_iff in Hf as [_ Hf].
        rewrite forallb_app in Hf. now apply andb_true_iff in Hf as [Hf _].
Qed.

End TagGrammarFacts.

(** ** Tables with a unique index *)

Lemma pair_eqb_eq {A B} (eqa : A -> A -> bool) (eqb : B -> B -> bool) :
  (forall a a', eqa a a' = true <-> a = a') ->
  (forall b b', eqb b b' = true <-> b = b') ->
  forall x y, pair_eqb eqa eqb x y = true <-> x = y.
Proof.
  intros Ha Hb [a b] [a' b']. unfold pair_eqb. simpl.
  rewrite andb_true_iff, Ha, Hb.
  split; [intros [-> ->]; reflexivity | intros H; now inversion H].
Qed.

Lemma str2_eqb_eq (x y : str * str) : str2_eqb x y = true <-> x = y.
Proof. apply pair_eqb_eq; apply str_eqb_eq. Qed.

Lemma nat2_eqb_eq (x y : nat * nat) : nat2_eqb x y = true <-> x = y.
Proof. apply pair_eqb_eq; apply Nat.eqb_eq. Qed.

Lemma find_none_all {A} (p : A -> bool) (l : list A) :
  (forall x, In x l -> p x = false) -> find p l = None.
Proof.
  induction l as [|a l IH]; simpl; intros H; [reflexivity|].
  rewrite (H a) by auto. apply IH. auto.
Qed.

Section TableFacts.

Variables Row K : Type.
Variable key : Row -> K.
Variable key_eqb : K -> K -> bool.
Hypothesis key_eqb_eq : forall a b, key_eqb a b = true <-> a = b.

Let has := has_key key key_eqb.
Let taken := key_taken key key_eqb.
Let unique := unique_index key key_eqb.

Lemma has_key_eq (k : K) (r : Row) : has k r = true <-> key r = k.
Proof. apply key_eqb_eq. Qed.

Lemma has_key_own (r : Row) : has (key r) r = true.
Proof. now apply has_key_eq. Qed.

Lemma key_taken_in (k : K) (rows : list Row) :
  taken k rows = true <-> exists r, In r rows /\ key r = k.
Proof.
  unfold taken, key_taken. rewrite existsb_exists.
  split; intros (r & Hin & H); exists r; split; trivial; now apply has_key_eq.
Qed.

Lemma key_free_filter (k : K) (rows : list Row) :
  taken k rows = false -> filter (has k) rows = [].
Proof.
  induction rows as [|r rows IH]; simpl; [reflexivity|].
  intros H. apply orb_false_iff in H as [H1 H2].
  fold has in H1. rewrite H1. now apply IH.
Qed.

Lemma find_none_key_free (k : K) (rows : list Row) :
  find (has k) rows = None -> taken k rows = false.
Proof.
  induction rows as [|r rows IH]; simpl; [reflexivity|].
  fold has. destruct (has k r); [discriminate|]. exact IH.
Qed.

Lemma unique_filter_one (rows : list Row) (r : Row) :
  unique rows = true -> In r rows -> filter (has (key r)) rows = [r].
Proof.
  induction rows as [|x rows IH]; simpl; [contradiction|].
  intros Hu [-> | Hin]; apply andb_true_iff in Hu as [Hfree Hu];
    apply negb_true_iff in Hfree.
  - fold has. rewrite has_key_own. f_equal. now apply key_free_filter.
  - fold has. destruct (has (key r) x) eqn:E.
    + apply has_key_eq in E.
      assert (taken (key x) rows = true) as T
          by (apply key_taken_in; exists r; auto).
      unfold taken in T. congruence.
    + now apply IH.
Qed.

Lemma unique_same_key (rows : list Row) (r r' : Row) :
  unique rows = true -> In r rows -> In r' rows -> key r' = key r -> r' = r.
Proof.
  intros Hu Hr Hr' Hk.
  assert (In r' (filter (has (key r)) rows)) as H
      by (apply filter_In; split; [trivial | now apply has_key_eq]).
  rewrite (unique_filter_one _ _ Hu Hr) in H. destruct H as [H | []]. now symmetry.
Qed.

Lemma unique_snoc (rows : list Row) (r : Row) :
  unique rows = true -> taken (key r) rows = false -> unique (rows ++ [r]) = true.
Proof.
  induction rows as [|x rows IH]; simpl; [reflexivity|].
  intros Hu Hfree. apply andb_true_iff in Hu as [Hx Hu].
  apply orb_false_iff in Hfree as [Hxr Hfree].
  apply andb_true_iff. split; [|now apply IH].
  apply negb_true_iff. apply negb_true_iff in Hx.
  unfold key_taken in *. rewrite existsb_app, Hx. simpl.
  rewrite orb_false_r. fold has.
  destruct (has (key x) r) eqn:E; [|reflexivity].
  apply has_key_eq in E. fold has in Hxr.
  assert (has (key r) x = true) by (now apply has_key_eq). congruence.
Qed.

Lemma key_taken_filter (p : Row -> bool) (k : K) (rows : list Row) :
  taken k rows = false -> taken k (filter p rows) = false.
Proof.
  induction rows as [|x rows IH]; simpl; [reflexivity|].
  intros H. apply orb_false_iff in H as [H1 H2].
  destruct (p x); simpl; [rewrite H1|]; now apply IH.
Qed.

Lemma unique_filter (p : Row -> bool) (rows : list Row) :
  unique rows = true -> unique (filter p rows) = true.
Proof.
  induction rows as [|x rows IH]; simpl; [reflexivity|].
  intros Hu. apply andb_true_iff in Hu as [Hx Hu].
  destruct (p x); simpl; [|now apply IH].
  apply andb_true_iff. split; [|now apply IH].
  apply negb_true_iff. apply negb_true_iff in Hx. now apply key_taken_filter.
Qed.

(** Create-if-absent on the rows of one table: afterwards the index still
    holds and exactly one row carries the key. *)
Lemma create_if_absent_rows (rows : list Row) (k : K) (fresh : Row) :
  unique rows = true -> key fresh = k ->
  forall rows',
    rows' = match find (has k) rows with
            | Some _ => rows
            | None => rows ++ [fresh]
            end ->
    unique rows' = true /\
    exists r, filter (has k) rows' = [r] /\ In r rows' /\ key r = k
              /\ find (has k) rows' = Some r.
Proof.
  intros Hu Hk rows' ->. destruct (find (has k) rows) as [r|] eqn:F.
  - split; [exact Hu|]. exists r.
    destruct (find_some _ _ F) as [Hin Hhas]. apply has_key_eq in Hhas.
    clear Hk. subst k. repeat split; trivial. now apply unique_filter_one.
  - pose proof (find_none_key_free _ _ F) as Hfree. subst k.
    split; [now apply unique_snoc|]. exists fresh.
    rewrite filter_app, (key_free_filter _ _ Hfree). simpl.
    fold has. rewrite has_key_own. repeat split.
    + apply in_or_app. right. now left.
    + clear Hu Hfree. induction rows as [|x rows IH]; simpl in *.
      * fold has. now rewrite has_key_own.
      * fold has in F |- *. destruct (has (key fresh) x); [discriminate|]. now apply IH.
Qed.

End TableFacts.

(** ** Round trips and create-if-absent *)

Lemma no_outage_next (w : World) : outages w = [] -> next_fails w = false.
Proof. unfold next_fails. now intros ->. Qed.

(** Closes a goal whose context has the store both answering and failing. *)
Ltac store_answers :=
  match goal with
  | Hall : outages ?w = [], Hfail : next_fails ?w = true |- _ =>
      rewrite (no_outage_next w Hall) in Hfail; discriminate
  | Hok : next_fails ?w = false, Hfail : next_fails ?w = true |- _ =>
      rewrite Hok in Hfail; discriminate
  end.

Lemma round_trip_cases (e : exn) (w : World) :
  (next_fails w = true /\
   exists w1, round_trip e w = (Raise e, w1)
              /\ db w1 = db w /\ objects w1 = objects w /\ trace w1 = trace w)
  \/ (next_fails w = false /\
      exists w1, round_trip e w = (Return tt, w1)
                 /\ db w1 = db w /\ objects w1 = objects w /\ trace w1 = trace w
                 /\ (outages w = [] -> w1 = w)).
Proof.
  unfold round_trip, next_fails. destruct (outages w) as [|[|] rest] eqn:E; simpl.
  - right. split; [reflexivity|]. exists w. repeat split.
  - left. split; [reflexivity|]. eexists. repeat split.
  - right. split; [reflexivity|]. eexists. repeat split. discriminate.
Qed.

Module LedgerFacts.

Import crud.

(** What one [get_or_create] does, in terms of its select and its create. *)
Lemma get_or_create_cases {Row} (query : Db -> option Row) (create : M Row)
      (w : World) :
  (next_fails w = true /\
   exists w1, get_or_create query create w = (Raise OperationalError, w1)
              /\ db w1 = db w /\ objects w1 = objects w /\ trace w1 = trace w)
  \/ (next_fails w = false /\
      exists w1,
        db w1 = db w /\ objects w1 = objects w /\ trace w1 = trace w
        /\ (outages w = [] -> w1 = w)
        /\ get_or_create query create w =
           match query (db w) with
           | Some row => (Return (row, false), w1)
           | None =>
               match create w1 with
               | (Return row, w2) => (Return (row, true), w2)
               | (Raise IntegrityError, w2) =>
                   match query (db w2) with
                   | Some row => (Return (row, false), w2)
                   | None => (Raise IntegrityError, w2)
                   end
               | (Raise e, w2) => (Raise e, w2)
               end
           end).
Proof.
  unfold get_or_create, bind.
  destruct (round_trip_cases OperationalError w)
    as [(H0 & w1 & -> & Hdb & Hobj & Htr) | (Hn0 & w1 & -> & Hdb & Hobj & Htr & Hsame)].
  - left. split; [exact H0|]. exists w1. auto.
  - right. split; [exact Hn0|]. exists w1. repeat split; trivial.
    rewrite Hdb. destruct (query (db w)); [reflexivity|].
    unfold try_except, ret.
    destruct (create w1) as [[row|e] w2]; [reflexivity|].
    destruct e; reflexivity.
Qed.

(** The Result step: a store failure or a refused insert changes nothing;
    a found row changes nothing; a created row is appended. *)
Lemma Result_step (client_id object_id filename : str) (w w' : World)
      (out : outcome (ResultRow * bool)) :
  Result_get_or_create client_id object_id filename w = (out, w') ->
  objects w' = objects w
  /\ tags (db w') = tags (db w)
  /\ tagged_results (db w') = tagged_results (db w)
  /\ (outages w = [] -> outages w' = [])
  /\ match out with
     | Raise e =>
         db w' = db w /\ trace w' = trace w
         /\ ((e = OperationalError /\ next_fails w = true)
             \/ (e = IntegrityError
                 /\ Result_select client_id object_id filename (db w) = None
                 /\ result_key_taken (db w) client_id object_id = true))
     | Return (r, true) =>
         next_fails w = false
         /\ Result_select client_id object_id filename (db w) = None
         /\ result_key_taken (db w) client_id object_id = false
         /\ r = mkResult (result_seq (db w)) client_id object_id filename
         /\ results (db w') = results (db w) ++ [r]
         /\ trace w' = trace w ++ [InsertResult r]
     | Return (r, false) =>
         next_fails w = false
         /\ Result_select client_id object_id filename (db w) = Some r
         /\ db w' = db w /\ trace w' = trace w
     end.
Proof.
  unfold Result_get_or_create. intros Hrun.
  destruct (get_or_create_cases (Result_select client_id object_id filename)
              (Result_create client_id object_id filename) w)
    as [(H0 & w1 & E & Hdb & Hobj & Htr) | (Hn0 & w1 & Hdb & Hobj & Htr & Hsame & E)];
    rewrite E in Hrun; clear E.
  - injection Hrun as <- <-. rewrite Hdb.
    repeat split; trivial; try (intros; store_answers).
    left. auto.
  - assert (outages w = [] -> outages w1 = []) as Hrt
        by (intros H; now rewrite (Hsame H)).
    destruct (Result_select client_id object_id filename (db w)) as [r|] eqn:Q.
    + injection Hrun as <- <-. rewrite Hdb. repeat split; trivial.
    + unfold Result_create in Hrun. rewrite Hdb in Hrun.
      destruct (result_key_taken (db w) client_id object_id) eqn:T.
      * rewrite Hdb, Q in Hrun. injection Hrun as <- <-. rewrite Hdb.
        repeat split; trivial. right. auto.
      * injection Hrun as <- <-. simpl. rewrite Htr. repeat split; trivial.
Qed.

Lemma Tag_step (name project_id : str) (w w' : World)
      (out : outcome (TagRow * bool)) :
  Tag_get_or_create name project_id w = (out, w') ->
  objects w' = objects w
  /\ results (db w') = results (db w)
  /\ tagged_results (db w') = tagged_results (db w)
  /\ (outages w = [] -> outages w' = [])
  /\ match out with
     | Raise e =>
         db w' = db w /\ trace w' = trace w
         /\ e = OperationalError /\ next_fails w = true
     | Return (t, true) =>
         next_fails w = false
         /\ Tag_select name project_id (db w) = None
         /\ t = mkTag (tag_seq (db w)) name project_id
         /\ tags (db w') = tags (db w) ++ [t]
         /\ trace w' = trace w ++ [InsertTag t]
     | Return (t, false) =>
         next_fails w = false
         /\ Tag_select name project_id (db w) = Some t
         /\ db w' = db w /\ trace w' = trace w
     end.
Proof.
  unfold Tag_get_or_create. intros Hrun.
  destruct (get_or_create_cases (Tag_select name project_id)
              (Tag_create name project_id) w)
    as [(H0 & w1 & E & Hdb & Hobj & Htr) | (Hn0 & w1 & Hdb & Hobj & Htr & Hsame & E)];
    rewrite E in Hrun; clear E.
  - injection Hrun as <- <-. rewrite Hdb.
    repeat split; trivial; intros; store_answers.
  - assert (outages w = [] -> outages w1 = []) as Hrt
        by (intros H; now rewrite (Hsame H)).
    destruct (Tag_select name project_id (db w)) as [t|] eqn:Q.
    + injection Hrun as <- <-. rewrite Hdb. repeat split; trivial.
    + unfold Tag_create, tag_key_taken in Hrun. rewrite Hdb in Hrun.
      unfold Tag_select in Q. rewrite (find_none_key_free _ _ _ _ Q) in Hrun.
      injection Hrun as <- <-. simpl. rewrite Htr. repeat split; trivial.
Qed.

Lemma TaggedResult_step (t : TagRow) (r : ResultRow) (w w' : World)
      (out : outcome (TaggedResultRow * bool)) :
  TaggedResult_get_or_create t r w = (out, w') ->
  objects w' = objects w
  /\ results (db w') = results (db w)
  /\ tags (db w') = tags (db w)
  /\ (outages w = [] -> outages w' = [])
  /\ match out with
     | Raise e =>
         db w' = db w /\ trace w' = trace w
         /\ e = OperationalError /\ next_fails w = true
     | Return (l, true) =>
         next_fails w = false
         /\ TaggedResult_select (tag_id t) (result_id r) (db w) = None
         /\ l = mkTaggedResult (tagged_result_seq (db w)) (tag_id t) (result_id r)
         /\ tagged_results (db w') = tagged_results (db w) ++ [l]
         /\ trace w' = trace w ++ [InsertTaggedResult l]
     | Return (l, false) =>
         next_fails w = false
         /\ TaggedResult_select (tag_id t) (result_id r) (db w) = Some l
         /\ db w' = db w /\ trace w' = trace w
     end.
Proof.
  unfold TaggedResult_get_or_create. intros Hrun.
  destruct (get_or_create_cases (TaggedResult_select (tag_id t) (result_id r))
              (TaggedResult_create (tag_id t) (result_id r)) w)
    as [(H0 & w1 & E & Hdb & Hobj & Htr) | (Hn0 & w1 & Hdb & Hobj & Htr & Hsame & E)];
    rewrite E in Hrun; clear E.
  - injection Hrun as <- <-. rewrite Hdb.
    repeat split; trivial; intros; store_answers.
  - assert (outages w = [] -> outages w1 = []) as Hrt
        by (intros H; now rewrite (Hsame H)).
    destruct (TaggedResult_select (tag_id t) (result_id r) (db w)) as [l|] eqn:Q.
    + injection Hrun as <- <-. rewrite Hdb. repeat split; trivial.
    + unfold TaggedResult_create, link_key_taken in Hrun. rewrite Hdb in Hrun.
      unfold TaggedResult_select in Q. rewrite (find_none_key_free _ _ _ _ Q) in Hrun.
      injection Hrun as <- <-. simpl. rewrite Htr. repeat split; trivial.
Qed.

(** With the unique index in force, the select on a key finds the row
    that carries it. *)
Lemma find_unique {Row K} (key : Row -> K) (key_eqb : K -> K -> bool)
      (p : Row -> bool) (rows : list Row) (r : Row) :
  (forall a b, key_eqb a b = true <-> a = b) ->
  unique_index key key_eqb rows = true ->
  In r rows -> p r = true ->
  (forall x, p x = true -> key x = key r) ->
  find p rows = Some r.
Proof.
  intros Heq Hu Hin Hp Hkey. destruct (find p rows) as [x|] eqn:F.
  - destruct (find_some _ _ F) as [Hx Hpx].
    f_equal. apply (unique_same_key key key_eqb Heq rows r x Hu Hin Hx). auto.
  - pose proof (find_none _ _ F r Hin). congruence.
Qed.

(** The Result step when the stores answer and no row of another filename
    holds the key: it returns the one row for the key. *)
Lemma Result_step_ok (client_id object_id filename : str) (w : World) :
  outages w = [] ->
  unique_index result_key str2_eqb (results (db w)) = true ->
  (forall r, In r (results (db w)) -> result_key r = (client_id, object_id) ->
             result_filename r = filename) ->
  exists r created w1,
    Result_get_or_create client_id object_id filename w = (Return (r, created), w1)
    /\ outages w1 = []
    /\ objects w1 = objects w
    /\ tags (db w1) = tags (db w)
    /\ tagged_results (db w1) = tagged_results (db w)
    /\ unique_index result_key str2_eqb (results (db w1)) = true
    /\ In r (results (db w1))
    /\ result_key r = (client_id, object_id)
    /\ result_filename r = filename.
Proof.
  intros Hrt Hu Hsame.
  destruct (Result_get_or_create client_id object_id filename w)
    as [[[r created]|e] w1] eqn:E;
    apply Result_step in E as (Hobj & Htags & Hlinks & Hrt' & H).
  - exists r, created, w1. split; [reflexivity|].
    destruct created.
    + destruct H as (_ & Hsel & Hfree & Hr & Hres & _).
      rewrite Hres. repeat split; auto.
      * apply (unique_snoc result_key str2_eqb str2_eqb_eq); trivial.
        subst r. exact Hfree.
      * apply in_or_app. right. now left.
      * now subst r.
      * now subst r.
    + destruct H as (_ & Hsel & Hdb & _). rewrite Hdb.
      destruct (find_some _ _ Hsel) as [Hin Hp].
      apply andb_true_iff in Hp as [Hk Hf].
      apply (has_key_eq result_key str2_eqb str2_eqb_eq) in Hk.
      apply str_eqb_eq in Hf. repeat split; auto.
  - exfalso. destruct H as (_ & _ & [[_ H0] | (_ & Hsel & Htaken)]); [store_answers|].
    apply (key_taken_in result_key str2_eqb str2_eqb_eq) in Htaken
      as (r & Hin & Hk).
    pose proof (find_none _ _ Hsel r Hin) as Hp. simpl in Hp.
    apply andb_false_iff in Hp as [Hp | Hp].
    + assert (has_key result_key str2_eqb (client_id, object_id) r = true)
        by (now apply (has_key_eq result_key str2_eqb str2_eqb_eq)).
      congruence.
    + rewrite (Hsame r Hin Hk), str_eqb_refl in Hp. discriminate.
Qed.

Lemma Tag_step_ok (name project_id : str) (w : World) :
  outages w = [] ->
  unique_index tag_key str2_eqb (tags (db w)) = true ->
  exists t created w1,
    Tag_get_or_create name project_id w = (Return (t, created), w1)
    /\ outages w1 = []
    /\ objects w1 = objects w
    /\ results (db w1) = results (db w)
    /\ tagged_results (db w1) = tagged_results (db w)
    /\ unique_index tag_key str2_eqb (tags (db w1)) = true
    /\ In t (tags (db w1))
    /\ tag_key t = (name, project_id).
Proof.
  intros Hrt Hu.
  destruct (Tag_get_or_create name project_id w) as [[[t created]|e] w1] eqn:E;
    apply Tag_step in E as (Hobj & Hres & Hlinks & Hrt' & H).
  - exists t, created, w1. split; [reflexivity|].
    destruct created.
    + destruct H as (_ & Hsel & Ht & Htags & _). rewrite Htags.
      repeat split; auto.
      * apply (unique_snoc tag_key str2_eqb str2_eqb_eq); trivial.
        subst t. apply find_none_key_free. exact Hsel.
      * apply in_or_app. right. now left.
      * now subst t.
    + destruct H as (_ & Hsel & Hdb & _). rewrite Hdb.
      destruct (find_some _ _ Hsel) as [Hin Hk].
      apply (has_key_eq tag_key str2_eqb str2_eqb_eq) in Hk. repeat split; auto.
  - destruct H as (_ & _ & _ & H0). store_answers.
Qed.

Lemma TaggedResult_step_ok (t : TagRow) (r : ResultRow) (w : World) :
  outages w = [] ->
  unique_index link_key nat2_eqb (tagged_results (db w)) = true ->
  exists l created w1,
    TaggedResult_get_or_create t r w = (Return (l, created), w1)
    /\ outages w1 = []
    /\ objects w1 = objects w
    /\ results (db w1) = results (db w)
    /\ tags (db w1) = tags (db w)
    /\ unique_index link_key nat2_eqb (tagged_results (db w1)) = true
    /\ In l (tagged_results (db w1))
    /\ link_key l = (tag_id t, result_id r).
Proof.
  intros Hrt Hu.
  destruct (TaggedResult_get_or_create t r w) as [[[l created]|e] w1] eqn:E;
    apply TaggedResult_step in E as (Hobj & Hres & Htags & Hrt' & H).
  - exists l, created, w1. split; [reflexivity|].
    destruct created.
    + destruct H as (_ & Hsel & Hl & Hlinks & _). rewrite Hlinks.
      repeat split; auto.
      * apply (unique_snoc link_key nat2_eqb nat2_eqb_eq); trivial.
        subst l. apply find_none_key_free. exact Hsel.
      * apply in_or_app. right. now left.
      * now subst l.
    + destruct H as (_ & Hsel & Hdb & _). rewrite Hdb.
      destruct (find_some _ _ Hsel) as [Hin Hk].
      apply (has_key_eq link_key nat2_eqb nat2_eqb_eq) in Hk. repeat split; auto.
  - destruct H as (_ & _ & _ & H0). store_answers.
Qed.

(** The steps when the row is already there: nothing is written. *)
Lemma Result_step_found (w : World) (r : ResultRow) :
  outages w = [] ->
  unique_index result_key str2_eqb (results (db w)) = true ->
  In r (results (db w)) ->
  exists w1,
    Result_get_or_create (result_client_id r) (result_object_id r)
                         (result_filename r) w = (Return (r, false), w1)
    /\ outages w1 = [] /\ db w1 = db w /\ trace w1 = trace w
    /\ objects w1 = objects w.
Proof.
  intros Hrt Hu Hin.
  assert (Result_select (result_client_id r) (result_object_id r)
                        (result_filename r) (db w) = Some r) as Hsel.
  { apply (find_unique result_key str2_eqb _ _ _ str2_eqb_eq Hu Hin).
    - apply andb_true_iff. split; [|apply str_eqb_refl].
      now apply (has_key_eq result_key str2_eqb str2_eqb_eq).
    - intros x Hx. apply andb_true_iff in Hx as [Hx _].
      now apply (has_key_eq result_key str2_eqb str2_eqb_eq) in Hx. }
  destruct (Result_get_or_create (result_client_id r) (result_object_id r)
              (result_filename r) w) as [[[r' created]|e] w1] eqn:E;
    apply Result_step in E as (Hobj & Htags & Hlinks & Hrt' & H).
  - destruct created.
    + destruct H as (_ & Hnone & _). congruence.
    + destruct H as (_ & Hsome & Hdb & Htr).
      exists w1. assert (r' = r) as -> by congruence. auto.
  - destruct H as (_ & _ & [[_ H0] | (_ & Hnone & _)]); [store_answers | congruence].
Qed.

Lemma Tag_step_found (w : World) (t : TagRow) :
  outages w = [] ->
  unique_index tag_key str2_eqb (tags (db w)) = true ->
  In t (tags (db w)) ->
  exists w1,
    Tag_get_or_create (tag_name t) (tag_project_id t) w = (Return (t, false), w1)
    /\ outages w1 = [] /\ db w1 = db w /\ trace w1 = trace w
    /\ objects w1 = objects w.
Proof.
  intros Hrt Hu Hin.
  assert (Tag_select (tag_name t) (tag_project_id t) (db w) = Some t) as Hsel.
  { apply (find_unique tag_key str2_eqb _ _ _ str2_eqb_eq Hu Hin).
    - now apply (has_key_eq tag_key str2_eqb str2_eqb_eq).
    - intros x Hx. now apply (has_key_eq tag_key str2_eqb str2_eqb_eq) in Hx. }
  destruct (Tag_get_or_create (tag_name t) (tag_project_id t) w)
    as [[[t' created]|e] w1] eqn:E;
    apply Tag_step in E as (Hobj & Hres & Hlinks & Hrt' & H).
  - destruct created.
    + destruct H as (_ & Hnone & _). congruence.
    + destruct H as (_ & Hsome & Hdb & Htr).
      exists w1. assert (t' = t) as -> by congruence. auto.
  - destruct H as (_ & _ & _ & H0). store_answers.
Qed.

Lemma TaggedResult_step_found (w : World) (t : TagRow) (r : ResultRow)
      (l : TaggedResultRow) :
  outages w = [] ->
  unique_index link_key nat2_eqb (tagged_results (db w)) = true ->
  In l (tagged_results (db w)) ->
  link_key l = (tag_id t, result_id r) ->
  exists w1,
    TaggedResult_get_or_create t r w = (Return (l, false), w1)
    /\ outages w1 = [] /\ db w1 = db w /\ trace w1 = trace w
    /\ objects w1 = objects w.
Proof.
  intros Hrt Hu Hin Hk.
  assert (TaggedResult_select (tag_id t) (result_id r) (db w) = Some l) as Hsel.
  { apply (find_unique link_key nat2_eqb _ _ _ nat2_eqb_eq Hu Hin).
    - now apply (has_key_eq link_key nat2_eqb nat2_eqb_eq).
    - intros x Hx. apply (has_key_eq link_key nat2_eqb nat2_eqb_eq) in Hx.
      congruence. }
  destruct (TaggedResult_get_or_create t r w) as [[[l' created]|e] w1] eqn:E;
    apply TaggedResult_step in E as (Hobj & Hres & Htags & Hrt' & H).
  - destruct created.
    + destruct H as (_ & Hnone & _). congruence.
    + destruct H as (_ & Hsome & Hdb & Htr).
      exists w1. assert (l' = l) as -> by congruence. auto.
  - destruct H as (_ & _ & _ & H0). store_answers.
Qed.

End LedgerFacts.

(** ** [tag_object] *)

Module TagObjectFacts.

Import TagGrammar crud local LedgerFacts.

Lemma constraints_hold_parts (d : Db) :
  constraints_hold d = true <->
  unique_index result_key str2_eqb (results d) = true
  /\ unique_index tag_key str2_eqb (tags d) = true
  /\ unique_index link_key nat2_eqb (tagged_results d) = true.
Proof. unfold constraints_hold. rewrite !andb_true_iff. tauto. Qed.

Lemma result_key_taken_in (d : Db) (r : ResultRow) :
  In r (results d) ->
  result_key_taken d (result_client_id r) (result_object_id r) = true.
Proof.
  intros Hin. apply (key_taken_in result_key _ str2_eqb_eq). exists r. auto.
Qed.

(** With the unique index in force, a row of another filename rules out a
    match of the select on (client_id, object_id, filename). *)
Lemma Result_select_conflict (d : Db) (r : ResultRow) (filename : str) :
  unique_index result_key str2_eqb (results d) = true ->
  In r (results d) -> result_filename r <> filename ->
  Result_select (result_client_id r) (result_object_id r) filename d = None.
Proof.
  intros Hu Hin Hne. apply find_none_all. intros r' Hin'.
  destruct (has_key result_key str2_eqb _ r') eqn:Hk; [|reflexivity]. simpl.
  apply (has_key_eq result_key _ str2_eqb_eq) in Hk.
  assert (r' = r) as ->
      by (apply (unique_same_key result_key _ str2_eqb_eq _ _ _ Hu Hin Hin' Hk)).
  now apply str_eqb_neq.
Qed.

(** An invalid tag is refused before any store is touched. *)
Lemma tag_object_invalid (tag project_id client_id object_id : str)
      (filename : option str) (w : World) :
  is_valid_tag tag = false ->
  tag_object tag project_id client_id object_id filename w
  = (Raise (HTTPException HTTP_400_BAD_REQUEST (InvalidTagName tag)), w).
Proof. intros H. unfold tag_object. now rewrite H. Qed.

(** A valid tag: the three create-if-absent steps in sequence, the
    [IntegrityError] of the first turned into the filename conflict; a step
    that raises ends the transaction, and the ledger is as before the
    call. *)
Lemma tag_object_valid (tag project_id client_id object_id : str)
      (filename : option str) (w : World) :
  is_valid_tag tag = true ->
  tag_object tag project_id client_id object_id filename w =
  match Result_get_or_create client_id object_id (str_or filename data_bin) w with
  | (Return result, w1) =>
      match Tag_get_or_create tag project_id w1 with
      | (Return tag_row, w2) =>
          match TaggedResult_get_or_create (fst tag_row) (fst result) w2 with
          | (Return _, w3) => (Return tt, w3)
          | (Raise e, w3) => (Raise e, with_db w3 (db w))
          end
      | (Raise e, w2) => (Raise e, with_db w2 (db w))
      end
  | (Raise IntegrityError, w1) =>
      (Raise (HTTPException HTTP_400_BAD_REQUEST
                (FilenameConflict object_id client_id (str_or filename data_bin))),
       with_db w1 (db w))
  | (Raise e, w1) => (Raise e, with_db w1 (db w))
  end.
Proof.
  intros H. unfold tag_object. rewrite H. change (negb true) with false.
  cbv iota. unfold bind_to, bind, try_except, raise, ret. cbv beta.
  destruct (Result_get_or_create client_id object_id (str_or filename data_bin) w)
    as [[result|e] w1].
  - destruct (Tag_get_or_create tag project_id w1) as [[tag_row|e] w2]; [|reflexivity].
    destruct (TaggedResult_get_or_create (fst tag_row) (fst result) w2)
      as [[l|e] w3]; reflexivity.
  - destruct e; reflexivity.
Qed.

(** A row of another filename on the key: the call fails and writes
    nothing; the failure is the conflict unless the store did not answer. *)
Lemma tag_object_conflict (tag project_id : str) (filename : option str)
      (w : World) (existing : ResultRow) :
  is_valid_tag tag = true ->
  unique_index result_key str2_eqb (results (db w)) = true ->
  In existing (results (db w)) ->
  result_filename existing <> str_or filename data_bin ->
  exists e w1,
    tag_object tag project_id (result_client_id existing) (result_object_id existing)
               filename w = (Raise e, w1)
    /\ db w1 = db w /\ objects w1 = objects w /\ trace w1 = trace w
    /\ (outages w = [] -> outages w1 = [])
    /\ (next_fails w = false ->
        e = HTTPException HTTP_400_BAD_REQUEST
              (FilenameConflict (result_object_id existing)
                                (result_client_id existing)
                                (str_or filename data_bin))).
Proof.
  intros Hvalid Hu Hin Hne.
  rewrite (@tag_object_valid tag project_id (result_client_id existing)
             (result_object_id existing) filename w Hvalid).
  pose proof (Result_select_conflict _ _ Hu Hin Hne) as Hsel.
  pose proof (result_key_taken_in _ _ Hin) as Htaken.
  destruct (Result_get_or_create (result_client_id existing)
              (result_object_id existing) (str_or filename data_bin) w)
    as [[[r created]|e] w1] eqn:E;
    apply Result_step in E as (Hobj & Htags & Hlinks & Hrt' & H).
  - destruct created.
    + destruct H as (_ & _ & Hfree & _). congruence.
    + destruct H as (_ & Hfound & _). congruence.
  - destruct H as (Hdb & Htr & [[-> H0] | [-> _]]).
    + exists OperationalError, (with_db w1 (db w)). repeat split; trivial.
      intros Hn0. store_answers.
    + eexists _, (with_db w1 (db w)). repeat split; trivial.
Qed.

(** A call that the stores answer and that meets no filename conflict
    succeeds and leaves the three rows in place. *)
Lemma tag_object_ok (tag project_id client_id object_id : str)
      (filename : option str) (w : World) :
  is_valid_tag tag = true ->
  constraints_hold (db w) = true ->
  outages w = [] ->
  (forall r, In r (results (db w)) -> result_key r = (client_id, object_id) ->
             result_filename r = str_or filename data_bin) ->
  exists w' r t l,
    tag_object tag project_id client_id object_id filename w = (Return tt, w')
    /\ outages w' = []
    /\ constraints_hold (db w') = true
    /\ objects w' = objects w
    /\ In r (results (db w')) /\ result_key r = (client_id, object_id)
    /\ result_filename r = str_or filename data_bin
    /\ In t (tags (db w')) /\ tag_key t = (tag, project_id)
    /\ In l (tagged_results (db w')) /\ link_key l = (tag_id t, result_id r).
Proof.
  intros Hvalid Hc Hrt Hsame.
  apply constraints_hold_parts in Hc as (Hur & Hut & Hul).
  rewrite (@tag_object_valid tag project_id client_id object_id filename w Hvalid).
  destruct (@Result_step_ok client_id object_id (str_or filename data_bin) w Hrt Hur Hsame)
    as (r & b1 & w1 & -> & Hrt1 & Ho1 & Ht1 & Hl1 & Hur1 & Hr & Hrk & Hrf).
  rewrite <- Ht1 in Hut. rewrite <- Hl1 in Hul.
  destruct (@Tag_step_ok tag project_id w1 Hrt1 Hut)
    as (t & b2 & w2 & -> & Hrt2 & Ho2 & Hr2 & Hl2 & Hut2 & Ht & Htk).
  rewrite <- Hl2 in Hul. rewrite <- Hr2 in Hur1, Hr.
  destruct (@TaggedResult_step_ok t r w2 Hrt2 Hul)
    as (l & b3 & w3 & E3 & Hrt3 & Ho3 & Hr3 & Ht3 & Hul3 & Hl & Hlk).
  simpl fst. rewrite E3.
  exists w3, r, t, l. rewrite <- Hr3 in Hur1, Hr. rewrite <- Ht3 in Hut2, Ht.
  repeat split; trivial.
  - apply constraints_hold_parts. auto.
  - congruence.
Qed.

(** A call that finds its three rows writes nothing. *)
Lemma tag_object_noop (tag project_id client_id object_id : str)
      (filename : option str) (w : World)
      (r : ResultRow) (t : TagRow) (l : TaggedResultRow) :
  is_valid_tag tag = true ->
  constraints_hold (db w) = true ->
  outages w = [] ->
  In r (results (db w)) -> result_key r = (client_id, object_id) ->
  result_filename r = str_or filename data_bin ->
  In t (tags (db w)) -> tag_key t = (tag, project_id) ->
  In l (tagged_results (db w)) -> link_key l = (tag_id t, result_id r) ->
  exists w',
    tag_object tag project_id client_id object_id filename w = (Return tt, w')
    /\ db w' = db w /\ trace w' = trace w /\ objects w' = objects w.
Proof.
  intros Hvalid Hc Hrt Hr Hrk Hrf Ht Htk Hl Hlk.
  apply constraints_hold_parts in Hc as (Hur & Hut & Hul).
  rewrite (@tag_object_valid tag project_id client_id object_id filename w Hvalid).
  unfold result_key in Hrk. injection Hrk as <- <-. rewrite <- Hrf.
  unfold tag_key in Htk. injection Htk as <- <-.
  destruct (@Result_step_found w r Hrt Hur Hr) as (w1 & -> & Hrt1 & Hdb1 & Htr1 & Ho1).
  rewrite <- Hdb1 in Hut, Ht, Hul, Hl.
  destruct (@Tag_step_found w1 t Hrt1 Hut Ht) as (w2 & -> & Hrt2 & Hdb2 & Htr2 & Ho2).
  rewrite <- Hdb2 in Hul, Hl. simpl fst.
  destruct (@TaggedResult_step_found w2 t r l Hrt2 Hul Hl Hlk)
    as (w3 & -> & Hrt3 & Hdb3 & Htr3 & Ho3).
  exists w3. repeat split; congruence.
Qed.

(** The rows a run of [tag_object] that returned has left in the ledger:
    the Result with the effective filename, the Tag, and the link between
    them.  It holds whatever the ledger held before. *)
Lemma tag_object_returned (tag project_id client_id object_id : str)
      (filename : option str) (w w' : World) :
  tag_object tag project_id client_id object_id filename w = (Return tt, w') ->
  is_valid_tag tag = true
  /\ exists r t l,
      In r (results (db w')) /\ In t (tags (db w')) /\ In l (tagged_results (db w'))
      /\ result_client_id r = client_id /\ result_object_id r = object_id
      /\ result_filename r = str_or filename data_bin
      /\ tag_name t = tag /\ tag_project_id t = project_id
      /\ link_tag l = tag_id t /\ link_result l = result_id r.
Proof.
  intros Hrun.
  destruct (is_valid_tag tag) eqn:Hvalid.
  2:{ rewrite (@tag_object_invalid tag project_id client_id object_id
                 filename w Hvalid) in Hrun. discriminate. }
  split; [reflexivity|].
  rewrite (@tag_object_valid tag project_id client_id object_id
             filename w Hvalid) in Hrun.
  destruct (Result_get_or_create client_id object_id (str_or filename data_bin) w)
    as [[[r rc]|e] w1] eqn:E1.
  2:{ destruct e; discriminate. }
  destruct (Tag_get_or_create tag project_id w1) as [[[t tc]|e] w2] eqn:E2;
    [|discriminate].
  simpl in Hrun.
  destruct (TaggedResult_get_or_create t r w2) as [[[l lc]|e] w3] eqn:E3;
    [|discriminate].
  inversion Hrun; subst w3.
  destruct (@Result_step _ _ _ _ _ _ E1) as (_ & _ & _ & _ & H1).
  destruct (@Tag_step _ _ _ _ _ E2) as (_ & Hres2 & _ & _ & H2).
  destruct (@TaggedResult_step _ _ _ _ _ E3) as (_ & Hres3 & Htags3 & _ & H3).
  assert (Hr : In r (results (db w1)) /\ result_client_id r = client_id
               /\ result_object_id r = object_id
               /\ result_filename r = str_or filename data_bin).
  { destruct rc.
    - destruct H1 as (_ & _ & _ & -> & Hres & _). rewrite Hres.
      split; [apply in_or_app; right; now left | auto].
    - destruct H1 as (_ & Hsel & Hdb & _). unfold Result_select in Hsel.
      apply find_some in Hsel. destruct Hsel as (Hin & Hp).
      apply andb_true_iff in Hp. destruct Hp as (Hk & Hf).
      apply (has_key_eq result_key _ str2_eqb_eq) in Hk. apply str_eqb_eq in Hf.
      unfold result_key in Hk. inversion Hk. rewrite Hdb. auto. }
  assert (Ht : In t (tags (db w2)) /\ tag_name t = tag /\ tag_project_id t = project_id).
  { destruct tc.
    - destruct H2 as (_ & _ & -> & Htags & _). rewrite Htags.
      split; [apply in_or_app; right; now left | auto].
    - destruct H2 as (_ & Hsel & Hdb & _). unfold Tag_select in Hsel.
      apply find_some in Hsel. destruct Hsel as (Hin & Hk).
      apply (has_key_eq tag_key _ str2_eqb_eq) in Hk.
      unfold tag_key in Hk. inversion Hk. rewrite Hdb. auto. }
  assert (Hl : In l (tagged_results (db w')) /\ link_tag l = tag_id t
               /\ link_result l = result_id r).
  { destruct lc.
    - destruct H3 as (_ & _ & -> & Hlinks & _). rewrite Hlinks.
      split; [apply in_or_app; right; now left | auto].
    - destruct H3 as (_ & Hsel & Hdb & _). unfold TaggedResult_select in Hsel.
      apply find_some in Hsel. destruct Hsel as (Hin & Hk).
      apply (has_key_eq link_key _ nat2_eqb_eq) in Hk.
      unfold link_key in Hk. inversion Hk. rewrite Hdb. auto. }
  exists r, t, l. rewrite Hres3, Hres2, Htags3. tauto.
Qed.

End TagObjectFacts.

(** ** The unique indices are an invariant of the handlers *)

Module Invariant.

Import crud local LedgerFacts TagObjectFacts.

Lemma empty_db_constraints : constraints_hold empty_db = true.
Proof. reflexivity. Qed.

Lemma Result_step_keeps (client_id object_id filename : str) (w w' : World)
      (out : outcome (ResultRow * bool)) :
  Result_get_or_create client_id object_id filename w = (out, w') ->
  constraints_hold (db w) = true -> constraints_hold (db w') = true.
Proof.
  intros E Hc. apply constraints_hold_parts in Hc as (Hur & Hut & Hul).
  apply Result_step in E as (_ & Ht & Hl & _ & H).
  apply constraints_hold_parts. rewrite Ht, Hl.
  destruct out as [[r [|]]|e].
  - destruct H as (_ & _ & Hfree & -> & -> & _). repeat split; trivial.
    now apply (unique_snoc result_key str2_eqb str2_eqb_eq).
  - destruct H as (_ & _ & -> & _). auto.
  - destruct H as (-> & _). auto.
Qed.

Lemma Tag_step_keeps (name project_id : str) (w w' : World)
      (out : outcome (TagRow * bool)) :
  Tag_get_or_create name project_id w = (out, w') ->
  constraints_hold (db w) = true -> constraints_hold (db w') = true.
Proof.
  intros E Hc. apply constraints_hold_parts in Hc as (Hur & Hut & Hul).
  apply Tag_step in E as (_ & Hr & Hl & _ & H).
  apply constraints_hold_parts. rewrite Hr, Hl.
  destruct out as [[t [|]]|e].
  - destruct H as (_ & Hsel & -> & -> & _). repeat split; trivial.
    apply (unique_snoc tag_key str2_eqb str2_eqb_eq); trivial.
    apply find_none_key_free. exact Hsel.
  - destruct H as (_ & _ & -> & _). auto.
  - destruct H as (-> & _). auto.
Qed.

Lemma TaggedResult_step_keeps (t : TagRow) (r : ResultRow) (w w' : World)
      (out : outcome (TaggedResultRow * bool)) :
  TaggedResult_get_or_create t r w = (out, w') ->
  constraints_hold (db w) = true -> constraints_hold (db w') = true.
Proof.
  intros E Hc. apply constraints_hold_parts in Hc as (Hur & Hut & Hul).
  apply TaggedResult_step in E as (_ & Hr & Ht & _ & H).
  apply constraints_hold_parts. rewrite Hr, Ht.
  destruct out as [[l [|]]|e].
  - destruct H as (_ & Hsel & -> & -> & _). repeat split; trivial.
    apply (unique_snoc link_key nat2_eqb nat2_eqb_eq); trivial.
    apply find_none_key_free. exact Hsel.
  - destruct H as (_ & _ & -> & _). auto.
  - destruct H as (-> & _). auto.
Qed.

(** Whatever its outcome, [tag_object] leaves the unique indices in force. *)
Lemma tag_object_keeps (tag project_id client_id object_id : str)
      (filename : option str) (w : World) :
  constraints_hold (db w) = true ->
  constraints_hold
    (db (snd (tag_object tag project_id client_id object_id filename w))) = true.
Proof.
  intros Hc. destruct (TagGrammar.is_valid_tag tag) eqn:Hvalid.
  2:{ now rewrite (tag_object_invalid _ _ _ _ _ _ Hvalid). }
  rewrite (@tag_object_valid tag project_id client_id object_id filename w Hvalid).
  destruct (Result_get_or_create client_id object_id (str_or filename data_bin) w)
    as [[result|e1] w1] eqn:E1.
  2:{ destruct e1; exact Hc. }
  apply Result_step_keeps in E1; trivial.
  destruct (Tag_get_or_create tag project_id w1) as [[tag_row|e2] w2] eqn:E2;
    [|exact Hc].
  apply Tag_step_keeps in E2; trivial.
  destruct (TaggedResult_get_or_create (fst tag_row) (fst result) w2)
    as [[l|e3] w3] eqn:E3; [|exact Hc].
  apply TaggedResult_step_keeps in E3; trivial.
Qed.

(** The two deletes of a purge keep them too: rows only go. *)
Lemma deletes_keep (object_ids : list str) (project_id : str) (w : World) :
  constraints_hold (db w) = true ->
  constraints_hold (db (snd (Result_delete_where_object_id_in object_ids w))) = true
  /\ constraints_hold (db (snd (Tag_delete_where_project_id project_id w))) = true.
Proof.
  intros Hc. apply constraints_hold_parts in Hc as (Hur & Hut & Hul).
  unfold Result_delete_where_object_id_in, Tag_delete_where_project_id, bind.
  destruct (round_trip_cases OperationalError w)
    as [(_ & w1 & -> & Hdb & _) | (_ & w1 & -> & Hdb & _)]; simpl; rewrite Hdb.
  - split; apply constraints_hold_parts; auto.
  - split; apply constraints_hold_parts; simpl; repeat split; trivial;
      now apply unique_filter.
Qed.

End Invariant.

(** C3.  The tag validator accepts exactly the strings of the grammar (one or
    two lowercase alphanumerics, or 2 to 32 lowercase alphanumerics and
    hyphens with an alphanumeric at both ends); ["a"], ["0"], ["result-1"]
    and ["a" + "-"*30 + "a"] are accepted; [""], [" "], ["-"], ["-ab"],
    ["ab-"] and ["a"*33] are rejected; and [tag_object] refuses a rejected
    tag with the invalid-tag error before any round trip to a store: both
    stores and the list of writes are as they were. *)
Theorem tag_validator_matches_grammar :
  (forall t : str,
      TagGrammar.is_valid_tag t = true <-> TagGrammar.grammar_accepts t = true)
  /\ (TagGrammar.is_valid_tag (py "a") = true
      /\ TagGrammar.is_valid_tag (py "0") = true
      /\ TagGrammar.is_valid_tag (py "result-1") = true
      /\ TagGrammar.is_valid_tag (py "a" ++ repeat 45%N 30 ++ py "a") = true)
  /\ (TagGrammar.is_valid_tag (py "") = false
      /\ TagGrammar.is_valid_tag (py " ") = false
      /\ TagGrammar.is_valid_tag (py "-") = false
      /\ TagGrammar.is_valid_tag (py "-ab") = false
      /\ TagGrammar.is_valid_tag (py "ab-") = false
      /\ TagGrammar.is_valid_tag (repeat 97%N 33) = false)
  /\ (forall (tag project_id client_id object_id : str) (filename : option str)
             (w : World),
         TagGrammar.is_valid_tag tag = false ->
         local.tag_object tag project_id client_id object_id filename w
         = (Raise (HTTPException HTTP_400_BAD_REQUEST (InvalidTagName tag)), w)).
Proof.
  split; [|split; [|split]].
  - intros t. now rewrite TagGrammarFacts.is_valid_tag_grammar.
  - repeat split; reflexivity.
  - repeat split; reflexivity.
  - intros. now apply TagObjectFacts.tag_object_invalid.
Qed.

Lemma tag_validator_matches_grammar_witness :
  TagGrammar.is_valid_tag (py "-ab") = false
  /\ local.tag_object (py "-ab") (py "p1") (py "an1") (py "o1") None
                      (mkWorld empty_db [] [] [])
     = (Raise (HTTPException HTTP_400_BAD_REQUEST (InvalidTagName (py "-ab"))),
        mkWorld empty_db [] [] []).
Proof.
  split; [reflexivity|].
  apply (proj2 (proj2 (proj2 tag_validator_matches_grammar))). reflexivity.
Defined.

(** C4.  When a Result row exists for (object_id, client_id) and the call
    asks for another effective filename, [tag_object] fails and changes
    nothing, whatever the tag and whatever the stores do: the ledger, the
    object store and the list of writes are as before.  With a valid tag
    and a relational store that answers, the failure is the filename
    conflict. *)
Theorem tag_object_filename_conflict
        (tag project_id client_id object_id : str) (filename : option str)
        (w : World) (existing : ResultRow) :
  crud.constraints_hold (db w) = true ->
  In existing (results (db w)) ->
  result_object_id existing = object_id ->
  result_client_id existing = client_id ->
  result_filename existing <> local.str_or filename local.data_bin ->
  let run := local.tag_object tag project_id client_id object_id filename w in
  (exists e, fst run = Raise e)
  /\ db (snd run) = db w
  /\ objects (snd run) = objects w
  /\ trace (snd run) = trace w
  /\ (TagGrammar.is_valid_tag tag = true ->
      next_fails w = false ->
      fst run = Raise (HTTPException HTTP_400_BAD_REQUEST
                         (FilenameConflict object_id client_id
                                           (local.str_or filename local.data_bin)))).
Proof.
  intros Hc Hin <- <- Hne run.
  apply TagObjectFacts.constraints_hold_parts in Hc as (Hu & _ & _).
  destruct (TagGrammar.is_valid_tag tag) eqn:Hvalid.
  - destruct (@TagObjectFacts.tag_object_conflict tag project_id filename w existing
                Hvalid Hu Hin Hne) as (e & w1 & E & Hdb & Hobj & Htr & _ & He).
    subst run. rewrite E. simpl. repeat split; eauto.
    intros _ Hn0. now rewrite (He Hn0).
  - subst run. rewrite (TagObjectFacts.tag_object_invalid _ _ _ _ _ _ Hvalid). simpl.
    repeat split; eauto. discriminate.
Qed.

Lemma tag_object_filename_conflict_witness :
  let w := mkWorld (mkDb [mkResult 1 (py "an1") (py "o1") (py "first.csv")] [] [] 2 1 1)
                   [] [] [] in
  let run := local.tag_object (py "t1") (py "p1") (py "an1") (py "o1")
                              (Some (py "second.csv")) w in
  fst run = Raise (HTTPException HTTP_400_BAD_REQUEST
                     (FilenameConflict (py "o1") (py "an1") (py "second.csv")))
  /\ db (snd run) = db w /\ objects (snd run) = objects w /\ trace (snd run) = trace w.
Proof.
  intros w.
  assert (crud.constraints_hold (db w) = true) as Hc by reflexivity.
  assert (In (mkResult 1 (py "an1") (py "o1") (py "first.csv")) (results (db w)))
    as Hin by (simpl; left; reflexivity).
  assert (result_filename (mkResult 1 (py "an1") (py "o1") (py "first.csv"))
          <> local.str_or (Some (py "second.csv")) local.data_bin) as Hne
      by discriminate.
  destruct (@tag_object_filename_conflict (py "t1") (py "p1") (py "an1") (py "o1")
              (Some (py "second.csv")) w
              (mkResult 1 (py "an1") (py "o1") (py "first.csv"))
              Hc Hin eq_refl eq_refl Hne) as (_ & Hdb & Hobj & Htr & Hconflict).
  split; [|auto]. apply Hconflict; reflexivity.
Defined.

(** C5.  [tag_object] is idempotent.  For every argument tuple, on a ledger
    whose unique indices hold and with stores that answer, a second call
    with the same arguments ends as the first did and writes nothing.  When
    the tag is valid and no row of another filename holds (object_id,
    client_id), both calls succeed and the ledger holds exactly one Result
    row for (client_id, object_id), one Tag row for (tag_name, project_id)
    and one TaggedResult row linking the two. *)
Theorem tag_object_idempotent
        (tag project_id client_id object_id : str) (filename : option str)
        (w : World) :
  crud.constraints_hold (db w) = true ->
  outages w = [] ->
  let first := local.tag_object tag project_id client_id object_id filename w in
  let second :=
    local.tag_object tag project_id client_id object_id filename (snd first) in
  (fst second = fst first
   /\ db (snd second) = db (snd first)
   /\ trace (snd second) = trace (snd first))
  /\ (TagGrammar.is_valid_tag tag = true ->
      (forall r, In r (results (db w)) ->
                 crud.result_key r = (client_id, object_id) ->
                 result_filename r = local.str_or filename local.data_bin) ->
      fst first = Return tt
      /\ fst second = Return tt
      /\ exists r t l,
          filter (has_key crud.result_key str2_eqb (client_id, object_id))
                 (results (db (snd second))) = [r]
          /\ result_filename r = local.str_or filename local.data_bin
          /\ filter (has_key crud.tag_key str2_eqb (tag, project_id))
                    (tags (db (snd second))) = [t]
          /\ filter (has_key crud.link_key nat2_eqb (tag_id t, result_id r))
                    (tagged_results (db (snd second))) = [l]).
Proof.
  intros Hc Hrt first second.
  assert (forall r t l w1,
             TagGrammar.is_valid_tag tag = true ->
             first = (Return tt, w1) ->
             outages w1 = [] -> crud.constraints_hold (db w1) = true ->
             In r (results (db w1)) -> crud.result_key r = (client_id, object_id) ->
             result_filename r = local.str_or filename local.data_bin ->
             In t (tags (db w1)) -> crud.tag_key t = (tag, project_id) ->
             In l (tagged_results (db w1)) ->
             crud.link_key l = (tag_id t, result_id r) ->
             (fst second = fst first /\ db (snd second) = db (snd first)
              /\ trace (snd second) = trace (snd first))
             /\ fst first = Return tt /\ fst second = Return tt
             /\ filter (has_key crud.result_key str2_eqb (client_id, object_id))
                       (results (db (snd second))) = [r]
             /\ filter (has_key crud.tag_key str2_eqb (tag, project_id))
                       (tags (db (snd second))) = [t]
             /\ filter (has_key crud.link_key nat2_eqb (tag_id t, result_id r))
                       (tagged_results (db (snd second))) = [l]) as Hdone.
  { intros r t l w1 Hvalid E1 Hrt1 Hc1 Hr Hrk Hrf Ht Htk Hl Hlk.
    destruct (@TagObjectFacts.tag_object_noop tag project_id client_id object_id
                filename w1 r t l Hvalid Hc1 Hrt1 Hr Hrk Hrf Ht Htk Hl Hlk)
      as (w2 & E2 & Hdb2 & Htr2 & _).
    subst second. rewrite E1. simpl. rewrite E2. simpl.
    apply TagObjectFacts.constraints_hold_parts in Hc1 as (Hur & Hut & Hul).
    rewrite Hdb2, <- Hrk, <- Htk, <- Hlk.
    repeat split; trivial.
    - apply (unique_filter_one crud.result_key str2_eqb str2_eqb_eq); trivial.
    - apply (unique_filter_one crud.tag_key str2_eqb str2_eqb_eq); trivial.
    - apply (unique_filter_one crud.link_key nat2_eqb nat2_eqb_eq); trivial. }
  destruct (TagGrammar.is_valid_tag tag) eqn:Hvalid.
  2:{ split; [|discriminate]. subst second first.
      rewrite (TagObjectFacts.tag_object_invalid _ _ _ _ _ _ Hvalid). simpl.
      rewrite (TagObjectFacts.tag_object_invalid _ _ _ _ _ _ Hvalid). simpl. auto. }
  destruct (existsb (fun r => has_key crud.result_key str2_eqb (client_id, object_id) r
                              && negb (str_eqb (result_filename r)
                                               (local.str_or filename local.data_bin)))
                    (results (db w))) eqn:Hconflict.
  - apply existsb_exists in Hconflict as (existing & Hin & Hp).
    apply andb_true_iff in Hp as [Hk Hne].
    apply (has_key_eq crud.result_key str2_eqb str2_eqb_eq) in Hk.
    apply negb_true_iff, str_eqb_neq in Hne.
    unfold crud.result_key in Hk. injection Hk as <- <-.
    pose proof Hc as Hparts.
    apply TagObjectFacts.constraints_hold_parts in Hparts as (Hu & _ & _).
    pose proof (no_outage_next w Hrt) as Hn0.
    destruct (@TagObjectFacts.tag_object_conflict tag project_id filename w existing
                Hvalid Hu Hin Hne) as (e1 & w1 & E1 & Hdb1 & _ & Htr1 & Hrt1 & He1).
    rewrite <- Hdb1 in Hu, Hin.
    pose proof (no_outage_next w1 (Hrt1 Hrt)) as Hn1.
    destruct (@TagObjectFacts.tag_object_conflict tag project_id filename w1 existing
                Hvalid Hu Hin Hne) as (e2 & w2 & E2 & Hdb2 & _ & Htr2 & _ & He2).
    split.
    + subst second first. rewrite E1. simpl. rewrite E2. simpl.
      rewrite (He1 Hn0), (He2 Hn1). auto.
    + intros _ Hsame. exfalso. apply Hne. rewrite Hdb1 in Hin. now apply Hsame.
  - assert (forall r, In r (results (db w)) ->
                      crud.result_key r = (client_id, object_id) ->
                      result_filename r = local.str_or filename local.data_bin)
      as Hsame.
    { intros r Hin Hk. apply str_eqb_eq.
      destruct (str_eqb (result_filename r) (local.str_or filename local.data_bin))
        eqn:E; [reflexivity|]. exfalso.
      assert (existsb (fun r => has_key crud.result_key str2_eqb (client_id, object_id) r
                                && negb (str_eqb (result_filename r)
                                                 (local.str_or filename local.data_bin)))
                      (results (db w)) = true) as Hex.
      { apply existsb_exists. exists r. split; [exact Hin|].
        rewrite E. simpl. rewrite andb_true_r.
        now apply (has_key_eq crud.result_key str2_eqb str2_eqb_eq). }
      congruence. }
    destruct (@TagObjectFacts.tag_object_ok tag project_id client_id object_id
                filename w Hvalid Hc Hrt Hsame)
      as (w1 & r & t & l & E1 & Hrt1 & Hc1 & _ & Hr & Hrk & Hrf & Ht & Htk & Hl & Hlk).
    destruct (Hdone r t l w1 eq_refl E1 Hrt1 Hc1 Hr Hrk Hrf Ht Htk Hl Hlk)
      as (Hidem & H1 & H2 & Fr & Ft & Fl).
    split; [exact Hidem|]. intros _ _. split; [exact H1|]. split; [exact H2|].
    exists r, t, l. auto.
Qed.

Lemma tag_object_idempotent_witness :
  let w := mkWorld empty_db [] [] [] in
  let first := local.tag_object (py "t1") (py "p1") (py "an1") (py "o1")
                                (Some (py "r.csv")) w in
  let second := local.tag_object (py "t1") (py "p1") (py "an1") (py "o1")
                                 (Some (py "r.csv")) (snd first) in
  fst first = Return tt
  /\ fst second = Return tt
  /\ exists r t l,
      filter (has_key crud.result_key str2_eqb (py "an1", py "o1"))
             (results (db (snd second))) = [r]
      /\ result_filename r = local.str_or (Some (py "r.csv")) local.data_bin
      /\ filter (has_key crud.tag_key str2_eqb (py "t1", py "p1"))
                (tags (db (snd second))) = [t]
      /\ filter (has_key crud.link_key nat2_eqb (tag_id t, result_id r))
                (tagged_results (db (snd second))) = [l].
Proof.
  intros w.
  apply (proj2 (@tag_object_idempotent (py "t1") (py "p1") (py "an1") (py "o1")
                  (Some (py "r.csv")) w eq_refl eq_refl)).
  - reflexivity.
  - intros r [].
Defined.



(** ** The object store and the handlers of [local.py] *)

Module LocalFacts.

Import crud local LedgerFacts.

Lemma mem_str_in (x : str) (xs : list str) : mem_str x xs = true <-> In x xs.
Proof.
  unfold mem_str. rewrite existsb_exists. split.
  - intros (y & Hin & E). apply str_eqb_eq in E. now subst.
  - intros H. exists x. split; [trivial | apply str_eqb_refl].
Qed.

Lemma mem_nat_in (x : nat) (xs : list nat) : mem_nat x xs = true <-> In x xs.
Proof.
  unfold mem_nat. rewrite existsb_exists. split.
  - intros (y & Hin & E). apply Nat.eqb_eq in E. now subst.
  - intros H. exists x. split; [trivial | apply Nat.eqb_refl].
Qed.

(** [get_object] on a name that is not stored. *)
Lemma get_object_absent (name : str) (w : World) :
  Minio.lookup name (objects w) = None ->
  exists w1,
    db w1 = db w /\ trace w1 = trace w /\ objects w1 = objects w
    /\ Minio.get_object name w
       = (Raise (S3Error (if next_fails w then Minio.InternalError
                          else Minio.NoSuchKey)), w1).
Proof.
  intros Habsent. unfold Minio.get_object, bind.
  destruct (round_trip_cases (S3Error Minio.InternalError) w)
    as [(H0 & w1 & -> & Hdb & Hobj & Htr) | (Hn0 & w1 & -> & Hdb & Hobj & Htr & _)].
  - exists w1. rewrite H0. auto.
  - exists w1. rewrite Hobj, Habsent, Hn0. auto.
Qed.

(** What [tag_object] writes: ledger rows only. *)
Lemma tag_object_writes (tag project_id client_id object_id : str)
      (filename : option str) (w : World) :
  let run := tag_object tag project_id client_id object_id filename w in
  objects (snd run) = objects w
  /\ exists writes,
      trace (snd run) = trace w ++ writes
      /\ forallb is_ledger_event writes = true.
Proof.
  intros run. subst run.
  destruct (TagGrammar.is_valid_tag tag) eqn:Hvalid.
  2:{ rewrite (TagObjectFacts.tag_object_invalid _ _ _ _ _ _ Hvalid). simpl.
      split; [reflexivity|]. exists []. now rewrite app_nil_r. }
  rewrite (@TagObjectFacts.tag_object_valid tag project_id client_id object_id
             filename w Hvalid).
  destruct (Result_get_or_create client_id object_id (str_or filename data_bin) w)
    as [[[r b1]|e1] w1] eqn:E1;
    apply Result_step in E1 as (Ho1 & _ & _ & _ & H1).
  - assert (exists ev1, trace w1 = trace w ++ ev1 /\ forallb is_ledger_event ev1 = true)
      as (ev1 & Htr1 & Hev1).
    { destruct b1.
      - destruct H1 as (_ & _ & _ & _ & _ & Htr). exists [InsertResult r]. auto.
      - destruct H1 as (_ & _ & _ & Htr). exists []. rewrite app_nil_r. auto. }
    clear H1.
    destruct (Tag_get_or_create tag project_id w1) as [[[t b2]|e2] w2] eqn:E2;
      apply Tag_step in E2 as (Ho2 & _ & _ & _ & H2).
    + assert (exists ev2, trace w2 = trace w1 ++ ev2
                          /\ forallb is_ledger_event ev2 = true)
        as (ev2 & Htr2 & Hev2).
      { destruct b2.
        - destruct H2 as (_ & _ & _ & _ & Htr). exists [InsertTag t]. auto.
        - destruct H2 as (_ & _ & _ & Htr). exists []. rewrite app_nil_r. auto. }
      clear H2. simpl fst.
      destruct (TaggedResult_get_or_create t r w2) as [[[l b3]|e3] w3] eqn:E3;
        apply TaggedResult_step in E3 as (Ho3 & _ & _ & _ & H3).
      * assert (exists ev3, trace w3 = trace w2 ++ ev3
                            /\ forallb is_ledger_event ev3 = true)
          as (ev3 & Htr3 & Hev3).
        { destruct b3.
          - destruct H3 as (_ & _ & _ & _ & Htr). exists [InsertTaggedResult l]. auto.
          - destruct H3 as (_ & _ & _ & Htr). exists []. rewrite app_nil_r. auto. }
        simpl. split; [congruence|]. exists (ev1 ++ ev2 ++ ev3).
        rewrite Htr3, Htr2, Htr1, <- !app_assoc, !forallb_app, Hev1, Hev2, Hev3. auto.
      * destruct H3 as (_ & Htr3 & _). simpl. split; [congruence|].
        exists (ev1 ++ ev2).
        rewrite Htr3, Htr2, Htr1, <- !app_assoc, !forallb_app, Hev1, Hev2. auto.
    + destruct H2 as (_ & Htr2 & _). simpl. split; [congruence|].
      exists ev1. rewrite Htr2, Htr1. auto.
  - destruct H1 as (_ & Htr1 & _).
    assert (forall e, objects (snd (@Raise unit e, with_db w1 (db w))) = objects w
                      /\ exists writes,
                          trace (snd (@Raise unit e, with_db w1 (db w)))
                          = trace w ++ writes
                          /\ forallb is_ledger_event writes = true) as G.
    { intros e. simpl. split; [exact Ho1|]. exists []. rewrite app_nil_r. auto. }
    destruct e1; apply G.
Qed.

Lemma lookup_put (name : str) (o : StoredObject) (os : list (str * StoredObject)) :
  Minio.lookup name (Minio.without name os ++ [(name, o)]) = Some o.
Proof.
  unfold Minio.lookup, Minio.without.
  induction os as [|[n x] os IH]; simpl.
  - now rewrite str_eqb_refl.
  - destruct (str_eqb n name) eqn:E; simpl; [exact IH|]. now rewrite E.
Qed.

Lemma put_object_cases (name : str) (data : bytes) (content_type : str) (w : World) :
  (next_fails w = true /\
   exists w1,
     Minio.put_object name data content_type w
     = (Raise (S3Error Minio.InternalError), w1)
     /\ db w1 = db w /\ objects w1 = objects w /\ trace w1 = trace w)
  \/ (next_fails w = false /\
      exists w1,
        Minio.put_object name data content_type w = (Return tt, w1)
        /\ db w1 = db w
        /\ trace w1 = trace w ++ [ObjectPut name]
        /\ Minio.lookup name (objects w1) = Some (mkObject data content_type)).
Proof.
  unfold Minio.put_object, bind.
  destruct (round_trip_cases (S3Error Minio.InternalError) w)
    as [(H0 & w1 & -> & Hdb & Hobj & Htr) | (Hn0 & w1 & -> & Hdb & Hobj & Htr & _)].
  - left. split; [exact H0|]. exists w1. auto.
  - right. split; [exact Hn0|]. eexists. split; [reflexivity|]. simpl.
    rewrite Htr. repeat split; trivial. apply lookup_put.
Qed.

Lemma remove_object_cases (name : str) (w : World) :
  (next_fails w = true /\
   exists e w1, Minio.remove_object name w = (Raise e, w1))
  \/ (next_fails w = false /\
      exists w1,
        Minio.remove_object name w = (Return tt, w1)
        /\ db w1 = db w
        /\ trace w1 = trace w ++ [ObjectRemove name]
        /\ objects w1 = Minio.without name (objects w)
        /\ (outages w = [] -> outages w1 = [])).
Proof.
  unfold Minio.remove_object, bind.
  destruct (round_trip_cases (S3Error Minio.InternalError) w)
    as [(H0 & w1 & -> & Hdb & Hobj & Htr) | (Hn0 & w1 & -> & Hdb & Hobj & Htr & Hsame)].
  - left. split; [exact H0|]. eauto.
  - right. split; [exact Hn0|]. eexists. split; [reflexivity|]. simpl.
    rewrite Htr, Hobj. repeat split; trivial. intros H. now rewrite (Hsame H).
Qed.

(** The loop of [delete_local_results], when it runs to its end. *)
Lemma remove_listed_done (listed : list str) :
  forall (acc : list str) (w w' : World) (object_ids : list str),
    remove_listed listed acc w = (Return object_ids, w') ->
    object_ids = acc ++ map (last_segment 47%N) listed
    /\ db w' = db w
    /\ trace w' = trace w ++ map ObjectRemove listed
    /\ objects w' = fold_left (fun os name => Minio.without name os) listed (objects w)
    /\ (outages w = [] -> outages w' = []).
Proof.
  induction listed as [|name rest IH]; intros acc w w' object_ids; simpl.
  - unfold ret. intros [= <- <-]. rewrite !app_nil_r. auto.
  - unfold bind at 1.
    destruct (remove_object_cases name w)
      as [(H0 & e & w1 & ->) | (Hn0 & w1 & -> & Hdb & Htr & Hobj & Hrt)];
      [discriminate|].
    intros Hrest. apply IH in Hrest as (-> & Hdb' & Htr' & Hobj' & Hrt').
    rewrite <- app_assoc. simpl. rewrite Htr', Htr, <- app_assoc, Hobj', Hobj, Hdb', Hdb.
    simpl. repeat split; auto.
Qed.

Lemma remove_listed_runs (listed : list str) :
  forall (acc : list str) (w : World),
    outages w = [] ->
    exists object_ids w', remove_listed listed acc w = (Return object_ids, w').
Proof.
  induction listed as [|name rest IH]; intros acc w Hrt; simpl.
  - unfold ret. eauto.
  - unfold bind at 1.
    destruct (remove_object_cases name w)
      as [[H0 _] | (Hn0 & w1 & -> & _ & _ & _ & Hrt1)]; [store_answers|].
    apply IH. auto.
Qed.

Lemma in_without_all (listed : list str) :
  forall (os : list (str * StoredObject)) (kv : str * StoredObject),
    In kv (fold_left (fun os name => Minio.without name os) listed os) ->
    In kv os /\ ~ In (fst kv) listed.
Proof.
  induction listed as [|name rest IH]; intros os kv; simpl.
  - auto.
  - intros H. apply IH in H as [Hin Hrest].
    unfold Minio.without in Hin. apply filter_In in Hin as [Hin Hne].
    apply negb_true_iff, str_eqb_neq in Hne.
    split; [exact Hin|]. intros [E | Hr]; [congruence | contradiction].
Qed.

(** Once every listed name is removed, nothing is left under the prefix. *)
Lemma names_under_after_removal (prefix : str) (os : list (str * StoredObject)) :
  Minio.names_under prefix
    (fold_left (fun os name => Minio.without name os)
               (Minio.names_under prefix os) os) = [].
Proof.
  unfold Minio.names_under at 1.
  destruct (filter _ _) as [|kv rest] eqn:F; [reflexivity|].
  assert (In kv (kv :: rest)) as Hin by now left.
  rewrite <- F in Hin. apply filter_In in Hin as [Hin Hp].
  apply in_without_all in Hin as [Hin Hnot]. exfalso. apply Hnot.
  unfold Minio.names_under. apply in_map. apply filter_In. auto.
Qed.

Lemma Result_delete_cases (object_ids : list str) (w : World) :
  (next_fails w = true /\
   exists e w1, Result_delete_where_object_id_in object_ids w = (Raise e, w1))
  \/ (next_fails w = false /\
      exists w1,
        Result_delete_where_object_id_in object_ids w = (Return tt, w1)
        /\ objects w1 = objects w
        /\ trace w1 = trace w ++ [DeleteResults object_ids]
        /\ results (db w1)
           = filter (fun r => negb (mem_str (result_object_id r) object_ids))
                    (results (db w))
        /\ tags (db w1) = tags (db w)
        /\ tagged_results (db w1)
           = filter (fun l => negb (mem_nat (link_result l)
                                     (map result_id
                                        (filter (fun r => mem_str (result_object_id r)
                                                                  object_ids)
                                                (results (db w))))))
                    (tagged_results (db w))
        /\ (outages w = [] -> outages w1 = [])).
Proof.
  unfold Result_delete_where_object_id_in, bind.
  destruct (round_trip_cases OperationalError w)
    as [(H0 & w1 & -> & Hdb & Hobj & Htr) | (Hn0 & w1 & -> & Hdb & Hobj & Htr & Hsame)].
  - left. split; [exact H0|]. eauto.
  - right. split; [exact Hn0|]. eexists. split; [reflexivity|]. simpl.
    rewrite Htr, Hobj, Hdb. repeat split; trivial. intros H. now rewrite (Hsame H).
Qed.

Lemma Tag_delete_cases (project_id : str) (w : World) :
  (next_fails w = true /\
   exists e w1, Tag_delete_where_project_id project_id w = (Raise e, w1))
  \/ (next_fails w = false /\
      exists w1,
        Tag_delete_where_project_id project_id w = (Return tt, w1)
        /\ objects w1 = objects w
        /\ trace w1 = trace w ++ [DeleteTags project_id]
        /\ results (db w1) = results (db w)
        /\ tags (db w1)
           = filter (fun t => negb (str_eqb (tag_project_id t) project_id))
                    (tags (db w))
        /\ tagged_results (db w1)
           = filter (fun l => negb (mem_nat (link_tag l)
                                     (map tag_id
                                        (filter (fun t => str_eqb (tag_project_id t)
                                                                  project_id)
                                                (tags (db w))))))
                    (tagged_results (db w))).
Proof.
  unfold Tag_delete_where_project_id, bind.
  destruct (round_trip_cases OperationalError w)
    as [(H0 & w1 & -> & Hdb & Hobj & Htr) | (Hn0 & w1 & -> & Hdb & Hobj & Htr & Hsame)].
  - left. split; [exact H0|]. eauto.
  - right. split; [exact Hn0|]. eexists. split; [reflexivity|]. simpl.
    rewrite Htr, Hobj, Hdb. repeat split; trivial.
Qed.

Lemma starts_with_app (p x : str) : starts_with p (p ++ x) = true.
Proof.
  induction p as [|c p IH]; simpl; [reflexivity|]. now rewrite N.eqb_refl.
Qed.

(** The last path segment of [.../{object_id}] is the object id, when the
    id holds no slash. *)
Lemma last_segment_of_path (dir object_id : str) :
  existsb (N.eqb 47%N) object_id = false ->
  last_segment 47%N (dir ++ 47%N :: object_id) = object_id.
Proof.
  intros Hid. induction dir as [|c dir IH]; simpl.
  - now rewrite Hid.
  - rewrite existsb_app. simpl. now rewrite orb_true_r.
Qed.

Lemma object_name_under_prefix (project_id object_id : str) :
  object_name project_id object_id = project_prefix project_id ++ object_id
  /\ object_name project_id object_id
     = (py "local/" ++ project_id) ++ 47%N :: object_id.
Proof.
  unfold object_name, project_prefix. split.
  - now rewrite <- !app_assoc.
  - now rewrite <- app_assoc.
Qed.

Lemma lookup_some_listed (prefix name : str) (os : list (str * StoredObject))
      (o : StoredObject) :
  Minio.lookup name os = Some o -> starts_with prefix name = true ->
  In name (Minio.names_under prefix os).
Proof.
  unfold Minio.lookup, Minio.names_under. intros Hlook Hprefix.
  destruct (find (fun kv => str_eqb (fst kv) name) os) as [kv|] eqn:F; [|discriminate].
  destruct (find_some _ _ F) as [Hin Heq]. apply str_eqb_eq in Heq. subst name.
  apply in_map. apply filter_In. auto.
Qed.

Lemma list_objects_cases (prefix : str) (w : World) :
  (next_fails w = true /\
   exists e w1, Minio.list_objects prefix w = (Raise e, w1))
  \/ (next_fails w = false /\
      exists w1,
        Minio.list_objects prefix w
        = (Return (Minio.names_under prefix (objects w)), w1)
        /\ db w1 = db w /\ trace w1 = trace w /\ objects w1 = objects w
        /\ (outages w = [] -> outages w1 = [])).
Proof.
  unfold Minio.list_objects, bind.
  destruct (round_trip_cases (S3Error Minio.InternalError) w)
    as [(H0 & w1 & -> & Hdb & Hobj & Htr) | (Hn0 & w1 & -> & Hdb & Hobj & Htr & Hsame)].
  - left. split; [exact H0|]. eauto.
  - right. split; [exact Hn0|]. exists w1. rewrite Hobj. repeat split; trivial.
    intros H. now rewrite (Hsame H).
Qed.

(** The administrative identity, on a project the hub no longer has: list,
    remove, then the two deletes in one transaction. *)
Lemma delete_local_results_admitted (settings : Settings) (core_client : CoreClient)
      (project_id client_id : str) (w : World) :
  client_id = hub_adapter_client_id settings ->
  get_project core_client project_id = None ->
  delete_local_results settings core_client project_id client_id w =
  match Minio.list_objects (project_prefix project_id) w with
  | (Return listed, w1) =>
      match remove_listed listed [] w1 with
      | (Return object_ids, w2) =>
          match Result_delete_where_object_id_in object_ids w2 with
          | (Return _, w3) =>
              match Tag_delete_where_project_id project_id w3 with
              | (Return done, w4) => (Return done, w4)
              | (Raise e, w4) => (Raise e, with_db w4 (db w2))
              end
          | (Raise e, w3) => (Raise e, with_db w3 (db w2))
          end
      | (Raise e, w2) => (Raise e, w2)
      end
  | (Raise e, w1) => (Raise e, w1)
  end.
Proof.
  intros -> Habsent. unfold delete_local_results.
  rewrite str_eqb_refl, Habsent. change (negb true) with false. cbv iota.
  unfold bind_to, bind.
  destruct (Minio.list_objects (project_prefix project_id) w) as [[listed|e] w1];
    [|reflexivity].
  destruct (remove_listed listed [] w1) as [[object_ids|e] w2]; [|reflexivity].
  destruct (Result_delete_where_object_id_in object_ids w2) as [[[]|e] w3];
    reflexivity.
Qed.

End LocalFacts.

(** C9.  Tagging through the tag endpoint needs the object in the store:
    when the analysis resolves to a project and nothing is stored at
    [local/{project_id}/{object_id}], the request fails with 404 (object not
    found), or with 502 when the object store does not answer, and no
    ledger row is written. *)
Theorem create_object_tag_requires_object
        (core_client : CoreClient) (tag_name object_id client_id : str)
        (filename : option str) (w : World) (analysis : Analysis) :
  get_analysis core_client client_id = Some analysis ->
  Minio.lookup (local.object_name (analysis_project_id analysis) object_id)
               (objects w) = None ->
  let run := local.create_object_tag core_client tag_name object_id client_id
                                     filename w in
  fst run = Raise (if next_fails w
                   then HTTPException HTTP_502_BAD_GATEWAY UnexpectedObjectStoreError
                   else HTTPException HTTP_404_NOT_FOUND (ObjectNotFound object_id))
  /\ db (snd run) = db w
  /\ trace (snd run) = trace w
  /\ objects (snd run) = objects w.
Proof.
  intros Hanalysis Habsent run.
  assert (exists w1, db w1 = db w /\ trace w1 = trace w /\ objects w1 = objects w
                     /\ run = (Raise (if next_fails w
                                       then HTTPException HTTP_502_BAD_GATEWAY
                                                          UnexpectedObjectStoreError
                                       else HTTPException HTTP_404_NOT_FOUND
                                                          (ObjectNotFound object_id)), w1))
    as (w1 & Hdb & Htr & Hobj & ->).
  { subst run.
    unfold local.create_object_tag, local._get_project_id_for_analysis_or_raise.
    rewrite Hanalysis. unfold bind, ret, local._get_object_from_s3, try_except.
    destruct (LocalFacts.get_object_absent _ w Habsent) as (w1 & Hdb & Htr & Hobj & ->).
    exists w1. destruct (next_fails w); simpl; auto. }
  simpl. auto.
Qed.

Lemma create_object_tag_requires_object_witness :
  let core_client :=
    mkCoreClient (fun _ => Some (mkAnalysis (py "p1"))) (fun _ => None) (fun _ => None) in
  let w := mkWorld empty_db [] [] [] in
  let run := local.create_object_tag core_client (py "t1") (py "o1") (py "an1") None w in
  fst run = Raise (HTTPException HTTP_404_NOT_FOUND (ObjectNotFound (py "o1")))
  /\ db (snd run) = db w
  /\ trace (snd run) = trace w
  /\ objects (snd run) = objects w.
Proof.
  intros core_client w.
  apply (@create_object_tag_requires_object core_client (py "t1") (py "o1") (py "an1")
           None w (mkAnalysis (py "p1"))); reflexivity.
Defined.

(** C6, as stated, fails: a tagged upload writes the ledger first.  On a run
    that succeeds the three ledger inserts precede the object put; and when
    the object store stops answering after the ledger steps, the request
    fails with the rows of the new object id in the ledger and no object
    stored under its name. *)
Lemma tagged_upload_writes_ledger_first :
  let core_client :=
    mkCoreClient (fun _ => Some (mkAnalysis (py "p1"))) (fun _ => None) (fun _ => None) in
  let file := mkUploadFile (Some (py "r.csv")) [1; 2; 3]%N None in
  let upload :=
    local.submit_intermediate_result_to_local core_client (py "an1") file
                                              (Some (py "t1")) (py "o1") in
  let completed := upload (mkWorld empty_db [] [] []) in
  let failed := upload (mkWorld empty_db [] [] [false; false; false; true]) in
  (fst completed = Return (py "o1")
   /\ trace (snd completed)
      = [InsertResult (mkResult 1 (py "an1") (py "o1") (py "r.csv"));
         InsertTag (mkTag 1 (py "t1") (py "p1"));
         InsertTaggedResult (mkTaggedResult 1 1 1);
         ObjectPut (py "local/p1/o1")])
  /\ (fst failed = Raise (S3Error Minio.InternalError)
      /\ results (db (snd failed)) = [mkResult 1 (py "an1") (py "o1") (py "r.csv")]
      /\ tags (db (snd failed)) = [mkTag 1 (py "t1") (py "p1")]
      /\ tagged_results (db (snd failed)) = [mkTaggedResult 1 1 1]
      /\ Minio.lookup (py "local/p1/o1") (objects (snd failed)) = None).
Proof. vm_compute. repeat split. Qed.

(** C6, amended.  For every tagged local upload the ledger write comes
    before the object-store write: [tag_object] runs first, on the world of
    the request, and the object is put only after it returned, on the world
    it left.  When [tag_object] fails (invalid tag, filename conflict, a
    relational store that does not answer), the run ends with its error in
    the world it left: nothing is put and no object is stored.  When it
    returns, the writes of the run are its ledger writes followed by the one
    object put; if the object store does not answer, the run fails with its
    [S3Error], no object is stored, and the ledger is as [tag_object] left
    it. *)
Theorem tagged_upload_write_order
        (core_client : CoreClient) (client_id : str) (file : UploadFile)
        (tag fresh_object_id : str) (w : World) (analysis : Analysis) :
  get_analysis core_client client_id = Some analysis ->
  let name := local.object_name (analysis_project_id analysis) fresh_object_id in
  let tagging := local.tag_object tag (analysis_project_id analysis) client_id
                                  fresh_object_id (file_filename file) w in
  let run := local.submit_intermediate_result_to_local
               core_client client_id file (Some tag) fresh_object_id w in
  exists ledger_writes,
    forallb is_ledger_event ledger_writes = true
    /\ trace (snd tagging) = trace w ++ ledger_writes
    /\ objects (snd tagging) = objects w
    /\ (forall e, fst tagging = Raise e -> run = (Raise e, snd tagging))
    /\ match fst run with
       | Return object_id =>
           fst tagging = Return tt
           /\ next_fails (snd tagging) = false
           /\ object_id = fresh_object_id
           /\ db (snd run) = db (snd tagging)
           /\ trace (snd run) = trace w ++ ledger_writes ++ [ObjectPut name]
           /\ Minio.lookup name (objects (snd run))
              = Some (mkObject (file_content file)
                               (local.str_or (file_content_type file)
                                             local.octet_stream))
       | Raise e =>
           trace (snd run) = trace w ++ ledger_writes
           /\ objects (snd run) = objects w
           /\ (fst tagging = Return tt ->
               e = S3Error Minio.InternalError
               /\ next_fails (snd tagging) = true
               /\ db (snd run) = db (snd tagging))
       end.
Proof.
  intros Hanalysis name tagging run.
  pose proof (LocalFacts.tag_object_writes tag (analysis_project_id analysis)
                client_id fresh_object_id (file_filename file) w) as Htag.
  cbv zeta in Htag. fold tagging in Htag. destruct Htag as (Hobj & writes & Htr & Hledger).
  exists writes. split; [exact Hledger|]. split; [exact Htr|]. split; [exact Hobj|].
  assert (Hrun : run = match tagging with
                       | (Return _, w1) =>
                           match Minio.put_object name (file_content file)
                                   (local.str_or (file_content_type file)
                                                 local.octet_stream) w1 with
                           | (Return _, w2) => (Return fresh_object_id, w2)
                           | (Raise e, w2) => (Raise e, w2)
                           end
                       | (Raise e, w1) => (Raise e, w1)
                       end).
  { subst run tagging name.
    unfold local.submit_intermediate_result_to_local,
      local._get_project_id_for_analysis_or_raise.
    rewrite Hanalysis. unfold bind, ret.
    destruct (local.tag_object tag (analysis_project_id analysis) client_id
                fresh_object_id (file_filename file) w) as [[[]|e] w1]; reflexivity. }
  rewrite Hrun. clear Hrun run.
  destruct tagging as [[[]|e] w1]; simpl in Hobj, Htr |- *.
  - split; [discriminate|].
    destruct (LocalFacts.put_object_cases name (file_content file)
                (local.str_or (file_content_type file) local.octet_stream) w1)
      as [(H0 & w2 & E & Hdb2 & Hobj2 & Htr2) | (Hn0 & w2 & E & Hdb2 & Htr2 & Hlook)];
      rewrite E; simpl.
    + split; [congruence|]. split; [congruence|]. intros _. auto.
    + split; [reflexivity|]. split; [exact Hn0|]. split; [reflexivity|].
      split; [exact Hdb2|]. split; [|exact Hlook].
      rewrite Htr2, Htr, <- app_assoc. reflexivity.
  - split; [intros e' [= <-]; reflexivity|].
    split; [exact Htr|]. split; [exact Hobj|]. discriminate.
Qed.

Lemma tagged_upload_write_order_witness :
  let core_client :=
    mkCoreClient (fun _ => Some (mkAnalysis (py "p1"))) (fun _ => None) (fun _ => None) in
  let file := mkUploadFile (Some (py "r.csv")) [1; 2; 3]%N None in
  let w := mkWorld empty_db [] [] [] in
  let name := local.object_name (py "p1") (py "o1") in
  let tagging := local.tag_object (py "t1") (py "p1") (py "an1") (py "o1")
                                  (Some (py "r.csv")) w in
  let run := local.submit_intermediate_result_to_local
               core_client (py "an1") file (Some (py "t1")) (py "o1") w in
  exists ledger_writes,
    forallb is_ledger_event ledger_writes = true
    /\ trace (snd tagging) = trace w ++ ledger_writes
    /\ objects (snd tagging) = objects w
    /\ (forall e, fst tagging = Raise e -> run = (Raise e, snd tagging))
    /\ (fst tagging = Return tt
        /\ next_fails (snd tagging) = false
        /\ py "o1" = py "o1"
        /\ db (snd run) = db (snd tagging)
        /\ trace (snd run) = trace w ++ ledger_writes ++ [ObjectPut name]
        /\ Minio.lookup name (objects (snd run))
           = Some (mkObject (file_content file)
                            (local.str_or (file_content_type file)
                                          local.octet_stream))).
Proof.
  intros core_client file w.
  apply (@tagged_upload_write_order core_client (py "an1") file (py "t1") (py "o1") w
           (mkAnalysis (py "p1"))).
  reflexivity.
Defined.

(** C7.  When the administrative identity purges a project that the hub no
    longer has, the run succeeds if the stores answer, and after a
    successful run: nothing is listed under the project's prefix; no Tag row
    carries the project id; no Result row carries the id of one of the
    project's stored objects (for a surviving row, nothing was stored at
    [local/{project_id}/{object_id}]); no TaggedResult row links a Tag row
    of the project or a Result row of one of those objects; and the writes
    of the run are the removals of all listed objects followed by the two
    ledger deletes, so every object is removed before any ledger row is. *)
Theorem delete_local_results_purges
        (settings : Settings) (core_client : CoreClient)
        (project_id client_id : str) (w : World) :
  client_id = hub_adapter_client_id settings ->
  get_project core_client project_id = None ->
  let listed := Minio.names_under (local.project_prefix project_id) (objects w) in
  let object_ids := map (last_segment 47%N) listed in
  let run := local.delete_local_results settings core_client project_id client_id w in
  (outages w = [] -> fst run = Return tt)
  /\ (fst run = Return tt ->
      Minio.names_under (local.project_prefix project_id) (objects (snd run)) = []
      /\ (forall t, In t (tags (db (snd run))) -> tag_project_id t <> project_id)
      /\ (forall r, In r (results (db (snd run))) ->
                    ~ In (result_object_id r) object_ids
                    /\ (existsb (N.eqb 47%N) (result_object_id r) = false ->
                        Minio.lookup (local.object_name project_id (result_object_id r))
                                     (objects w) = None))
      /\ (forall l, In l (tagged_results (db (snd run))) ->
                    (forall t, In t (tags (db w)) -> tag_project_id t = project_id ->
                               link_tag l <> tag_id t)
                    /\ (forall r, In r (results (db w)) ->
                                  In (result_object_id r) object_ids ->
                                  link_result l <> result_id r))
      /\ trace (snd run)
         = trace w ++ map ObjectRemove listed
                   ++ [DeleteResults object_ids; DeleteTags project_id]).
Proof.
  intros Hadmin Habsent listed object_ids run. subst run.
  rewrite (@LocalFacts.delete_local_results_admitted settings core_client project_id
             client_id w Hadmin Habsent).
  destruct (LocalFacts.list_objects_cases (local.project_prefix project_id) w)
    as [(H0 & e & w1 & ->) | (Hn0 & w1 & -> & Hdb1 & Htr1 & Hobj1 & Hrt1)].
  { simpl. split; [|discriminate]. intros Hrt. store_answers. }
  fold listed.
  destruct (local.remove_listed listed [] w1) as [[ids|e] w2] eqn:E2.
  2:{ simpl. split; [|discriminate]. intros Hrt.
      destruct (LocalFacts.remove_listed_runs listed [] w1 (Hrt1 Hrt)) as (? & ? & E).
      congruence. }
  apply LocalFacts.remove_listed_done in E2 as (-> & Hdb2 & Htr2 & Hobj2 & Hrt2).
  simpl app. fold object_ids.
  destruct (LocalFacts.Result_delete_cases object_ids w2)
    as [(H0 & e & w3 & ->)
       | (Hn2 & w3 & -> & Hobj3 & Htr3 & Hres3 & Htags3 & Hlinks3 & Hrt3)].
  { simpl. split; [|discriminate]. intros Hrt. specialize (Hrt2 (Hrt1 Hrt)).
    store_answers. }
  destruct (LocalFacts.Tag_delete_cases project_id w3)
    as [(H0 & e & w4 & ->) | (Hn3 & w4 & -> & Hobj4 & Htr4 & Hres4 & Htags4 & Hlinks4)].
  { simpl. split; [|discriminate]. intros Hrt.
    specialize (Hrt3 (Hrt2 (Hrt1 Hrt))). store_answers. }
  simpl. split; [reflexivity|]. intros _.
  split; [|split; [|split; [|split]]].
  - rewrite Hobj4, Hobj3, Hobj2, Hobj1. apply LocalFacts.names_under_after_removal.
  - intros t Hin. rewrite Htags4 in Hin. apply filter_In in Hin as [_ Hne].
    now apply negb_true_iff, str_eqb_neq in Hne.
  - intros r Hin. rewrite Hres4, Hres3 in Hin. apply filter_In in Hin as [_ Hne].
    apply negb_true_iff in Hne.
    assert (~ In (result_object_id r) object_ids) as Hnot.
    { intros Hmem. apply LocalFacts.mem_str_in in Hmem. congruence. }
    split; [exact Hnot|]. intros Hid.
    destruct (Minio.lookup (local.object_name project_id (result_object_id r))
                           (objects w)) as [o|] eqn:Hlook; [|reflexivity].
    exfalso. apply Hnot.
    destruct (LocalFacts.object_name_under_prefix project_id (result_object_id r))
      as [Hpre Hdir].
    rewrite <- (LocalFacts.last_segment_of_path (py "local/" ++ project_id) _ Hid).
    rewrite <- Hdir. apply in_map.
    apply (LocalFacts.lookup_some_listed _ _ _ Hlook).
    rewrite Hpre. apply LocalFacts.starts_with_app.
  - intros l Hin. rewrite Hlinks4 in Hin. apply filter_In in Hin as [Hin Htag].
    rewrite Hlinks3 in Hin. apply filter_In in Hin as [_ Hres].
    apply negb_true_iff in Htag, Hres. split.
    + intros t Ht Hp E.
      assert (crud.mem_nat (link_tag l)
                (map tag_id (filter (fun t => str_eqb (tag_project_id t) project_id)
                                    (tags (db w3)))) = true) as Hmem.
      { apply LocalFacts.mem_nat_in. rewrite E. apply in_map. apply filter_In.
        rewrite Htags3, Hdb2, Hdb1. split; [exact Ht|]. now apply str_eqb_eq. }
      congruence.
    + intros r Hr Hid E.
      assert (crud.mem_nat (link_result l)
                (map result_id
                     (filter (fun r => crud.mem_str (result_object_id r) object_ids)
                             (results (db w2)))) = true) as Hmem.
      { apply LocalFacts.mem_nat_in. rewrite E. apply in_map. apply filter_In.
        rewrite Hdb2, Hdb1. split; [exact Hr|]. now apply LocalFacts.mem_str_in. }
      congruence.
  - rewrite Htr4, Htr3, Htr2, Htr1, <- !app_assoc. reflexivity.
Qed.

Lemma delete_local_results_purges_witness :
  let settings := mkSettings (py "hub-adapter") in
  let core_client := mkCoreClient (fun _ => None) (fun _ => None) (fun _ => None) in
  let w :=
    mkWorld (mkDb [mkResult 1 (py "an1") (py "o1") (py "r.csv")]
                  [mkTag 1 (py "t1") (py "p1")]
                  [mkTaggedResult 1 1 1] 2 2 2)
            [(py "local/p1/o1", mkObject [1]%N (py "text/csv"));
             (py "local/p1/o2", mkObject [2]%N (py "text/csv"));
             (py "local/p2/o3", mkObject [3]%N (py "text/csv"))]
            [] [] in
  let listed := Minio.names_under (local.project_prefix (py "p1")) (objects w) in
  let object_ids := map (last_segment 47%N) listed in
  let run := local.delete_local_results settings core_client (py "p1")
                                        (py "hub-adapter") w in
  (outages w = [] -> fst run = Return tt)
  /\ (fst run = Return tt ->
      Minio.names_under (local.project_prefix (py "p1")) (objects (snd run)) = []
      /\ (forall t, In t (tags (db (snd run))) -> tag_project_id t <> py "p1")
      /\ (forall r, In r (results (db (snd run))) ->
                    ~ In (result_object_id r) object_ids
                    /\ (existsb (N.eqb 47%N) (result_object_id r) = false ->
                        Minio.lookup (local.object_name (py "p1") (result_object_id r))
                                     (objects w) = None))
      /\ (forall l, In l (tagged_results (db (snd run))) ->
                    (forall t, In t (tags (db w)) -> tag_project_id t = py "p1" ->
                               link_tag l <> tag_id t)
                    /\ (forall r, In r (results (db w)) ->
                                  In (result_object_id r) object_ids ->
                                  link_result l <> result_id r))
      /\ trace (snd run)
         = trace w ++ map ObjectRemove listed
                   ++ [DeleteResults object_ids; DeleteTags (py "p1")]).
Proof.
  intros settings core_client w.
  apply (@delete_local_results_purges settings core_client (py "p1")
           (py "hub-adapter") w); reflexivity.
Defined.

(** ** The retrieval pipeline *)

(** C2.  When decryption is requested under a peer key and the first unit of
    the stored object's stream fails authentication, the request fails with
    the 400 "cannot be decrypted" error and no byte is delivered. *)
Theorem precheck_failure_delivers_nothing
        (PrivateKey PublicKey : Type)
        (load_ecdh_public_key_from_hex_string : str -> outcome PublicKey)
        (decrypt_default : PrivateKey -> PublicKey -> bytes -> outcome bytes)
        (core_client : CoreClient) (storage_client : StorageClient)
        (private_key : PrivateKey) (object_id node_id : str)
        (file : BucketFile) (first_unit : bytes) (rest : list bytes)
        (node : Node) (hex : str) (peer : PublicKey) :
  get_bucket_file storage_client object_id = Some file ->
  stream_bucket_file storage_client object_id = first_unit :: rest ->
  get_node core_client node_id = Some node ->
  node_public_key node = Some hex ->
  load_ecdh_public_key_from_hex_string hex = Return peer ->
  decrypt_default private_key peer first_unit = Raise InvalidTag ->
  let response :=
    intermediate.retrieve_intermediate_result_from_hub
      load_ecdh_public_key_from_hex_string decrypt_default
      core_client storage_client private_key object_id (Some node_id) in
  response = Raise (HTTPException HTTP_400_BAD_REQUEST
                      (DecryptionNotPossible object_id node_id))
  /\ intermediate.delivered response = [].
Proof.
  intros Hfile Hstream Hnode Hkey Hload Hdec response.
  assert (response = Raise (HTTPException HTTP_400_BAD_REQUEST
                              (DecryptionNotPossible object_id node_id))) as ->.
  { subst response. unfold intermediate.retrieve_intermediate_result_from_hub.
    rewrite Hfile, Hstream. simpl.
    unfold intermediate.get_remote_node_public_key.
    rewrite Hnode, Hkey, Hload. simpl. now rewrite Hdec. }
  split; reflexivity.
Qed.

Lemma precheck_failure_delivers_nothing_witness :
  let load := fun _ : str => Return 7%N in
  let decrypt := fun (_ _ : N) (_ : bytes) => @Raise bytes InvalidTag in
  let core_client :=
    mkCoreClient (fun _ => None) (fun _ => None)
                 (fun _ => Some (mkNode (Some (py "04ab")))) in
  let storage_client :=
    mkStorageClient (fun _ => Some (mkBucketFile (py "r.bin")))
                    (fun _ => [[1; 2; 3]; [4; 5; 6]]%N) in
  let response :=
    intermediate.retrieve_intermediate_result_from_hub
      load decrypt core_client storage_client 3%N (py "o1") (Some (py "n1")) in
  response = Raise (HTTPException HTTP_400_BAD_REQUEST
                      (DecryptionNotPossible (py "o1") (py "n1")))
  /\ intermediate.delivered response = [].
Proof.
  intros load decrypt core_client storage_client.
  apply (@precheck_failure_delivers_nothing N N load decrypt core_client storage_client
           3%N (py "o1") (py "n1") (mkBucketFile (py "r.bin"))
           [1; 2; 3]%N [[4; 5; 6]%N] (mkNode (Some (py "04ab"))) (py "04ab") 7%N);
    reflexivity.
Defined.

(** C10.  The pre-check takes the first unit without a guard: for an
    existing object whose stream yields no chunk, a fetch with decryption
    requested ends in the uncaught end-of-stream exception, whatever the
    node id, and so in none of NotFound, the decryption error or an empty
    stream; and the decryption error can only be the answer when the stream
    has a first chunk. *)
Theorem precheck_needs_first_chunk
        (PrivateKey PublicKey : Type)
        (load_ecdh_public_key_from_hex_string : str -> outcome PublicKey)
        (decrypt_default : PrivateKey -> PublicKey -> bytes -> outcome bytes)
        (core_client : CoreClient) (storage_client : StorageClient)
        (private_key : PrivateKey) (object_id : str) :
  let fetch :=
    intermediate.retrieve_intermediate_result_from_hub
      load_ecdh_public_key_from_hex_string decrypt_default
      core_client storage_client private_key object_id in
  (forall (file : BucketFile) (node_id : str),
      get_bucket_file storage_client object_id = Some file ->
      stream_bucket_file storage_client object_id = [] ->
      fetch (Some node_id) = Raise StopIteration)
  /\ (forall (node_id : option str) (node : str),
         fetch node_id = Raise (HTTPException HTTP_400_BAD_REQUEST
                                  (DecryptionNotPossible object_id node)) ->
         stream_bucket_file storage_client object_id <> []).
Proof.
  intros fetch. subst fetch.
  unfold intermediate.retrieve_intermediate_result_from_hub. split.
  - intros file node_id Hfile Hstream. now rewrite Hfile, Hstream.
  - intros node_id node Hfetch Hstream. rewrite Hstream in Hfetch.
    destruct (get_bucket_file storage_client object_id); [|discriminate].
    destruct node_id; discriminate.
Qed.

Lemma precheck_needs_first_chunk_witness :
  let load := fun _ : str => Return 7%N in
  let decrypt := fun (_ _ : N) (unit : bytes) => Return unit in
  let core_client :=
    mkCoreClient (fun _ => None) (fun _ => None)
                 (fun _ => Some (mkNode (Some (py "04ab")))) in
  let storage_client :=
    mkStorageClient (fun _ => Some (mkBucketFile (py "empty.bin"))) (fun _ => []) in
  intermediate.retrieve_intermediate_result_from_hub
    load decrypt core_client storage_client 3%N (py "o1") (Some (py "n1"))
  = Raise StopIteration.
Proof.
  intros load decrypt core_client storage_client.
  apply (proj1 (@precheck_needs_first_chunk N N load decrypt core_client storage_client
                  3%N (py "o1")) (mkBucketFile (py "empty.bin")) (py "n1"));
    reflexivity.
Defined.

(** ** The codec *)

(** C8.  Round trip: for an authenticated cipher whose tag has the fixed
    width and whose opening undoes its sealing under nonces of the fixed
    width, whenever both sides derive the same key, decrypting under the
    receiver's derived key the unit that [encryptUnit] produced for [P]
    under the sender's derived key gives back exactly [P]; the routers'
    [decrypt_default] and [encrypt_default] compose in the same way. *)
Theorem encrypt_decrypt_round_trip
        (PrivateKey PublicKey SharedSecret SymmetricKey : Type)
        (ecdh_exchange : PrivateKey -> PublicKey -> SharedSecret)
        (kdf : SharedSecret -> SymmetricKey)
        (nonce_len tag_len : nat)
        (aead_seal : SymmetricKey -> bytes -> bytes -> bytes * bytes)
        (aead_open : SymmetricKey -> bytes -> bytes -> bytes -> option bytes) :
  (forall key nonce plaintext,
      List.length (snd (aead_seal key nonce plaintext)) = tag_len) ->
  (forall key nonce plaintext,
      List.length nonce = nonce_len ->
      aead_open key nonce (fst (aead_seal key nonce plaintext))
                (snd (aead_seal key nonce plaintext)) = Some plaintext) ->
  forall (A_priv : PrivateKey) (A_pub : PublicKey)
         (B_priv : PrivateKey) (B_pub : PublicKey) (nonce P : bytes),
    List.length nonce = nonce_len ->
    crypto.deriveSharedKey ecdh_exchange kdf A_priv B_pub
    = crypto.deriveSharedKey ecdh_exchange kdf B_priv A_pub ->
    crypto.decryptUnit nonce_len tag_len aead_open
      (crypto.deriveSharedKey ecdh_exchange kdf B_priv A_pub)
      (crypto.encryptUnit aead_seal
         (crypto.deriveSharedKey ecdh_exchange kdf A_priv B_pub) nonce P)
    = Some P
    /\ crypto.decrypt_default ecdh_exchange kdf nonce_len tag_len aead_open B_priv A_pub
         (crypto.encrypt_default ecdh_exchange kdf aead_seal A_priv B_pub nonce P)
       = Return P.
Proof.
  intros Htag Hopen A_priv A_pub B_priv B_pub nonce P Hnonce Hsym.
  assert (crypto.decryptUnit nonce_len tag_len aead_open
            (crypto.deriveSharedKey ecdh_exchange kdf B_priv A_pub)
            (crypto.encryptUnit aead_seal
               (crypto.deriveSharedKey ecdh_exchange kdf A_priv B_pub) nonce P)
          = Some P) as Hunit.
  { rewrite Hsym. unfold crypto.decryptUnit, crypto.encryptUnit.
    set (key := crypto.deriveSharedKey ecdh_exchange kdf B_priv A_pub).
    specialize (Htag key nonce P). specialize (Hopen key nonce P Hnonce).
    destruct (aead_seal key nonce P) as [ciphertext tag]. simpl in Htag, Hopen.
    subst nonce_len tag_len.
    assert ((List.length (nonce ++ ciphertext ++ tag)
             <? List.length nonce + List.length tag) = false) as ->.
    { apply Nat.ltb_ge. rewrite !length_app. lia. }
    assert (firstn (List.length nonce) (nonce ++ ciphertext ++ tag) = nonce) as ->.
    { rewrite firstn_app, firstn_all, Nat.sub_diag. simpl. apply app_nil_r. }
    assert (skipn (List.length nonce) (nonce ++ ciphertext ++ tag) = ciphertext ++ tag)
      as ->.
    { rewrite skipn_app, skipn_all, Nat.sub_diag. reflexivity. }
    rewrite length_app, Nat.add_sub.
    assert (firstn (List.length ciphertext) (ciphertext ++ tag) = ciphertext) as ->.
    { rewrite firstn_app, firstn_all, Nat.sub_diag. simpl. apply app_nil_r. }
    assert (skipn (List.length ciphertext) (ciphertext ++ tag) = tag) as ->.
    { rewrite skipn_app, skipn_all, Nat.sub_diag. reflexivity. }
    exact Hopen. }
  split; [exact Hunit|].
  unfold crypto.decrypt_default, crypto.encrypt_default. now rewrite Hunit.
Qed.

Lemma example_codec_opens_what_it_seals (key : N) (nonce plaintext : bytes) :
  ExampleCodec.open key nonce (fst (ExampleCodec.seal key nonce plaintext))
                    (snd (ExampleCodec.seal key nonce plaintext)) = Some plaintext.
Proof.
  unfold ExampleCodec.open, ExampleCodec.seal. simpl.
  rewrite N.eqb_refl. simpl. f_equal. rewrite map_map.
  rewrite <- (map_id plaintext) at 2. apply map_ext. intros b.
  now rewrite <- N.lxor_assoc, N.lxor_nilpotent, N.lxor_0_l.
Qed.

Lemma encrypt_decrypt_round_trip_witness :
  crypto.decryptUnit 2 1 ExampleCodec.open
    (crypto.deriveSharedKey ExampleCodec.exchange ExampleCodec.derive 5%N 3%N)
    (crypto.encryptUnit ExampleCodec.seal
       (crypto.deriveSharedKey ExampleCodec.exchange ExampleCodec.derive 3%N 5%N)
       [9; 9]%N [104; 105]%N)
  = Some [104; 105]%N
  /\ crypto.decrypt_default ExampleCodec.exchange ExampleCodec.derive 2 1
       ExampleCodec.open 5%N 3%N
       (crypto.encrypt_default ExampleCodec.exchange ExampleCodec.derive
          ExampleCodec.seal 3%N 5%N [9; 9]%N [104; 105]%N)
     = Return [104; 105]%N.
Proof.
  apply (@encrypt_decrypt_round_trip N N N N ExampleCodec.exchange ExampleCodec.derive
           2 1 ExampleCodec.seal ExampleCodec.open).
  - intros. reflexivity.
  - intros. apply example_codec_opens_what_it_seals.
  - reflexivity.
  - reflexivity.
Defined.

(** ** The repository's tests, replayed on the model *)

Module Replayed.

Import TagGrammar local fixtures.

Example test_is_valid_tag :
  forallb (fun case => Bool.eqb (is_valid_tag (fst case)) (snd case)) _tag_test_cases
  = true.
Proof. reflexivity. Qed.

(** [test_200_submit_receive_from_local]: an untagged upload stores one
    object, writes no ledger row, and the object reads back. *)
Example test_200_submit_receive_from_local :
  let uploaded :=
    submit_intermediate_result_to_local hub (py "an1") blob None (py "o1") fresh in
  fst uploaded = Return (py "o1")
  /\ db (snd uploaded) = empty_db
  /\ Minio.names_under (project_prefix (py "p1")) (objects (snd uploaded))
     = [py "local/p1/o1"]
  /\ fst (retrieve_intermediate_result_from_local hub (py "an1") (py "o1") (snd uploaded))
     = Return [7; 8; 9]%N.
Proof. vm_compute. repeat split. Qed.

(** [test_404_unknown_oid] and [test_404_result_from_another_project] *)
Example test_404_unknown_oid :
  let uploaded :=
    submit_intermediate_result_to_local hub (py "an1") blob None (py "o1") fresh in
  fst (retrieve_intermediate_result_from_local hub (py "an1") (py "o9") (snd uploaded))
  = Raise (HTTPException HTTP_404_NOT_FOUND (ObjectNotFound (py "o9")))
  /\ fst (retrieve_intermediate_result_from_local hub (py "an2") (py "o1") (snd uploaded))
     = Raise (HTTPException HTTP_404_NOT_FOUND (ObjectNotFound (py "o1"))).
Proof. vm_compute. repeat split. Qed.

(** [test_tag_existing_object]: tagging a stored object, the same request
    once more, and then the request with another filename. *)
Example test_tag_existing_object :
  let stored :=
    snd (submit_intermediate_result_to_local hub (py "an1") blob None (py "o1") fresh) in
  let tag_as := create_object_tag hub (py "t1") (py "o1") (py "an1") in
  let tagged := tag_as (Some (py "a.csv")) stored in
  let again := tag_as (Some (py "a.csv")) (snd tagged) in
  let other := tag_as (Some (py "b.csv")) (snd again) in
  fst tagged = Return (py "a.csv")
  /\ fst again = Return (py "a.csv")
  /\ db (snd again) = db (snd tagged)
  /\ fst other = Raise (HTTPException HTTP_400_BAD_REQUEST
                          (FilenameConflict (py "o1") (py "an1") (py "b.csv")))
  /\ db (snd other) = db (snd tagged).
Proof. vm_compute. repeat split. Qed.

(** [test_403_delete_results] and [test_400_delete_results]: nothing is
    deleted. *)
Example test_403_400_delete_results :
  let stored :=
    snd (submit_intermediate_result_to_local hub (py "an2") blob (Some (py "t1"))
                                             (py "o1") fresh) in
  let stranger := delete_local_results settings hub (py "p2") (py "someone") stored in
  let too_early := delete_local_results settings hub (py "p2") (py "hub-adapter") stored in
  fst stranger = Raise (HTTPException HTTP_403_FORBIDDEN (NotHubAdapter (py "someone")))
  /\ snd stranger = stored
  /\ fst too_early
     = Raise (HTTPException HTTP_400_BAD_REQUEST (ProjectStillOnHub (py "p2")))
  /\ snd too_early = stored.
Proof. vm_compute. repeat split. Qed.

(** [test_200_delete_tagged_results]: a tagged upload, then the purge of its
    project once the hub no longer has it. *)
Example test_200_delete_tagged_results :
  let gone := mkCoreClient (get_analysis hub) (fun _ => None) (get_node hub) in
  let stored :=
    snd (submit_intermediate_result_to_local hub (py "an1") blob (Some (py "t1"))
                                             (py "o1") fresh) in
  let purged := delete_local_results settings gone (py "p1") (py "hub-adapter") stored in
  fst purged = Return tt
  /\ Minio.names_under (project_prefix (py "p1")) (objects (snd purged)) = []
  /\ results (db (snd purged)) = []
  /\ tags (db (snd purged)) = []
  /\ tagged_results (db (snd purged)) = [].
Proof. vm_compute. repeat split. Qed.

End Replayed.

(** * The other handlers, and how the handlers compose *)

Module HandlerFacts.

Import crud local.

Lemma untouched_refl (w : World) : untouched w w.
Proof. now repeat split. Qed.

Lemma untouched_trans (w w1 w2 : World) :
  untouched w w1 -> untouched w1 w2 -> untouched w w2.
Proof.
  unfold untouched. intros (A & B & C) (A' & B' & C').
  repeat split; congruence.
Qed.

Lemma with_db_same (w w' : World) : db w' = db w -> with_db w' (db w) = w'.
Proof. intros <-. now destruct w'. Qed.

(** A transaction that only reads is its body. *)
Lemma bind_to_reading {A} (body : M A) (w : World) :
  db (snd (body w)) = db w -> bind_to body w = body w.
Proof.
  unfold bind_to. destruct (body w) as [[a|e] w']; simpl; [reflexivity|].
  intros H. now rewrite (@with_db_same w w' H).
Qed.

Lemma round_trip_reads (e : exn) (w : World) : db (snd (round_trip e w)) = db w.
Proof.
  destruct (round_trip_cases e w) as [(_ & w1 & E & A & _) | (_ & w1 & E & A & _)];
    now rewrite E.
Qed.

Lemma Tag_select_reads (project_id : str) (w : World) :
  db (snd (queries.Tag_select_where_project_id project_id w)) = db w.
Proof.
  unfold queries.Tag_select_where_project_id, bind.
  pose proof (round_trip_reads OperationalError w) as H.
  destruct (round_trip OperationalError w) as [[[]|e] w1]; exact H.
Qed.

Lemma Result_select_by_tag_reads (project_id name : str) (w : World) :
  db (snd (queries.Result_select_by_tag project_id name w)) = db w.
Proof.
  unfold queries.Result_select_by_tag, bind.
  pose proof (round_trip_reads OperationalError w) as H.
  destruct (round_trip OperationalError w) as [[[]|e] w1]; exact H.
Qed.

Lemma Result_get_reads (object_id client_id : str) (w : World) :
  db (snd (Result_get object_id client_id w)) = db w.
Proof.
  unfold Result_get, bind.
  pose proof (round_trip_reads OperationalError w) as H.
  destruct (round_trip OperationalError w) as [[[]|e] w1]; [|exact H].
  destruct (find _ (results (db w1))); exact H.
Qed.

(** The lookup of the filename in [upload_local_file] only reads. *)
Lemma filename_lookup_reads (object_id client_id : str) (w : World) :
  db (snd ((n <- queries.Result_count object_id client_id ;;
            if n =? 1 then
              result <- Result_get object_id client_id ;;
              ret (result_filename result)
            else ret object_id) w)) = db w.
Proof.
  unfold queries.Result_count, bind at 1. unfold bind at 1.
  pose proof (round_trip_reads OperationalError w) as H.
  destruct (round_trip OperationalError w) as [[[]|e] w1]; [|exact H].
  simpl in H. destruct (List.length _ =? 1); [|exact H].
  unfold bind, ret. pose proof (Result_get_reads object_id client_id w1) as H1.
  destruct (Result_get object_id client_id w1) as [[r|e] w2]; simpl in *; congruence.
Qed.

Lemma project_id_known (core_client : CoreClient) (analysis_id : str)
      (a : Analysis) (w : World) :
  get_analysis core_client analysis_id = Some a ->
  _get_project_id_for_analysis_or_raise core_client analysis_id w
  = (Return (analysis_project_id a), w).
Proof. unfold _get_project_id_for_analysis_or_raise. now intros ->. Qed.

Lemma project_id_unknown (core_client : CoreClient) (analysis_id : str) (w : World) :
  get_analysis core_client analysis_id = None ->
  _get_project_id_for_analysis_or_raise core_client analysis_id w
  = (Raise (HTTPException HTTP_404_NOT_FOUND (AnalysisNotFound analysis_id)), w).
Proof. unfold _get_project_id_for_analysis_or_raise. now intros ->. Qed.

(** The three ways [_get_object_from_s3] ends. *)
Lemma get_object_from_s3_cases (project_id object_id client_id : str) (w : World) :
  exists w1,
    untouched w w1
    /\ (outages w = [] -> w1 = w)
    /\ _get_object_from_s3 project_id object_id client_id w
       = if next_fails w then
           (Raise (HTTPException HTTP_502_BAD_GATEWAY UnexpectedObjectStoreError), w1)
         else
           match Minio.lookup (object_name project_id object_id) (objects w) with
           | Some o => (Return o, w1)
           | None =>
               (Raise (HTTPException HTTP_404_NOT_FOUND (ObjectNotFound object_id)), w1)
           end.
Proof.
  unfold _get_object_from_s3, try_except, Minio.get_object, bind.
  destruct (round_trip_cases (S3Error Minio.InternalError) w)
    as [(Hf & w1 & E & A & B & C) | (Hf & w1 & E & A & B & C & D)];
    rewrite E, Hf; exists w1.
  - split; [now repeat split|]. split.
    + intros Hall. store_answers.
    + reflexivity.
  - split; [now repeat split|]. split; [exact D|].
    rewrite B. destruct (Minio.lookup _ (objects w)); reflexivity.
Qed.

Lemma lookup_put_other (name other : str) (o : StoredObject)
      (os : list (str * StoredObject)) :
  other <> name ->
  Minio.lookup other (Minio.without name os ++ [(name, o)]) = Minio.lookup other os.
Proof.
  intros Hne. unfold Minio.lookup, Minio.without. f_equal.
  induction os as [|[k v] os IH]; simpl.
  - destruct (str_eqb name other) eqn:E; [|reflexivity].
    apply str_eqb_eq in E. congruence.
  - destruct (str_eqb k name) eqn:E; simpl.
    + apply str_eqb_eq in E. subst k.
      destruct (str_eqb name other) eqn:E'; [|exact IH].
      apply str_eqb_eq in E'. congruence.
    + destruct (str_eqb k other); [reflexivity | exact IH].
Qed.

Lemma lookup_without_other (name other : str) (os : list (str * StoredObject)) :
  other <> name ->
  Minio.lookup other (Minio.without name os) = Minio.lookup other os.
Proof.
  intros Hne. unfold Minio.lookup, Minio.without. f_equal.
  induction os as [|[k v] os IH]; simpl; [reflexivity|].
  destruct (str_eqb k name) eqn:E; simpl.
  - apply str_eqb_eq in E. subst k.
    destruct (str_eqb name other) eqn:E'; [|exact IH].
    apply str_eqb_eq in E'. congruence.
  - destruct (str_eqb k other); [reflexivity | exact IH].
Qed.

Lemma object_name_project (project_id project_id' object_id : str) :
  object_name project_id object_id = object_name project_id' object_id ->
  project_id = project_id'.
Proof.
  unfold object_name. intros H.
  apply app_inv_head in H.
  rewrite !app_assoc in H. apply app_inv_tail in H.
  now apply app_inv_tail in H.
Qed.

End HandlerFacts.

Module UploadFacts.

Import crud local HandlerFacts.

(** [submit_intermediate_result_to_local] for a known analysis, step by
    step. *)
Lemma submit_local_known (core_client : CoreClient) (client_id : str)
      (file : UploadFile) (tag : option str) (fresh_object_id : str) (w : World)
      (a : Analysis) :
  get_analysis core_client client_id = Some a ->
  submit_intermediate_result_to_local core_client client_id file tag fresh_object_id w
  = match match tag with
          | Some t => tag_object t (analysis_project_id a) client_id fresh_object_id
                                 (file_filename file) w
          | None => (Return tt, w)
          end with
    | (Return _, w1) =>
        match Minio.put_object (object_name (analysis_project_id a) fresh_object_id)
                               (file_content file)
                               (str_or (file_content_type file) octet_stream) w1 with
        | (Return _, w2) => (Return fresh_object_id, w2)
        | (Raise e, w2) => (Raise e, w2)
        end
    | (Raise e, w1) => (Raise e, w1)
    end.
Proof.
  intros Ha. unfold submit_intermediate_result_to_local, bind at 1.
  rewrite (@project_id_known _ _ _ w Ha). unfold bind, ret.
  destruct tag as [t|]; [|reflexivity].
  destruct (tag_object t _ _ _ _ w) as [[[]|e] w1]; reflexivity.
Qed.

(** A successful local upload leaves the object under the uploader's
    project and the fresh id, and returns that id. *)
Lemma submit_local_stored (core_client : CoreClient) (client_id : str)
      (file : UploadFile) (tag : option str) (fresh_object_id : str)
      (w w1 : World) (object_id : str) (a : Analysis) :
  get_analysis core_client client_id = Some a ->
  submit_intermediate_result_to_local core_client client_id file tag fresh_object_id w
  = (Return object_id, w1) ->
  object_id = fresh_object_id
  /\ Minio.lookup (object_name (analysis_project_id a) fresh_object_id) (objects w1)
     = Some (mkObject (file_content file)
                      (str_or (file_content_type file) octet_stream))
  /\ forall other,
      other <> object_name (analysis_project_id a) fresh_object_id ->
      Minio.lookup other (objects w1) = Minio.lookup other (objects w).
Proof.
  intros Ha. rewrite (@submit_local_known _ _ file tag fresh_object_id w _ Ha).
  assert (Htag : forall out wt,
             match tag with
             | Some t => tag_object t (analysis_project_id a) client_id fresh_object_id
                                    (file_filename file) w
             | None => (Return tt, w)
             end = (out, wt) -> objects wt = objects w).
  { intros out wt E. destruct tag as [t|].
    - pose proof (LocalFacts.tag_object_writes t (analysis_project_id a) client_id
                    fresh_object_id (file_filename file) w) as H.
      cbv zeta in H. rewrite E in H. simpl in H. tauto.
    - now inversion E. }
  destruct (match tag with Some _ => _ | None => _ end) as [[[]|e] wt] eqn:E;
    [|discriminate].
  specialize (Htag _ _ eq_refl).
  unfold Minio.put_object, bind.
  destruct (round_trip_cases (S3Error Minio.InternalError) wt)
    as [(Hf & w2 & E2 & A & B & C) | (Hf & w2 & E2 & A & B & C & D)];
    rewrite E2; [discriminate|].
  intros H. inversion H; subst. simpl.
  split; [reflexivity|]. split.
  - apply LocalFacts.lookup_put.
  - intros other Hne. rewrite (@lookup_put_other _ _ _ _ Hne). congruence.
Qed.

End UploadFacts.

(** X1.  What a local upload stored can be read back: after a successful
    [PUT /local], a [GET /local/{object_id}] with the returned id, by any
    analysis of the uploader's project, finds the store answering and
    returns exactly the uploaded bytes, and it leaves the stores as they
    were. *)
Theorem local_upload_read_back
        (core_client : CoreClient) (client_id reader_id : str) (file : UploadFile)
        (tag : option str) (fresh_object_id object_id : str) (w w1 : World) :
  option_map analysis_project_id (get_analysis core_client reader_id)
  = option_map analysis_project_id (get_analysis core_client client_id) ->
  local.submit_intermediate_result_to_local core_client client_id file tag
                                            fresh_object_id w
  = (Return object_id, w1) ->
  next_fails w1 = false ->
  exists w2,
    local.retrieve_intermediate_result_from_local core_client reader_id object_id w1
    = (Return (file_content file), w2)
    /\ untouched w1 w2.
Proof.
  intros Hsame Hput Hok.
  destruct (get_analysis core_client client_id) as [a|] eqn:Ha.
  2:{ unfold local.submit_intermediate_result_to_local, bind in Hput.
      rewrite (@HandlerFacts.project_id_unknown _ _ w Ha) in Hput. discriminate. }
  destruct (get_analysis core_client reader_id) as [a'|] eqn:Ha'; [|discriminate].
  simpl in Hsame. injection Hsame as Hsame.
  destruct (@UploadFacts.submit_local_stored _ _ _ _ _ _ _ _ _ Ha Hput) as (-> & Hlook & _).
  unfold local.retrieve_intermediate_result_from_local, bind.
  rewrite (@HandlerFacts.project_id_known _ _ _ w1 Ha'), Hsame.
  destruct (HandlerFacts.get_object_from_s3_cases (analysis_project_id a)
              fresh_object_id reader_id w1) as (w2 & Hun & _ & E).
  rewrite Hok, Hlook in E. rewrite E. exists w2. split; [reflexivity | exact Hun].
Qed.

Lemma local_upload_read_back_witness :
  exists w2,
    local.retrieve_intermediate_result_from_local
      fixtures.hub (py "an1") (py "o1")
      (snd (local.submit_intermediate_result_to_local
              fixtures.hub (py "an1") fixtures.blob (Some (py "t1")) (py "o1")
              fixtures.fresh))
    = (Return [7; 8; 9]%N, w2)
    /\ untouched (snd (local.submit_intermediate_result_to_local
                         fixtures.hub (py "an1") fixtures.blob (Some (py "t1"))
                         (py "o1") fixtures.fresh)) w2.
Proof.
  apply (@local_upload_read_back fixtures.hub (py "an1") (py "an1") fixtures.blob
           (Some (py "t1")) (py "o1") (py "o1") fixtures.fresh).
  - reflexivity.
  - reflexivity.
  - reflexivity.
Defined.

(** X2.  Retrieval is scoped to the caller's project: an object that an
    analysis of one project uploaded is a 404 for an analysis of another
    project that asks for the same object id, unless that project already
    had an object of this id. *)
Theorem local_retrieval_is_project_scoped
        (core_client : CoreClient) (client_id reader_id : str) (file : UploadFile)
        (tag : option str) (fresh_object_id object_id : str) (w w1 : World)
        (a a' : Analysis) :
  get_analysis core_client client_id = Some a ->
  get_analysis core_client reader_id = Some a' ->
  analysis_project_id a' <> analysis_project_id a ->
  Minio.lookup (local.object_name (analysis_project_id a') fresh_object_id) (objects w)
  = None ->
  local.submit_intermediate_result_to_local core_client client_id file tag
                                            fresh_object_id w
  = (Return object_id, w1) ->
  next_fails w1 = false ->
  exists w2,
    local.retrieve_intermediate_result_from_local core_client reader_id object_id w1
    = (Raise (HTTPException HTTP_404_NOT_FOUND (ObjectNotFound object_id)), w2)
    /\ untouched w1 w2.
Proof.
  intros Ha Ha' Hne Hfree Hput Hok.
  destruct (@UploadFacts.submit_local_stored _ _ _ _ _ _ _ _ _ Ha Hput) as (-> & _ & Hothers).
  unfold local.retrieve_intermediate_result_from_local, bind.
  rewrite (@HandlerFacts.project_id_known _ _ _ w1 Ha').
  destruct (HandlerFacts.get_object_from_s3_cases (analysis_project_id a')
              fresh_object_id reader_id w1) as (w2 & Hun & _ & E).
  rewrite Hok, Hothers, Hfree in E.
  - rewrite E. exists w2. split; [reflexivity | exact Hun].
  - intros Heq. apply HandlerFacts.object_name_project in Heq. contradiction.
Qed.

Lemma local_retrieval_is_project_scoped_witness :
  exists w2,
    local.retrieve_intermediate_result_from_local
      fixtures.hub (py "an2") (py "o1")
      (snd (local.submit_intermediate_result_to_local
              fixtures.hub (py "an1") fixtures.blob None (py "o1") fixtures.fresh))
    = (Raise (HTTPException HTTP_404_NOT_FOUND (ObjectNotFound (py "o1"))), w2)
    /\ untouched (snd (local.submit_intermediate_result_to_local
                         fixtures.hub (py "an1") fixtures.blob None (py "o1")
                         fixtures.fresh)) w2.
Proof.
  apply (@local_retrieval_is_project_scoped fixtures.hub (py "an1") (py "an2")
           fixtures.blob None (py "o1") (py "o1") fixtures.fresh _
           (mkAnalysis (py "p1")) (mkAnalysis (py "p2"))).
  - reflexivity.
  - reflexivity.
  - discriminate.
  - reflexivity.
  - reflexivity.
  - reflexivity.
Defined.

(** X3.  An upload without a tag never touches the ledger.  When the object
    store answers, the object is stored under [local/{project}/{id}] with
    the uploaded bytes and the content type (or the octet-stream default),
    every other object is as before, and the put is the only write.  When
    the object store does not answer, its [S3Error] leaves the handler as
    it is (it is not turned into an HTTP error) and nothing was written. *)
Theorem untagged_upload_effects
        (core_client : CoreClient) (client_id : str) (file : UploadFile)
        (fresh_object_id : str) (w : World) (a : Analysis) :
  get_analysis core_client client_id = Some a ->
  let name := local.object_name (analysis_project_id a) fresh_object_id in
  let run := local.submit_intermediate_result_to_local
               core_client client_id file None fresh_object_id w in
  db (snd run) = db w
  /\ if next_fails w then
       fst run = Raise (S3Error Minio.InternalError) /\ untouched w (snd run)
     else
       fst run = Return fresh_object_id
       /\ trace (snd run) = trace w ++ [ObjectPut name]
       /\ Minio.lookup name (objects (snd run))
          = Some (mkObject (file_content file)
                           (local.str_or (file_content_type file) local.octet_stream))
       /\ forall other, other <> name ->
                        Minio.lookup other (objects (snd run))
                        = Minio.lookup other (objects w).
Proof.
  intros Ha name run. subst run.
  rewrite (@UploadFacts.submit_local_known _ _ file None fresh_object_id w _ Ha). fold name.
  unfold Minio.put_object, bind.
  destruct (round_trip_cases (S3Error Minio.InternalError) w)
    as [(Hf & w1 & E & A & B & C) | (Hf & w1 & E & A & B & C & D)];
    rewrite E, Hf; simpl.
  - split; [exact A|]. split; [reflexivity|]. now repeat split.
  - split; [exact A|]. split; [reflexivity|]. split; [now rewrite C|]. split.
    + apply LocalFacts.lookup_put.
    + intros other Hne. rewrite (@HandlerFacts.lookup_put_other _ _ _ _ Hne). congruence.
Qed.

Lemma untagged_upload_effects_witness :
  let name := local.object_name (py "p1") (py "o1") in
  let run := local.submit_intermediate_result_to_local
               fixtures.hub (py "an1") fixtures.blob None (py "o1") fixtures.fresh in
  db (snd run) = empty_db
  /\ fst run = Return (py "o1")
  /\ trace (snd run) = [ObjectPut name]
  /\ Minio.lookup name (objects (snd run))
     = Some (mkObject [7; 8; 9]%N local.octet_stream)
  /\ forall other, other <> name ->
                   Minio.lookup other (objects (snd run)) = None.
Proof.
  apply (@untagged_upload_effects fixtures.hub (py "an1") fixtures.blob (py "o1")
           fixtures.fresh (mkAnalysis (py "p1"))).
  reflexivity.
Defined.

(** X4.  Every handler of [/local] that acts for an analysis asks the hub
    for the analysis first: when the hub does not know it, the handler
    raises the 404 that names the analysis before any round trip to the
    ledger or the bucket, whatever else the request carries. *)
Theorem unknown_analysis_is_rejected_first
        (PrivateKey PublicKey : Type)
        (load_ecdh_public_key_from_hex_string : str -> outcome PublicKey)
        (encrypt_default : PrivateKey -> PublicKey -> bytes -> bytes -> bytes)
        (private_key : PrivateKey) (hub : HubBuckets)
        (core_client : CoreClient) (client_id : str) (w : World)
        (file : UploadFile) (tag : option str) (fresh_object_id : str)
        (tag_name object_id : str) (filename remote_node_id : option str)
        (entropy : bytes) :
  get_analysis core_client client_id = None ->
  let rejected {A} : outcome A * World :=
    (Raise (HTTPException HTTP_404_NOT_FOUND (AnalysisNotFound client_id)), w) in
  local.submit_intermediate_result_to_local core_client client_id file tag
                                            fresh_object_id w = rejected
  /\ local.create_object_tag core_client tag_name object_id client_id filename w
     = rejected
  /\ local.retrieve_intermediate_result_from_local core_client client_id object_id w
     = rejected
  /\ local_listing.get_project_tags core_client client_id w = rejected
  /\ local_listing.get_results_by_project_tag core_client tag_name client_id w
     = rejected
  /\ hub_upload.upload_local_file load_ecdh_public_key_from_hex_string encrypt_default
       core_client hub private_key object_id client_id remote_node_id entropy w
     = rejected.
Proof.
  intros Ha rejected. subst rejected.
  unfold local.submit_intermediate_result_to_local, local.create_object_tag,
    local.retrieve_intermediate_result_from_local, local_listing.get_project_tags,
    local_listing.get_results_by_project_tag, hub_upload.upload_local_file, bind.
  rewrite (@HandlerFacts.project_id_unknown _ _ w Ha).
  repeat split.
Qed.

Lemma unknown_analysis_is_rejected_first_witness :
  local.retrieve_intermediate_result_from_local fixtures.hub (py "an3") (py "o1")
                                                fixtures.fresh
  = (Raise (HTTPException HTTP_404_NOT_FOUND (AnalysisNotFound (py "an3"))),
     fixtures.fresh).
Proof.
  refine (proj1 (proj2 (proj2
    (@unknown_analysis_is_rejected_first N N (fun _ => Return 0%N)
       (fun _ _ _ data => data) 0%N (mkHubBuckets (fun _ _ => []) (fun _ => []))
       fixtures.hub (py "an3") fixtures.fresh fixtures.blob None (py "o1") (py "t1")
       (py "o1") None None [] _)))).
  reflexivity.
Defined.

(** X5.  [DELETE /local] is guarded twice, in this order: a caller other
    than the hub adapter gets the 403 without the hub being asked about the
    project; the hub adapter gets a 400 while the hub still has the project.
    Either way nothing was read from or written to the stores. *)
Theorem delete_local_results_guards
        (settings : Settings) (core_client : CoreClient)
        (project_id client_id : str) (w : World) :
  client_id <> hub_adapter_client_id settings
  \/ get_project core_client project_id <> None ->
  local.delete_local_results settings core_client project_id client_id w
  = (Raise (if str_eqb client_id (hub_adapter_client_id settings)
            then HTTPException HTTP_400_BAD_REQUEST (ProjectStillOnHub project_id)
            else HTTPException HTTP_403_FORBIDDEN (NotHubAdapter client_id)),
     w).
Proof.
  intros H. unfold local.delete_local_results.
  destruct (str_eqb client_id (hub_adapter_client_id settings)) eqn:E; simpl.
  - apply str_eqb_eq in E. destruct H as [H|H]; [contradiction|].
    destruct (get_project core_client project_id); [reflexivity | contradiction].
  - reflexivity.
Qed.

Lemma delete_local_results_guards_witness :
  local.delete_local_results fixtures.settings fixtures.hub (py "p2") (py "an1")
                             fixtures.fresh
  = (Raise (HTTPException HTTP_403_FORBIDDEN (NotHubAdapter (py "an1"))),
     fixtures.fresh)
  /\ local.delete_local_results fixtures.settings fixtures.hub (py "p2")
                                (py "hub-adapter") fixtures.fresh
     = (Raise (HTTPException HTTP_400_BAD_REQUEST (ProjectStillOnHub (py "p2"))),
        fixtures.fresh).
Proof.
  split.
  - apply (@delete_local_results_guards fixtures.settings fixtures.hub (py "p2")
             (py "an1") fixtures.fresh).
    left. discriminate.
  - apply (@delete_local_results_guards fixtures.settings fixtures.hub (py "p2")
             (py "hub-adapter") fixtures.fresh).
    right. discriminate.
Defined.

Module PurgeFacts.

Import crud local HandlerFacts.

Lemma listed_under_prefix (prefix name : str) (os : list (str * StoredObject)) :
  In name (Minio.names_under prefix os) -> starts_with prefix name = true.
Proof.
  unfold Minio.names_under. rewrite in_map_iff.
  intros ([k v] & <- & Hin). apply filter_In in Hin. tauto.
Qed.

Lemma lookup_fold_without (listed : list str) :
  forall (os : list (str * StoredObject)) (name : str),
    ~ In name listed ->
    Minio.lookup name (fold_left (fun os name => Minio.without name os) listed os)
    = Minio.lookup name os.
Proof.
  induction listed as [|x listed IH]; intros os name Hnot; simpl; [reflexivity|].
  rewrite IH by (intros Hin; apply Hnot; now right).
  apply lookup_without_other. intros ->. apply Hnot. now left.
Qed.

(** A run of [delete_local_results] that returns went past both guards. *)
Lemma delete_returned (settings : Settings) (core_client : CoreClient)
      (project_id client_id : str) (w w' : World) :
  delete_local_results settings core_client project_id client_id w = (Return tt, w') ->
  client_id = hub_adapter_client_id settings
  /\ get_project core_client project_id = None.
Proof.
  unfold delete_local_results.
  destruct (str_eqb client_id (hub_adapter_client_id settings)) eqn:E; simpl;
    [|discriminate].
  apply str_eqb_eq in E.
  destruct (get_project core_client project_id); [discriminate|]. auto.
Qed.

(** The stores after a run of [delete_local_results] that returned. *)
Lemma delete_returned_stores (settings : Settings) (core_client : CoreClient)
      (project_id client_id : str) (w w' : World) :
  delete_local_results settings core_client project_id client_id w = (Return tt, w') ->
  let listed := Minio.names_under (project_prefix project_id) (objects w) in
  let object_ids := map (last_segment 47%N) listed in
  objects w' = fold_left (fun os name => Minio.without name os) listed (objects w)
  /\ results (db w')
     = filter (fun r => negb (mem_str (result_object_id r) object_ids)) (results (db w))
  /\ tags (db w')
     = filter (fun t => negb (str_eqb (tag_project_id t) project_id)) (tags (db w))
  /\ incl (tagged_results (db w')) (tagged_results (db w)).
Proof.
  intros Hrun listed object_ids.
  destruct (@delete_returned _ _ _ _ _ _ Hrun) as (Hadmin & Hgone).
  rewrite (@LocalFacts.delete_local_results_admitted _ _ _ _ w Hadmin Hgone) in Hrun.
  destruct (LocalFacts.list_objects_cases (project_prefix project_id) w)
    as [(_ & e & w1 & E) | (_ & w1 & E & Hdb1 & Htr1 & Hobj1 & _)];
    rewrite E in Hrun; [discriminate|].
  fold listed in Hrun.
  destruct (remove_listed listed [] w1) as [[ids|e] w2] eqn:E2; [|discriminate].
  destruct (@LocalFacts.remove_listed_done _ _ _ _ _ E2) as (Hids & Hdb2 & _ & Hobj2 & _).
  simpl in Hids. fold object_ids in Hids. subst ids.
  destruct (LocalFacts.Result_delete_cases object_ids w2)
    as [(_ & e & w3 & E3) | (_ & w3 & E3 & Hobj3 & _ & Hres3 & Htags3 & Hlinks3 & _)];
    rewrite E3 in Hrun; [discriminate|].
  destruct (LocalFacts.Tag_delete_cases project_id w3)
    as [(_ & e & w4 & E4) | (_ & w4 & E4 & Hobj4 & _ & Hres4 & Htags4 & Hlinks4)];
    rewrite E4 in Hrun; [discriminate|].
  inversion Hrun; subst w4.
  split; [congruence|]. split; [congruence|]. split; [congruence|].
  rewrite Hlinks4, Hlinks3, Hdb2, Hdb1.
  intros l Hin. apply filter_In in Hin. destruct Hin as (Hin & _).
  apply filter_In in Hin. tauto.
Qed.

End PurgeFacts.

(** X6.  A purge is confined to its project.  After a run of
    [DELETE /local] that returned: every object whose name is not under the
    project's prefix is as before; every Tag row of another project is
    still there; a Result row is gone only if its object id is the last
    path segment of an object that was stored under the prefix; and no row
    of any table was added. *)
Theorem delete_local_results_spares_others
        (settings : Settings) (core_client : CoreClient)
        (project_id client_id : str) (w w' : World) :
  local.delete_local_results settings core_client project_id client_id w
  = (Return tt, w') ->
  (forall name, starts_with (local.project_prefix project_id) name = false ->
                Minio.lookup name (objects w') = Minio.lookup name (objects w))
  /\ (forall t, In t (tags (db w)) -> tag_project_id t <> project_id ->
                In t (tags (db w')))
  /\ (forall r, In r (results (db w)) -> ~ In r (results (db w')) ->
                exists name,
                  In name (Minio.names_under (local.project_prefix project_id)
                                             (objects w))
                  /\ last_segment 47%N name = result_object_id r)
  /\ incl (results (db w')) (results (db w))
  /\ incl (tags (db w')) (tags (db w))
  /\ incl (tagged_results (db w')) (tagged_results (db w)).
Proof.
  intros Hrun.
  destruct (@PurgeFacts.delete_returned_stores _ _ _ _ _ _ Hrun)
    as (Hobj & Hres & Htags & Hlinks).
  split; [|split; [|split; [|split; [|split]]]].
  - intros name Hout. rewrite Hobj. apply PurgeFacts.lookup_fold_without.
    intros Hin. apply PurgeFacts.listed_under_prefix in Hin. congruence.
  - intros t Hin Hne. rewrite Htags. apply filter_In. split; [exact Hin|].
    apply negb_true_iff. now apply str_eqb_neq.
  - intros r Hin Hgone.
    destruct (crud.mem_str (result_object_id r)
                (map (last_segment 47%N)
                     (Minio.names_under (local.project_prefix project_id) (objects w))))
      eqn:E.
    + apply LocalFacts.mem_str_in in E. apply in_map_iff in E.
      destruct E as (name & Hseg & Hlisted). now exists name.
    + exfalso. apply Hgone. rewrite Hres. apply filter_In. split; [exact Hin|].
      now rewrite E.
  - rewrite Hres. intros r Hin. apply filter_In in Hin. tauto.
  - rewrite Htags. intros t Hin. apply filter_In in Hin. tauto.
  - exact Hlinks.
Qed.

Lemma delete_local_results_spares_others_witness :
  let w1 := snd (local.submit_intermediate_result_to_local
                   fixtures.hub (py "an1") fixtures.blob (Some (py "t1")) (py "o1")
                   fixtures.fresh) in
  let w := snd (local.submit_intermediate_result_to_local
                  fixtures.hub (py "an2") fixtures.blob (Some (py "t2")) (py "o2") w1) in
  let w' := snd (local.delete_local_results fixtures.settings fixtures.hub (py "p1")
                                            (py "hub-adapter") w) in
  Minio.lookup (py "local/p1/o1") (objects w) <> None
  /\ Minio.lookup (py "local/p1/o1") (objects w') = None
  /\ Minio.lookup (py "local/p2/o2") (objects w')
     = Minio.lookup (py "local/p2/o2") (objects w)
  /\ In (mkTag 2 (py "t2") (py "p2")) (tags (db w')).
Proof.
  intros w1 w w'.
  destruct (@delete_local_results_spares_others fixtures.settings fixtures.hub
              (py "p1") (py "hub-adapter") w w' eq_refl) as (Hobj & Htags & _).
  split; [discriminate|]. split; [reflexivity|]. split.
  - apply Hobj. reflexivity.
  - apply Htags.
    + right. left. reflexivity.
    + discriminate.
Defined.

Module ListingFacts.

Import crud local local_listing HandlerFacts.

Lemma get_project_tags_cases (core_client : CoreClient) (client_id : str)
      (a : Analysis) (w : World) :
  get_analysis core_client client_id = Some a ->
  exists w1,
    untouched w w1
    /\ get_project_tags core_client client_id w
       = if next_fails w then (Raise OperationalError, w1)
         else (Return (map tag_name
                           (filter (fun t => str_eqb (tag_project_id t)
                                                     (analysis_project_id a))
                                   (tags (db w)))), w1).
Proof.
  intros Ha. unfold get_project_tags, bind.
  rewrite (@project_id_known _ _ _ w Ha). cbv beta iota.
  rewrite (@bind_to_reading _ _ w (Tag_select_reads (analysis_project_id a) w)).
  unfold queries.Tag_select_where_project_id, bind, ret.
  destruct (round_trip_cases OperationalError w)
    as [(Hf & w1 & E & A & B & C) | (Hf & w1 & E & A & B & C & D)];
    rewrite E, Hf; exists w1; (split; [now repeat split|]).
  - reflexivity.
  - now rewrite A.
Qed.

(** The rows that the joins of [get_results_by_project_tag] put together. *)
Lemma in_joined (d : Db) (project_id name : str) (r : ResultRow) :
  In r (flat_map
          (fun r =>
             flat_map
               (fun l =>
                  if Nat.eqb (link_result l) (result_id r) then
                    flat_map
                      (fun t =>
                         if Nat.eqb (link_tag l) (tag_id t)
                            && str_eqb (tag_project_id t) project_id
                            && str_eqb (tag_name t) name
                         then [r] else [])
                      (tags d)
                  else [])
               (tagged_results d))
          (results d))
  <-> In r (results d)
      /\ exists l t,
          In l (tagged_results d) /\ In t (tags d)
          /\ link_result l = result_id r /\ link_tag l = tag_id t
          /\ tag_project_id t = project_id /\ tag_name t = name.
Proof.
  rewrite in_flat_map. split.
  - intros (r' & Hr' & Hin). apply in_flat_map in Hin. destruct Hin as (l & Hl & Hin).
    destruct (Nat.eqb (link_result l) (result_id r')) eqn:E1; [|contradiction].
    apply in_flat_map in Hin. destruct Hin as (t & Ht & Hin).
    destruct (Nat.eqb (link_tag l) (tag_id t) && str_eqb (tag_project_id t) project_id
              && str_eqb (tag_name t) name) eqn:E2; [|contradiction].
    destruct Hin as [<-|[]].
    apply andb_true_iff in E2. destruct E2 as (E2 & E4).
    apply andb_true_iff in E2. destruct E2 as (E2 & E3).
    apply Nat.eqb_eq in E1, E2. apply str_eqb_eq in E3, E4.
    split; [exact Hr'|]. exists l, t. auto 7.
  - intros (Hr & l & t & Hl & Ht & E1 & E2 & E3 & E4).
    exists r. split; [exact Hr|]. apply in_flat_map. exists l. split; [exact Hl|].
    rewrite E1, Nat.eqb_refl. apply in_flat_map. exists t. split; [exact Ht|].
    rewrite E2, Nat.eqb_refl, E3, E4, !str_eqb_refl. now left.
Qed.

Lemma get_results_by_project_tag_cases (core_client : CoreClient)
      (name client_id : str) (a : Analysis) (w : World) :
  get_analysis core_client client_id = Some a ->
  exists w1,
    untouched w w1
    /\ if next_fails w then
         get_results_by_project_tag core_client name client_id w
         = (Raise OperationalError, w1)
       else
         exists listing,
           get_results_by_project_tag core_client name client_id w
           = (Return listing, w1)
           /\ forall filename object_id,
               In (filename, object_id) listing
               <-> exists r l t,
                   In r (results (db w)) /\ In l (tagged_results (db w))
                   /\ In t (tags (db w))
                   /\ link_result l = result_id r /\ link_tag l = tag_id t
                   /\ tag_project_id t = analysis_project_id a /\ tag_name t = name
                   /\ result_filename r = filename /\ result_object_id r = object_id.
Proof.
  intros Ha.
  unfold get_results_by_project_tag, bind.
  rewrite (@project_id_known _ _ _ w Ha). cbv beta iota.
  rewrite (@bind_to_reading _ _ w
             (Result_select_by_tag_reads (analysis_project_id a) name w)).
  unfold queries.Result_select_by_tag, bind, ret.
  destruct (round_trip_cases OperationalError w)
    as [(Hf & w1 & E & A & B & C) | (Hf & w1 & E & A & B & C & D)];
    rewrite E, Hf; exists w1; (split; [now repeat split|]).
  - reflexivity.
  - eexists. split; [reflexivity|]. intros filename object_id.
    rewrite in_map_iff, A. split.
    + intros (r & Heq & Hin). apply in_joined in Hin.
      destruct Hin as (Hr & l & t & Hl & Ht & E1 & E2 & E3 & E4).
      inversion Heq; subst. exists r, l, t. auto 10.
    + intros (r & l & t & Hr & Hl & Ht & E1 & E2 & E3 & E4 & <- & <-).
      exists r. split; [reflexivity|]. apply in_joined.
      split; [exact Hr|]. exists l, t. auto 7.
Qed.

End ListingFacts.

Module TaggingFacts.

Import crud local HandlerFacts.

Lemma Result_get_cases (object_id client_id : str) (w : World) :
  exists w1,
    untouched w w1
    /\ Result_get object_id client_id w
       = if next_fails w then (Raise OperationalError, w1)
         else
           match find (fun r => str_eqb (result_object_id r) object_id
                                && str_eqb (result_client_id r) client_id)
                      (results (db w)) with
           | Some row => (Return row, w1)
           | None => (Raise DoesNotExist, w1)
           end.
Proof.
  unfold Result_get, bind.
  destruct (round_trip_cases OperationalError w)
    as [(Hf & w1 & E & A & B & C) | (Hf & w1 & E & A & B & C & D)];
    rewrite E, Hf; exists w1; (split; [now repeat split|]).
  - reflexivity.
  - rewrite A. destruct (find _ (results (db w))); reflexivity.
Qed.

(** The errors of [tag_object]. *)
Lemma tag_object_raised (tag project_id client_id object_id : str)
      (filename : option str) (w w' : World) (e : exn) :
  tag_object tag project_id client_id object_id filename w = (Raise e, w') ->
  e = HTTPException HTTP_400_BAD_REQUEST (InvalidTagName tag)
  \/ e = HTTPException HTTP_400_BAD_REQUEST
           (FilenameConflict object_id client_id (str_or filename data_bin))
  \/ e = OperationalError.
Proof.
  intros Hrun.
  destruct (TagGrammar.is_valid_tag tag) eqn:Hvalid.
  2:{ rewrite (@TagObjectFacts.tag_object_invalid tag project_id client_id object_id
                 filename w Hvalid) in Hrun. inversion Hrun. now left. }
  rewrite (@TagObjectFacts.tag_object_valid tag project_id client_id object_id
             filename w Hvalid) in Hrun.
  destruct (Result_get_or_create client_id object_id (str_or filename data_bin) w)
    as [[[r rc]|e1] w1] eqn:E1.
  2:{ destruct (@LedgerFacts.Result_step _ _ _ _ _ _ E1) as (_ & _ & _ & _ & H1).
      destruct H1 as (_ & _ & [(-> & _) | (-> & _)]); inversion Hrun; auto. }
  destruct (Tag_get_or_create tag project_id w1) as [[[t tc]|e2] w2] eqn:E2.
  2:{ destruct (@LedgerFacts.Tag_step _ _ _ _ _ E2) as (_ & _ & _ & _ & H2).
      destruct H2 as (_ & _ & -> & _). inversion Hrun; auto. }
  simpl in Hrun.
  destruct (TaggedResult_get_or_create t r w2) as [[[l lc]|e3] w3] eqn:E3;
    [discriminate|].
  destruct (@LedgerFacts.TaggedResult_step _ _ _ _ _ E3) as (_ & _ & _ & _ & H3).
  destruct H3 as (_ & _ & -> & _). inversion Hrun; auto.
Qed.

(** The steps behind a run of [create_object_tag] that returned. *)
Lemma create_object_tag_returned (core_client : CoreClient)
      (tag_name object_id client_id : str) (filename : option str)
      (w w' : World) (stored : str) :
  create_object_tag core_client tag_name object_id client_id filename w
  = (Return stored, w') ->
  exists a w0 wt r,
    get_analysis core_client client_id = Some a
    /\ untouched w w0
    /\ tag_object tag_name (analysis_project_id a) client_id object_id filename w0
       = (Return tt, wt)
    /\ untouched wt w'
    /\ In r (results (db wt))
    /\ result_object_id r = object_id /\ result_client_id r = client_id
    /\ result_filename r = stored.
Proof.
  unfold create_object_tag, bind at 1. intros Hrun.
  destruct (get_analysis core_client client_id) as [a|] eqn:Ha.
  2:{ rewrite (@project_id_unknown _ _ w Ha) in Hrun. discriminate. }
  rewrite (@project_id_known _ _ _ w Ha) in Hrun.
  unfold bind at 1 in Hrun.
  destruct (get_object_from_s3_cases (analysis_project_id a) object_id client_id w)
    as (w0 & Hun0 & _ & E0).
  destruct (_get_object_from_s3 (analysis_project_id a) object_id client_id w)
    as [[o|e] w0'] eqn:Eget; [|discriminate].
  assert (w0' = w0) as ->.
  { destruct (next_fails w); [discriminate|].
    destruct (Minio.lookup _ (objects w)); now inversion E0. }
  unfold bind at 1 in Hrun.
  destruct (tag_object tag_name (analysis_project_id a) client_id object_id filename w0)
    as [[[]|e] wt] eqn:Etag; [|discriminate].
  unfold bind_to, bind, ret in Hrun.
  destruct (Result_get_cases object_id client_id wt) as (w1 & Hun1 & E1).
  rewrite E1 in Hrun.
  destruct (next_fails wt); [discriminate|].
  destruct (find _ (results (db wt))) as [r|] eqn:Efind; [|discriminate].
  inversion Hrun; subst.
  apply find_some in Efind. destruct Efind as (Hin & Hp).
  apply andb_true_iff in Hp. destruct Hp as (Ho & Hc).
  apply str_eqb_eq in Ho, Hc.
  exists a, w0, wt, r. auto 10.
Qed.

End TaggingFacts.

(** X7.  A tag that was set shows in both listings.  After a
    [POST /local/tags] that returned, for any analysis of the same project
    that finds the ledger answering: [GET /local/tags] lists the tag name,
    and [GET /local/tags/{tag_name}] lists the object id with the effective
    filename (the given one, or [data.bin]). *)
Theorem tagged_object_is_listed
        (core_client : CoreClient) (tag_name object_id client_id reader_id : str)
        (filename : option str) (w w1 : World) (stored : str) :
  local.create_object_tag core_client tag_name object_id client_id filename w
  = (Return stored, w1) ->
  option_map analysis_project_id (get_analysis core_client reader_id)
  = option_map analysis_project_id (get_analysis core_client client_id) ->
  next_fails w1 = false ->
  (exists names w2,
      local_listing.get_project_tags core_client reader_id w1 = (Return names, w2)
      /\ In tag_name names)
  /\ (exists listing w2,
         local_listing.get_results_by_project_tag core_client tag_name reader_id w1
         = (Return listing, w2)
         /\ In (local.str_or filename local.data_bin, object_id) listing).
Proof.
  intros Hrun Hsame Hok.
  destruct (@TaggingFacts.create_object_tag_returned _ _ _ _ _ _ _ _ Hrun)
    as (a & w0 & wt & _ & Ha & _ & Htag & (Hdb & _ & _) & _).
  destruct (@TagObjectFacts.tag_object_returned _ _ _ _ _ _ _ Htag)
    as (_ & r & t & l & Hr & Ht & Hl & Hc & Ho & Hf & Hn & Hp & Hlt & Hlr).
  rewrite Ha in Hsame.
  destruct (get_analysis core_client reader_id) as [a'|] eqn:Ha'; [|discriminate].
  simpl in Hsame. injection Hsame as Hsame.
  split.
  - destruct (@ListingFacts.get_project_tags_cases _ _ _ w1 Ha') as (w2 & _ & E).
    rewrite Hok in E. eexists. exists w2. split; [exact E|].
    apply in_map_iff. exists t. split; [exact Hn|].
    apply filter_In. rewrite Hdb. split; [exact Ht|].
    apply str_eqb_eq. congruence.
  - destruct (@ListingFacts.get_results_by_project_tag_cases _ tag_name _ _ w1 Ha')
      as (w2 & _ & E).
    rewrite Hok in E. destruct E as (listing & E & Hlisting).
    exists listing, w2. split; [exact E|].
    apply Hlisting. exists r, l, t. rewrite Hdb.
    repeat (split; [first [assumption | congruence]|]). exact Ho.
Qed.

Lemma tagged_object_is_listed_witness :
  let w := snd (local.submit_intermediate_result_to_local
                  fixtures.hub (py "an1") fixtures.blob None (py "o1")
                  fixtures.fresh) in
  let w1 := snd (local.create_object_tag fixtures.hub (py "t1") (py "o1") (py "an1")
                                         None w) in
  (exists names w2,
      local_listing.get_project_tags fixtures.hub (py "an1") w1 = (Return names, w2)
      /\ In (py "t1") names)
  /\ (exists listing w2,
         local_listing.get_results_by_project_tag fixtures.hub (py "t1") (py "an1") w1
         = (Return listing, w2)
         /\ In (py "data.bin", py "o1") listing).
Proof.
  intros w w1.
  apply (@tagged_object_is_listed fixtures.hub (py "t1") (py "o1") (py "an1")
           (py "an1") None w w1 (py "data.bin")).
  - reflexivity.
  - reflexivity.
  - reflexivity.
Defined.

(** X8.  [POST /local/tags] answers with the effective filename.  On a
    ledger whose unique indices hold, a run that returns, returns the
    filename that was given, or [data.bin] when none or an empty one was
    given; it is the filename of the one Result row of the object. *)
Theorem create_object_tag_returns_effective_filename
        (core_client : CoreClient) (tag_name object_id client_id : str)
        (filename : option str) (w w1 : World) (stored : str) :
  crud.constraints_hold (db w) = true ->
  local.create_object_tag core_client tag_name object_id client_id filename w
  = (Return stored, w1) ->
  stored = local.str_or filename local.data_bin.
Proof.
  intros Hinv Hrun.
  destruct (@TaggingFacts.create_object_tag_returned _ _ _ _ _ _ _ _ Hrun)
    as (a & w0 & wt & r' & Ha & (Hdb0 & _ & _) & Htag & _ & Hr' & Ho' & Hc' & Hf').
  destruct (@TagObjectFacts.tag_object_returned _ _ _ _ _ _ _ Htag)
    as (_ & r & _ & _ & Hr & _ & _ & Hc & Ho & Hf & _).
  pose proof (Invariant.tag_object_keeps tag_name (analysis_project_id a) client_id
                object_id filename w0) as Hkeeps.
  rewrite Htag, Hdb0 in Hkeeps. specialize (Hkeeps Hinv). simpl in Hkeeps.
  apply TagObjectFacts.constraints_hold_parts in Hkeeps.
  destruct Hkeeps as (Hu & _ & _).
  assert (r' = r) as ->.
  { apply (@unique_same_key _ _ crud.result_key str2_eqb str2_eqb_eq
             (results (db wt)) r r' Hu Hr Hr').
    unfold crud.result_key. congruence. }
  congruence.
Qed.

Lemma create_object_tag_returns_effective_filename_witness :
  let w := snd (local.submit_intermediate_result_to_local
                  fixtures.hub (py "an1") fixtures.blob None (py "o1")
                  fixtures.fresh) in
  exists stored w1,
    local.create_object_tag fixtures.hub (py "t1") (py "o1") (py "an1") (Some []) w
    = (Return stored, w1)
    /\ stored = py "data.bin".
Proof.
  intros w.
  pose (run := local.create_object_tag fixtures.hub (py "t1") (py "o1") (py "an1")
                                       (Some []) w).
  exists (py "data.bin"), (snd run). split; [reflexivity|].
  apply (@create_object_tag_returns_effective_filename fixtures.hub (py "t1")
           (py "o1") (py "an1") (Some []) w (snd run) (py "data.bin")).
  - reflexivity.
  - reflexivity.
Defined.

(** X9.  Once the hub has resolved the analysis, [POST /local/tags] works
    on the bucket and the ledger only, and these steps end in one of five
    errors: the 404 for the object, the 502 for an object store that does
    not answer, the 400 for the tag name, the 400 for the filename, and the
    ledger's [OperationalError].  In particular the closing
    [Result.select(..).get()] never raises [DoesNotExist], since the row is
    there once [tag_object] returned, and no [IntegrityError] or [S3Error]
    leaves the handler. *)
Theorem create_object_tag_errors
        (core_client : CoreClient) (tag_name object_id client_id : str)
        (filename : option str) (w w' : World) (e : exn) (a : Analysis) :
  get_analysis core_client client_id = Some a ->
  local.create_object_tag core_client tag_name object_id client_id filename w
  = (Raise e, w') ->
  In e [HTTPException HTTP_404_NOT_FOUND (ObjectNotFound object_id);
        HTTPException HTTP_502_BAD_GATEWAY UnexpectedObjectStoreError;
        HTTPException HTTP_400_BAD_REQUEST (InvalidTagName tag_name);
        HTTPException HTTP_400_BAD_REQUEST
          (FilenameConflict object_id client_id
                            (local.str_or filename local.data_bin));
        OperationalError].
Proof.
  unfold local.create_object_tag, bind at 1. intros Ha Hrun.
  rewrite (@HandlerFacts.project_id_known _ _ _ w Ha) in Hrun.
  unfold bind at 1 in Hrun.
  destruct (HandlerFacts.get_object_from_s3_cases (analysis_project_id a) object_id
              client_id w) as (w0 & _ & _ & E0).
  rewrite E0 in Hrun. clear E0.
  destruct (next_fails w); [inversion Hrun; simpl; auto|].
  destruct (Minio.lookup _ (objects w)); [|inversion Hrun; simpl; auto].
  unfold bind at 1 in Hrun.
  destruct (local.tag_object tag_name (analysis_project_id a) client_id object_id
              filename w0) as [[[]|e1] wt] eqn:Etag.
  2:{ inversion Hrun; subst.
      destruct (@TaggingFacts.tag_object_raised _ _ _ _ _ _ _ _ Etag)
        as [-> | [-> | ->]]; simpl; auto 7. }
  destruct (@TagObjectFacts.tag_object_returned _ _ _ _ _ _ _ Etag)
    as (_ & r & _ & _ & Hr & _ & _ & Hc & Ho & _).
  unfold bind at 1 in Hrun.
  rewrite (@HandlerFacts.bind_to_reading _ _ wt
             (HandlerFacts.Result_get_reads object_id client_id wt)) in Hrun.
  unfold ret in Hrun.
  destruct (TaggingFacts.Result_get_cases object_id client_id wt) as (w1 & _ & E1).
  rewrite E1 in Hrun.
  destruct (next_fails wt); [inversion Hrun; simpl; auto 7|].
  destruct (find _ (results (db wt))) as [row|] eqn:Efind; [discriminate|].
  exfalso. apply (find_none _ _ Efind) in Hr.
  rewrite Hc, Ho, !str_eqb_refl in Hr. discriminate.
Qed.

Lemma create_object_tag_errors_witness :
  In (HTTPException HTTP_404_NOT_FOUND (ObjectNotFound (py "o1")))
     [HTTPException HTTP_404_NOT_FOUND (ObjectNotFound (py "o1"));
      HTTPException HTTP_502_BAD_GATEWAY UnexpectedObjectStoreError;
      HTTPException HTTP_400_BAD_REQUEST (InvalidTagName (py "t1"));
      HTTPException HTTP_400_BAD_REQUEST
        (FilenameConflict (py "o1") (py "an1") (py "data.bin"));
      OperationalError].
Proof.
  apply (@create_object_tag_errors fixtures.hub (py "t1") (py "o1") (py "an1") None
           fixtures.fresh fixtures.fresh _ (mkAnalysis (py "p1"))).
  - reflexivity.
  - reflexivity.
Defined.

Module IndexFacts.

Import crud.

Lemma names_of_a_project_differ (project_id : str) (rows : list TagRow) :
  unique_index tag_key str2_eqb rows = true ->
  NoDup (map tag_name
             (filter (fun t => str_eqb (tag_project_id t) project_id) rows)).
Proof.
  induction rows as [|x rows IH]; simpl; intros Hu; [constructor|].
  apply andb_true_iff in Hu. destruct Hu as (Hx & Hu).
  destruct (str_eqb (tag_project_id x) project_id) eqn:E; [|now apply IH].
  simpl. constructor; [|now apply IH].
  intros Hin. apply in_map_iff in Hin. destruct Hin as (t & Hname & Hin).
  apply filter_In in Hin. destruct Hin as (Hin & Hp).
  apply str_eqb_eq in E, Hp. apply negb_true_iff in Hx.
  assert (key_taken tag_key str2_eqb (tag_key x) rows = true) as T.
  { apply (key_taken_in tag_key _ str2_eqb_eq). exists t. split; [exact Hin|].
    unfold tag_key. congruence. }
  congruence.
Qed.

End IndexFacts.

(** X10.  [GET /local/tags] lists the names of the Tag rows of the
    caller's project, and only those; on a ledger whose unique indices hold
    no name is listed twice. *)
Theorem project_tags_listed_once
        (core_client : CoreClient) (client_id : str) (w w' : World)
        (names : list str) :
  crud.constraints_hold (db w) = true ->
  local_listing.get_project_tags core_client client_id w = (Return names, w') ->
  NoDup names
  /\ forall name,
      In name names
      <-> exists t,
          In t (tags (db w)) /\ tag_name t = name
          /\ option_map analysis_project_id (get_analysis core_client client_id)
             = Some (tag_project_id t).
Proof.
  intros Hinv Hrun.
  destruct (get_analysis core_client client_id) as [a|] eqn:Ha.
  2:{ unfold local_listing.get_project_tags, bind in Hrun.
      rewrite (@HandlerFacts.project_id_unknown _ _ w Ha) in Hrun. discriminate. }
  destruct (@ListingFacts.get_project_tags_cases _ _ _ w Ha) as (w1 & _ & E).
  rewrite E in Hrun. destruct (next_fails w); [discriminate|].
  inversion Hrun; subst. clear Hrun E.
  apply TagObjectFacts.constraints_hold_parts in Hinv. destruct Hinv as (_ & Hu & _).
  split; [now apply IndexFacts.names_of_a_project_differ|].
  intros name. rewrite in_map_iff. split.
  - intros (t & Hn & Hin). apply filter_In in Hin. destruct Hin as (Hin & Hp).
    apply str_eqb_eq in Hp. exists t. simpl. rewrite Hp. auto.
  - intros (t & Hin & Hn & Hp). simpl in Hp. inversion Hp as [Hp'].
    exists t. split; [exact Hn|]. apply filter_In. split; [exact Hin|].
    rewrite Hp'. apply str_eqb_refl.
Qed.

Lemma project_tags_listed_once_witness :
  let w1 := snd (local.submit_intermediate_result_to_local
                   fixtures.hub (py "an1") fixtures.blob (Some (py "t1")) (py "o1")
                   fixtures.fresh) in
  let w := snd (local.submit_intermediate_result_to_local
                  fixtures.hub (py "an2") fixtures.blob (Some (py "t2")) (py "o2") w1) in
  NoDup [py "t1"]
  /\ forall name,
      In name [py "t1"]
      <-> exists t,
          In t (tags (db w)) /\ tag_name t = name
          /\ option_map analysis_project_id (get_analysis fixtures.hub (py "an1"))
             = Some (tag_project_id t).
Proof.
  intros w1 w.
  apply (@project_tags_listed_once fixtures.hub (py "an1") w w [py "t1"]).
  - reflexivity.
  - reflexivity.
Defined.

Module ReadingFacts.

Import crud local local_listing HandlerFacts.

Lemma retrieve_untouched (core_client : CoreClient) (client_id object_id : str)
      (w : World) :
  untouched w (snd (retrieve_intermediate_result_from_local
                      core_client client_id object_id w)).
Proof.
  unfold retrieve_intermediate_result_from_local, bind.
  destruct (get_analysis core_client client_id) as [a|] eqn:Ha.
  2:{ rewrite (@project_id_unknown _ _ w Ha). apply untouched_refl. }
  rewrite (@project_id_known _ _ _ w Ha).
  destruct (get_object_from_s3_cases (analysis_project_id a) object_id client_id w)
    as (w1 & Hun & _ & E).
  rewrite E. destruct (next_fails w); [exact Hun|].
  destruct (Minio.lookup _ (objects w)); exact Hun.
Qed.

Lemma get_project_tags_untouched (core_client : CoreClient) (client_id : str)
      (w : World) :
  untouched w (snd (get_project_tags core_client client_id w)).
Proof.
  destruct (get_analysis core_client client_id) as [a|] eqn:Ha.
  2:{ unfold get_project_tags, bind.
      rewrite (@project_id_unknown _ _ w Ha). apply untouched_refl. }
  destruct (@ListingFacts.get_project_tags_cases _ _ _ w Ha) as (w1 & Hun & E).
  rewrite E. destruct (next_fails w); exact Hun.
Qed.

Lemma get_results_by_project_tag_untouched (core_client : CoreClient)
      (tag_name client_id : str) (w : World) :
  untouched w (snd (get_results_by_project_tag core_client tag_name client_id w)).
Proof.
  destruct (get_analysis core_client client_id) as [a|] eqn:Ha.
  2:{ unfold get_results_by_project_tag, bind.
      rewrite (@project_id_unknown _ _ w Ha). apply untouched_refl. }
  destruct (@ListingFacts.get_results_by_project_tag_cases _ tag_name _ _ w Ha)
    as (w1 & Hun & E).
  destruct (next_fails w); [now rewrite E|].
  destruct E as (listing & E & _). now rewrite E.
Qed.

Lemma upload_local_file_untouched
      (PrivateKey PublicKey : Type)
      (load_ecdh_public_key_from_hex_string : str -> outcome PublicKey)
      (encrypt_default : PrivateKey -> PublicKey -> bytes -> bytes -> bytes)
      (core_client : CoreClient) (hub : HubBuckets) (private_key : PrivateKey)
      (object_id client_id : str) (remote_node_id : option str) (entropy : bytes)
      (w : World) :
  untouched w (snd (hub_upload.upload_local_file
                      load_ecdh_public_key_from_hex_string encrypt_default
                      core_client hub private_key object_id client_id
                      remote_node_id entropy w)).
Proof.
  unfold hub_upload.upload_local_file, bind at 1.
  destruct (get_analysis core_client client_id) as [a|] eqn:Ha.
  2:{ rewrite (@project_id_unknown _ _ w Ha). apply untouched_refl. }
  rewrite (@project_id_known _ _ _ w Ha). unfold bind at 1.
  destruct (get_object_from_s3_cases (analysis_project_id a) object_id client_id w)
    as (w1 & Hun & _ & E).
  rewrite E. clear E. destruct (next_fails w); [exact Hun|].
  destruct (Minio.lookup _ (objects w)) as [o|]; [|exact Hun].
  unfold bind at 1.
  rewrite (@bind_to_reading _ _ w1 (filename_lookup_reads object_id client_id w1)).
  unfold queries.Result_count, bind, ret.
  destruct (round_trip_cases OperationalError w1)
    as [(_ & w2 & E2 & A2 & B2 & C2) | (_ & w2 & E2 & A2 & B2 & C2 & _)];
    rewrite E2.
  - simpl. apply (untouched_trans Hun). now repeat split.
  - assert (Hun2 : untouched w w2)
      by (apply (untouched_trans Hun); now repeat split).
    destruct (List.length _ =? 1).
    + destruct (TaggingFacts.Result_get_cases object_id client_id w2)
        as (w3 & Hun3 & E3).
      rewrite E3. destruct (next_fails w2).
      * simpl. exact (untouched_trans Hun2 Hun3).
      * destruct (find _ (results (db w2))); simpl;
          exact (untouched_trans Hun2 Hun3).
    + simpl. exact Hun2.
Qed.

End ReadingFacts.

(** X11.  The reading handlers write nothing: whatever the request, the
    hub's answers and the outages, after [GET /local/{object_id}],
    [GET /local/tags], [GET /local/tags/{tag_name}] and [PUT /local/upload]
    the ledger, the bucket and the record of writes are as before. *)
Theorem reading_handlers_write_nothing
        (PrivateKey PublicKey : Type)
        (load_ecdh_public_key_from_hex_string : str -> outcome PublicKey)
        (encrypt_default : PrivateKey -> PublicKey -> bytes -> bytes -> bytes)
        (private_key : PrivateKey) (hub : HubBuckets)
        (core_client : CoreClient) (client_id object_id tag_name : str)
        (remote_node_id : option str) (entropy : bytes) (w : World) :
  untouched w (snd (local.retrieve_intermediate_result_from_local
                      core_client client_id object_id w))
  /\ untouched w (snd (local_listing.get_project_tags core_client client_id w))
  /\ untouched w (snd (local_listing.get_results_by_project_tag
                         core_client tag_name client_id w))
  /\ untouched w (snd (hub_upload.upload_local_file
                         load_ecdh_public_key_from_hex_string encrypt_default
                         core_client hub private_key object_id client_id
                         remote_node_id entropy w)).
Proof.
  split; [|split; [|split]].
  - apply ReadingFacts.retrieve_untouched.
  - apply ReadingFacts.get_project_tags_untouched.
  - apply ReadingFacts.get_results_by_project_tag_untouched.
  - apply ReadingFacts.upload_local_file_untouched.
Qed.

(** X12.  A purged project lists nothing.  After a [DELETE /local] that
    returned, an analysis of that project that finds the ledger answering
    gets an empty list of tags, and an empty list of results for every tag
    name. *)
Theorem purged_project_lists_nothing
        (settings : Settings) (core_client core_client' : CoreClient)
        (project_id client_id reader_id tag_name : str) (w w1 : World)
        (a : Analysis) :
  local.delete_local_results settings core_client project_id client_id w
  = (Return tt, w1) ->
  get_analysis core_client' reader_id = Some a ->
  analysis_project_id a = project_id ->
  next_fails w1 = false ->
  (exists w2, local_listing.get_project_tags core_client' reader_id w1
              = (Return [], w2))
  /\ (exists w2, local_listing.get_results_by_project_tag
                   core_client' tag_name reader_id w1
                 = (Return [], w2)).
Proof.
  intros Hrun Ha Hp Hok.
  destruct (@PurgeFacts.delete_returned_stores _ _ _ _ _ _ Hrun)
    as (_ & _ & Htags & _).
  assert (Hnone : forall t, In t (tags (db w1)) -> tag_project_id t <> project_id).
  { intros t Hin. rewrite Htags in Hin. apply filter_In in Hin.
    destruct Hin as (_ & Hn). apply negb_true_iff in Hn. now apply str_eqb_neq. }
  split.
  - destruct (@ListingFacts.get_project_tags_cases _ _ _ w1 Ha) as (w2 & _ & E).
    rewrite Hok in E. exists w2. rewrite E. f_equal. f_equal.
    destruct (filter _ (tags (db w1))) as [|t rest] eqn:F; [reflexivity|].
    exfalso. assert (Hin : In t (filter (fun t => str_eqb (tag_project_id t)
                                                     (analysis_project_id a))
                                    (tags (db w1)))) by (rewrite F; now left).
    apply filter_In in Hin. destruct Hin as (Hin & Hq). apply str_eqb_eq in Hq.
    apply (Hnone t Hin). congruence.
  - destruct (@ListingFacts.get_results_by_project_tag_cases _ tag_name _ _ w1 Ha)
      as (w2 & _ & E).
    rewrite Hok in E. destruct E as (listing & E & Hlisting).
    exists w2. rewrite E. f_equal. f_equal.
    destruct listing as [|[filename object_id] rest]; [reflexivity|].
    exfalso. destruct (proj1 (Hlisting filename object_id) (or_introl eq_refl))
      as (r & l & t & _ & _ & Ht & _ & _ & Hq & _).
    apply (Hnone t Ht). congruence.
Qed.

Lemma purged_project_lists_nothing_witness :
  let w0 := snd (local.submit_intermediate_result_to_local
                   fixtures.hub (py "an1") fixtures.blob (Some (py "t1")) (py "o1")
                   fixtures.fresh) in
  let w1 := snd (local.delete_local_results fixtures.settings fixtures.hub (py "p1")
                                            (py "hub-adapter") w0) in
  fst (local_listing.get_project_tags fixtures.hub (py "an1") w0) = Return [py "t1"]
  /\ (exists w2, local_listing.get_project_tags fixtures.hub (py "an1") w1
                 = (Return [], w2))
  /\ (exists w2, local_listing.get_results_by_project_tag
                   fixtures.hub (py "t1") (py "an1") w1
                 = (Return [], w2)).
Proof.
  intros w0 w1. split; [reflexivity|].
  apply (@purged_project_lists_nothing fixtures.settings fixtures.hub fixtures.hub
           (py "p1") (py "hub-adapter") (py "an1") (py "t1") w0 w1
           (mkAnalysis (py "p1"))).
  - reflexivity.
  - reflexivity.
  - reflexivity.
  - reflexivity.
Defined.

(** ** Retrieval from the hub *)

Module StreamFacts.

Section Decrypting.

Variables PrivateKey PublicKey : Type.
Variable decrypt_default : PrivateKey -> PublicKey -> bytes -> outcome bytes.
Variable private_key : PrivateKey.
Variable peer : PublicKey.

(** While chunks decrypt, their plaintexts are sent in order. *)
Lemma stream_decrypted_prefix (good : list bytes) (plaintexts : list bytes)
      (tail : list bytes) :
  Forall2 (fun chunk plaintext =>
             decrypt_default private_key peer chunk = Return plaintext)
          good plaintexts ->
  intermediate.stream_decrypted decrypt_default private_key peer (good ++ tail)
  = mkStreamingResponse
      (plaintexts
       ++ sent (intermediate.stream_decrypted decrypt_default private_key peer tail))
      (broken_by (intermediate.stream_decrypted decrypt_default private_key peer tail)).
Proof.
  induction 1 as [|chunk plaintext good plaintexts Hdec Hrest IH]; simpl.
  - now destruct (intermediate.stream_decrypted _ _ _ tail).
  - rewrite Hdec, IH. reflexivity.
Qed.

End Decrypting.

End StreamFacts.

(** X13.  A fetch with decryption delivers the plaintexts.  When the bucket
    file exists, its stream is not empty, the remote node has a public key
    that loads, and every chunk decrypts under it, the response streams
    the plaintext of every chunk, in order, and ends regularly. *)
Theorem decrypted_fetch_delivers_plaintexts
        (PrivateKey PublicKey : Type)
        (load_ecdh_public_key_from_hex_string : str -> outcome PublicKey)
        (decrypt_default : PrivateKey -> PublicKey -> bytes -> outcome bytes)
        (core_client : CoreClient) (storage_client : StorageClient)
        (private_key : PrivateKey) (object_id node_id : str)
        (file : BucketFile) (node : Node) (hex : str) (peer : PublicKey)
        (plaintexts : list bytes) :
  get_bucket_file storage_client object_id = Some file ->
  get_node core_client node_id = Some node ->
  node_public_key node = Some hex ->
  load_ecdh_public_key_from_hex_string hex = Return peer ->
  stream_bucket_file storage_client object_id <> [] ->
  Forall2 (fun chunk plaintext =>
             decrypt_default private_key peer chunk = Return plaintext)
          (stream_bucket_file storage_client object_id) plaintexts ->
  intermediate.retrieve_intermediate_result_from_hub
    load_ecdh_public_key_from_hex_string decrypt_default
    core_client storage_client private_key object_id (Some node_id)
  = Return (mkStreamingResponse plaintexts None).
Proof.
  intros Hfile Hnode Hkey Hload Hsome Hall.
  unfold intermediate.retrieve_intermediate_result_from_hub.
  rewrite Hfile.
  pose proof (@StreamFacts.stream_decrypted_prefix _ _ decrypt_default private_key
                peer _ _ [] Hall) as Hstream.
  rewrite app_nil_r in Hstream. simpl in Hstream. rewrite app_nil_r in Hstream.
  destruct (stream_bucket_file storage_client object_id) as [|first rest];
    [contradiction|].
  simpl. unfold intermediate.get_remote_node_public_key.
  rewrite Hnode, Hkey, Hload. simpl.
  inversion Hall as [|? plaintext ? ? Hfirst Hrest]; subst.
  rewrite Hfirst. f_equal.
  simpl in Hstream. rewrite Hfirst in Hstream. exact Hstream.
Qed.

Lemma decrypted_fetch_delivers_plaintexts_witness :
  let load := fun _ : str => Return 3%N in
  let decrypt := crypto.decrypt_default ExampleCodec.exchange ExampleCodec.derive 2 1
                   ExampleCodec.open in
  let encrypt := crypto.encrypt_default ExampleCodec.exchange ExampleCodec.derive
                   ExampleCodec.seal in
  let core_client :=
    mkCoreClient (fun _ => None) (fun _ => None)
                 (fun _ => Some (mkNode (Some (py "04ab")))) in
  let storage_client :=
    mkStorageClient (fun _ => Some (mkBucketFile (py "r.bin")))
                    (fun _ => [encrypt 3%N 5%N [9; 9]%N [104; 105]%N;
                               encrypt 3%N 5%N [8; 8]%N [106]%N]) in
  intermediate.retrieve_intermediate_result_from_hub
    load decrypt core_client storage_client 5%N (py "o1") (Some (py "n1"))
  = Return (mkStreamingResponse [[104; 105]; [106]]%N None).
Proof.
  intros load decrypt encrypt core_client storage_client.
  apply (@decrypted_fetch_delivers_plaintexts N N load decrypt core_client
           storage_client 5%N (py "o1") (py "n1") (mkBucketFile (py "r.bin"))
           (mkNode (Some (py "04ab"))) (py "04ab") 3%N).
  - reflexivity.
  - reflexivity.
  - reflexivity.
  - reflexivity.
  - discriminate.
  - repeat constructor.
Defined.

(** X14.  Only the first chunk is checked before the response starts.  When
    the first chunks decrypt and a later one does not, the handler has
    already answered: the response streams the plaintexts of the chunks
    before the failing one and then breaks with the exception of the
    failing chunk; no 400 is raised for it, also when the exception is the
    failed authentication. *)
Theorem late_decryption_failure_truncates
        (PrivateKey PublicKey : Type)
        (load_ecdh_public_key_from_hex_string : str -> outcome PublicKey)
        (decrypt_default : PrivateKey -> PublicKey -> bytes -> outcome bytes)
        (core_client : CoreClient) (storage_client : StorageClient)
        (private_key : PrivateKey) (object_id node_id : str)
        (file : BucketFile) (node : Node) (hex : str) (peer : PublicKey)
        (good plaintexts : list bytes) (bad : bytes) (rest : list bytes)
        (e : exn) :
  get_bucket_file storage_client object_id = Some file ->
  get_node core_client node_id = Some node ->
  node_public_key node = Some hex ->
  load_ecdh_public_key_from_hex_string hex = Return peer ->
  stream_bucket_file storage_client object_id = good ++ bad :: rest ->
  good <> [] ->
  Forall2 (fun chunk plaintext =>
             decrypt_default private_key peer chunk = Return plaintext)
          good plaintexts ->
  decrypt_default private_key peer bad = Raise e ->
  intermediate.retrieve_intermediate_result_from_hub
    load_ecdh_public_key_from_hex_string decrypt_default
    core_client storage_client private_key object_id (Some node_id)
  = Return (mkStreamingResponse plaintexts (Some e)).
Proof.
  intros Hfile Hnode Hkey Hload Hstream Hsome Hall Hbad.
  unfold intermediate.retrieve_intermediate_result_from_hub.
  rewrite Hfile, Hstream.
  pose proof (@StreamFacts.stream_decrypted_prefix _ _ decrypt_default private_key
                peer _ _ (bad :: rest) Hall) as Hprefix.
  simpl in Hprefix. rewrite Hbad in Hprefix. simpl in Hprefix.
  rewrite app_nil_r in Hprefix.
  destruct good as [|first good']; [contradiction|].
  simpl. unfold intermediate.get_remote_node_public_key.
  rewrite Hnode, Hkey, Hload. simpl.
  inversion Hall as [|? plaintext ? ? Hfirst Hrest]; subst.
  rewrite Hfirst. f_equal.
  simpl in Hprefix. rewrite Hfirst in Hprefix. exact Hprefix.
Qed.

Lemma late_decryption_failure_truncates_witness :
  let load := fun _ : str => Return 3%N in
  let decrypt := crypto.decrypt_default ExampleCodec.exchange ExampleCodec.derive 2 1
                   ExampleCodec.open in
  let encrypt := crypto.encrypt_default ExampleCodec.exchange ExampleCodec.derive
                   ExampleCodec.seal in
  let core_client :=
    mkCoreClient (fun _ => None) (fun _ => None)
                 (fun _ => Some (mkNode (Some (py "04ab")))) in
  let storage_client :=
    mkStorageClient (fun _ => Some (mkBucketFile (py "r.bin")))
                    (fun _ => [encrypt 3%N 5%N [9; 9]%N [104; 105]%N;
                               [1; 2; 3; 4]%N;
                               encrypt 3%N 5%N [8; 8]%N [106]%N]) in
  intermediate.retrieve_intermediate_result_from_hub
    load decrypt core_client storage_client 5%N (py "o1") (Some (py "n1"))
  = Return (mkStreamingResponse [[104; 105]%N] (Some InvalidTag)).
Proof.
  intros load decrypt encrypt core_client storage_client.
  apply (@late_decryption_failure_truncates N N load decrypt core_client
           storage_client 5%N (py "o1") (py "n1") (mkBucketFile (py "r.bin"))
           (mkNode (Some (py "04ab"))) (py "04ab") 3%N
           [encrypt 3%N 5%N [9; 9]%N [104; 105]%N] [[104; 105]%N]
           [1; 2; 3; 4]%N [encrypt 3%N 5%N [8; 8]%N [106]%N] InvalidTag).
  - reflexivity.
  - reflexivity.
  - reflexivity.
  - reflexivity.
  - reflexivity.
  - discriminate.
  - repeat constructor.
  - reflexivity.
Defined.

(** ** Uploads to the hub *)

(** X15.  The calls with which [PUT /intermediate] changes the hub.  A run
    that fails before the upload (no TEMP bucket, remote node unknown or
    without a key, key that does not load) calls nothing.  A run that
    returns has uploaded one file and linked it to the analysis bucket, in
    this order, and returns the id the storage service gave the file.  The
    502 for a storage service that reports another number of files than
    one comes after the upload and without the link. *)
Theorem hub_upload_calls
        (PrivateKey PublicKey : Type)
        (load_ecdh_public_key_from_hex_string : str -> outcome PublicKey)
        (encrypt_default : PrivateKey -> PublicKey -> bytes -> bytes -> bytes)
        (core_client : CoreClient) (hub : HubBuckets) (private_key : PrivateKey)
        (client_id : str) (file : UploadFile) (remote_node_id : option str)
        (entropy : bytes) :
  let run := hub_upload.submit_intermediate_result_to_hub
               load_ecdh_public_key_from_hex_string encrypt_default
               core_client hub private_key client_id file remote_node_id entropy in
  match fst run with
  | Uploaded object_id =>
      exists upload bucket_file analysis_bucket,
        snd run = [upload_to_bucket_call upload;
                   create_analysis_bucket_file_call
                     (uploaded_name bucket_file) object_id
                     (analysis_bucket_id analysis_bucket) (bucket_id analysis_bucket)]
        /\ upload_to_bucket hub upload = [bucket_file]
        /\ object_id = uploaded_id bucket_file
        /\ upload_bucket_id upload = bucket_id analysis_bucket
        /\ pop (find_analysis_buckets hub client_id TEMP) = Some analysis_bucket
  | UploadFailed (UploadHTTPException status_code (UnexpectedUploadCount got)) =>
      status_code = HTTP_502_BAD_GATEWAY
      /\ got <> 1
      /\ exists upload,
          snd run = [upload_to_bucket_call upload]
          /\ List.length (upload_to_bucket hub upload) = got
  | UploadFailed (UploadHTTPException status_code (BucketNotFound kind analysis_id)) =>
      status_code = HTTP_404_NOT_FOUND /\ kind = TEMP /\ analysis_id = client_id
      /\ find_analysis_buckets hub client_id TEMP = []
      /\ snd run = []
  | UploadFailed (Propagated e) =>
      snd run = []
      /\ exists node,
          remote_node_id = Some node
          /\ intermediate.get_remote_node_public_key
               load_ecdh_public_key_from_hex_string core_client node = Raise e
  end.
Proof.
  intros run. subst run. unfold hub_upload.submit_intermediate_result_to_hub.
  unfold pop.
  destruct (rev (find_analysis_buckets hub client_id TEMP))
    as [|analysis_bucket others] eqn:Hrev.
  - simpl. repeat split.
    apply (f_equal (@rev _)) in Hrev. now rewrite rev_involutive in Hrev.
  - destruct remote_node_id as [node|]; simpl.
    + destruct (intermediate.get_remote_node_public_key
                  load_ecdh_public_key_from_hex_string core_client node)
        as [remote_public_key|e] eqn:Hkey; simpl.
      * destruct (upload_to_bucket hub _) as [|b [|b' bs]] eqn:Hup; simpl.
        -- split; [reflexivity|]. split; [discriminate|]. eexists.
           split; [reflexivity|]. now rewrite Hup.
        -- eexists. exists b, analysis_bucket. rewrite Hup. repeat split.
        -- split; [reflexivity|]. split; [discriminate|]. eexists.
           split; [reflexivity|]. now rewrite Hup.
      * split; [reflexivity|]. now exists node.
    + destruct (upload_to_bucket hub _) as [|b [|b' bs]] eqn:Hup; simpl.
      * split; [reflexivity|]. split; [discriminate|]. eexists.
        split; [reflexivity|]. now rewrite Hup.
      * eexists. exists b, analysis_bucket. rewrite Hup. repeat split.
      * split; [reflexivity|]. split; [discriminate|]. eexists.
        split; [reflexivity|]. now rewrite Hup.
Qed.

(** X16.  What [PUT /intermediate] uploads.  Whenever the handler uploads,
    the file goes to the bucket of the last TEMP analysis bucket found,
    under the filename of the request and its content type (or the
    octet-stream default).  Without a remote node the content is the file
    as it came; with a remote node it is the file encrypted under the key
    of that node, and never the file as it came unless the cipher returns
    it. *)
Theorem hub_upload_content
        (PrivateKey PublicKey : Type)
        (load_ecdh_public_key_from_hex_string : str -> outcome PublicKey)
        (encrypt_default : PrivateKey -> PublicKey -> bytes -> bytes -> bytes)
        (core_client : CoreClient) (hub : HubBuckets) (private_key : PrivateKey)
        (client_id : str) (file : UploadFile) (remote_node_id : option str)
        (entropy : bytes) (outcome : upload_outcome str) (upload : Upload)
        (calls : list hub_call) :
  hub_upload.submit_intermediate_result_to_hub
    load_ecdh_public_key_from_hex_string encrypt_default
    core_client hub private_key client_id file remote_node_id entropy
  = (outcome, upload_to_bucket_call upload :: calls) ->
  option_map bucket_id (pop (find_analysis_buckets hub client_id TEMP))
  = Some (upload_bucket_id upload)
  /\ upload_file_name upload = file_filename file
  /\ upload_content_type upload
     = local.str_or (file_content_type file) local.octet_stream
  /\ match remote_node_id with
     | None => upload_content upload = file_content file
     | Some node =>
         exists remote_public_key,
           intermediate.get_remote_node_public_key
             load_ecdh_public_key_from_hex_string core_client node
           = Return remote_public_key
           /\ upload_content upload
              = encrypt_default private_key remote_public_key entropy
                                (file_content file)
     end.
Proof.
  unfold hub_upload.submit_intermediate_result_to_hub.
  destruct (pop (find_analysis_buckets hub client_id TEMP)) as [analysis_bucket|];
    [|discriminate].
  destruct remote_node_id as [node|]; simpl.
  - destruct (intermediate.get_remote_node_public_key
                load_ecdh_public_key_from_hex_string core_client node)
      as [remote_public_key|e]; simpl; [|discriminate].
    intros Hrun.
    assert (upload = mkUpload (bucket_id analysis_bucket) (file_filename file)
                       (encrypt_default private_key remote_public_key entropy
                                        (file_content file))
                       (local.str_or (file_content_type file) local.octet_stream))
      as ->.
    { destruct (upload_to_bucket hub _) as [|b [|b' bs]]; now inversion Hrun. }
    simpl. repeat split. now exists remote_public_key.
  - intros Hrun.
    assert (upload = mkUpload (bucket_id analysis_bucket) (file_filename file)
                       (file_content file)
                       (local.str_or (file_content_type file) local.octet_stream))
      as ->.
    { destruct (upload_to_bucket hub _) as [|b [|b' bs]]; now inversion Hrun. }
    simpl. repeat split.
Qed.

Lemma hub_upload_content_witness :
  let load := fun _ : str => Return 5%N in
  let encrypt := crypto.encrypt_default ExampleCodec.exchange ExampleCodec.derive
                   ExampleCodec.seal in
  let core_client :=
    mkCoreClient (fun _ => None) (fun _ => None)
                 (fun _ => Some (mkNode (Some (py "04ab")))) in
  let hub :=
    mkHubBuckets (fun _ _ => [mkAnalysisBucket (py "ab1") (py "b1");
                              mkAnalysisBucket (py "ab2") (py "b2")])
                 (fun upload => [mkUploadedBucketFile (py "f1") (py "r.csv")]) in
  let upload := mkUpload (py "b2") (Some (py "r.csv"))
                         (encrypt 3%N 5%N [9; 9]%N [7; 8; 9]%N)
                         local.octet_stream in
  option_map bucket_id (pop (find_analysis_buckets hub (py "an1") TEMP))
  = Some (py "b2")
  /\ upload_file_name upload = Some (py "r.csv")
  /\ upload_content_type upload = local.octet_stream
  /\ exists remote_public_key,
      intermediate.get_remote_node_public_key load core_client (py "n2")
      = Return remote_public_key
      /\ upload_content upload
         = encrypt 3%N remote_public_key [9; 9]%N [7; 8; 9]%N.
Proof.
  intros load encrypt core_client hub upload.
  apply (@hub_upload_content N N load encrypt core_client hub 3%N (py "an1")
           fixtures.blob (Some (py "n2")) [9; 9]%N (Uploaded (py "f1")) upload
           [create_analysis_bucket_file_call (py "r.csv") (py "f1") (py "ab2")
                                             (py "b2")]).
  reflexivity.
Defined.

(** X17.  Through the hub and back.  Node A uploads a file for node B with
    [PUT /intermediate]; the hub's storage serves what was uploaded, as one
    chunk, under the id it returned; B fetches it with
    [GET /intermediate/{object_id}] and names A as the node.  If decrypting
    under B's private key and A's public key undoes the encryption under
    A's private key and B's public key for this file, B receives exactly
    the file. *)
Theorem encrypted_upload_fetch_round_trip
        (PrivateKey PublicKey : Type)
        (load_ecdh_public_key_from_hex_string : str -> outcome PublicKey)
        (encrypt_default : PrivateKey -> PublicKey -> bytes -> bytes -> bytes)
        (decrypt_default : PrivateKey -> PublicKey -> bytes -> outcome bytes)
        (core_client : CoreClient) (hub : HubBuckets)
        (storage_client : StorageClient)
        (a_private b_private : PrivateKey) (a_public b_public : PublicKey)
        (a_node_id b_node_id client_id object_id : str) (file : UploadFile)
        (entropy : bytes) (upload : Upload) (calls : list hub_call)
        (served : BucketFile) :
  intermediate.get_remote_node_public_key
    load_ecdh_public_key_from_hex_string core_client a_node_id = Return a_public ->
  intermediate.get_remote_node_public_key
    load_ecdh_public_key_from_hex_string core_client b_node_id = Return b_public ->
  decrypt_default b_private a_public
    (encrypt_default a_private b_public entropy (file_content file))
  = Return (file_content file) ->
  hub_upload.submit_intermediate_result_to_hub
    load_ecdh_public_key_from_hex_string encrypt_default
    core_client hub a_private client_id file (Some b_node_id) entropy
  = (Uploaded object_id, upload_to_bucket_call upload :: calls) ->
  get_bucket_file storage_client object_id = Some served ->
  stream_bucket_file storage_client object_id = [upload_content upload] ->
  intermediate.retrieve_intermediate_result_from_hub
    load_ecdh_public_key_from_hex_string decrypt_default
    core_client storage_client b_private object_id (Some a_node_id)
  = Return (mkStreamingResponse [file_content file] None).
Proof.
  intros Ha Hb Hcodec Hup Hserved Hstream.
  assert (Hcontent : upload_content upload
                     = encrypt_default a_private b_public entropy (file_content file)).
  { unfold hub_upload.submit_intermediate_result_to_hub in Hup.
    destruct (pop (find_analysis_buckets hub client_id TEMP)) as [analysis_bucket|];
      [|discriminate].
    simpl in Hup. rewrite Hb in Hup. simpl in Hup.
    destruct (upload_to_bucket hub _) as [|b [|b' bs]]; inversion Hup. reflexivity. }
  unfold intermediate.retrieve_intermediate_result_from_hub.
  rewrite Hserved, Hstream, Hcontent. simpl. rewrite Ha. simpl.
  rewrite Hcodec. reflexivity.
Qed.

Lemma encrypted_upload_fetch_round_trip_witness :
  let load := fun hex : str => match hex with
                               | [c] => Return c
                               | _ => Raise ValueError
                               end in
  let encrypt := crypto.encrypt_default ExampleCodec.exchange ExampleCodec.derive
                   ExampleCodec.seal in
  let decrypt := crypto.decrypt_default ExampleCodec.exchange ExampleCodec.derive 2 1
                   ExampleCodec.open in
  let core_client :=
    mkCoreClient (fun _ => None) (fun _ => None)
                 (fun node_id => if str_eqb node_id (py "a")
                                 then Some (mkNode (Some [3%N]))
                                 else Some (mkNode (Some [5%N]))) in
  let storage_client :=
    mkStorageClient (fun _ => Some (mkBucketFile (py "r.csv")))
                    (fun _ => [encrypt 3%N 5%N [9; 9]%N [7; 8; 9]%N]) in
  intermediate.retrieve_intermediate_result_from_hub
    load decrypt core_client storage_client 5%N (py "f1") (Some (py "a"))
  = Return (mkStreamingResponse [[7; 8; 9]%N] None).
Proof.
  intros load encrypt decrypt core_client storage_client.
  apply (@encrypted_upload_fetch_round_trip N N load encrypt decrypt core_client
           (mkHubBuckets (fun _ _ => [mkAnalysisBucket (py "ab1") (py "b1")])
                         (fun upload => [mkUploadedBucketFile (py "f1") (py "r.csv")]))
           storage_client 3%N 5%N 3%N 5%N (py "a") (py "b") (py "an1") (py "f1")
           fixtures.blob [9; 9]%N
           (mkUpload (py "b1") (Some (py "r.csv"))
                     (encrypt 3%N 5%N [9; 9]%N [7; 8; 9]%N) local.octet_stream)
           [create_analysis_bucket_file_call (py "r.csv") (py "f1") (py "ab1")
                                             (py "b1")]
           (mkBucketFile (py "r.csv"))).
  - reflexivity.
  - reflexivity.
  - reflexivity.
  - reflexivity.
  - reflexivity.
  - reflexivity.
Defined.

(** X18.  [PUT /final] is [PUT /intermediate] without a remote node, on the
    RESULT bucket.  For a hub whose RESULT analysis buckets of the analysis
    are its TEMP analysis buckets, the two handlers make the same calls,
    with the file uploaded as it came, and they succeed together; so the
    final upload never encrypts. *)
Theorem final_upload_as_plain_intermediate
        (PrivateKey PublicKey : Type)
        (load_ecdh_public_key_from_hex_string : str -> outcome PublicKey)
        (encrypt_default : PrivateKey -> PublicKey -> bytes -> bytes -> bytes)
        (core_client : CoreClient) (hub : HubBuckets) (private_key : PrivateKey)
        (client_id : str) (file : UploadFile) (entropy : bytes) :
  find_analysis_buckets hub client_id RESULT
  = find_analysis_buckets hub client_id TEMP ->
  let final := hub_upload.submit_final_result_to_hub hub client_id file in
  let plain := hub_upload.submit_intermediate_result_to_hub
                 load_ecdh_public_key_from_hex_string encrypt_default
                 core_client hub private_key client_id file None entropy in
  snd final = snd plain
  /\ (fst final = Uploaded tt <-> exists object_id, fst plain = Uploaded object_id)
  /\ forall upload, In (upload_to_bucket_call upload) (snd final) ->
                    upload_content upload = file_content file.
Proof.
  intros Hsame final plain. subst final plain.
  unfold hub_upload.submit_final_result_to_hub,
    hub_upload.submit_intermediate_result_to_hub.
  rewrite Hsame.
  destruct (pop (find_analysis_buckets hub client_id TEMP)) as [analysis_bucket|];
    simpl.
  - destruct (upload_to_bucket hub _) as [|b [|b' bs]]; simpl;
      (split; [reflexivity|]); split.
    + split; [discriminate | intros (? & ?); discriminate].
    + intros upload [H|[]]. now inversion H.
    + split; [now exists (uploaded_id b) | reflexivity].
    + intros upload [H|[H|[]]]; [now inversion H | discriminate].
    + split; [discriminate | intros (? & ?); discriminate].
    + intros upload [H|[]]. now inversion H.
  - split; [reflexivity|]. split.
    + split; [discriminate | intros (? & ?); discriminate].
    + intros upload [].
Qed.

Lemma final_upload_as_plain_intermediate_witness :
  let hub :=
    mkHubBuckets (fun _ _ => [mkAnalysisBucket (py "ab1") (py "b1")])
                 (fun upload => [mkUploadedBucketFile (py "f1") (py "r.csv")]) in
  let final := hub_upload.submit_final_result_to_hub hub (py "an1") fixtures.blob in
  let plain := hub_upload.submit_intermediate_result_to_hub
                 (fun _ : str => Return 5%N) (fun (_ _ : N) (_ data : bytes) => data)
                 fixtures.hub hub 3%N (py "an1") fixtures.blob None [] in
  snd final = snd plain
  /\ (fst final = Uploaded tt <-> exists object_id, fst plain = Uploaded object_id)
  /\ forall upload, In (upload_to_bucket_call upload) (snd final) ->
                    upload_content upload = [7; 8; 9]%N.
Proof.
  intros hub.
  apply (@final_upload_as_plain_intermediate N N (fun _ : str => Return 5%N)
           (fun (_ _ : N) (_ data : bytes) => data) fixtures.hub hub 3%N (py "an1")
           fixtures.blob []).
  reflexivity.
Defined.

Module LocalToHubFacts.

Import crud local HandlerFacts.

Lemma find_head_of_filter {A} (p : A -> bool) (l : list A) :
  find p l = hd_error (filter p l).
Proof.
  induction l as [|x l IH]; simpl; [reflexivity|]. now destruct (p x).
Qed.

Lemma selects_by_key (object_id client_id : str) (r : ResultRow) :
  str_eqb (result_object_id r) object_id && str_eqb (result_client_id r) client_id
  = has_key result_key str2_eqb (client_id, object_id) r.
Proof. apply andb_comm. Qed.

(** [upload_local_file] when the stores answer and the object is there: the
    filename is that of the Result row of the object when the ledger has
    exactly one, and the object id otherwise. *)
Lemma upload_local_file_run
      (PrivateKey PublicKey : Type)
      (load_ecdh_public_key_from_hex_string : str -> outcome PublicKey)
      (encrypt_default : PrivateKey -> PublicKey -> bytes -> bytes -> bytes)
      (core_client : CoreClient) (hub : HubBuckets) (private_key : PrivateKey)
      (object_id client_id : str) (remote_node_id : option str) (entropy : bytes)
      (w : World) (a : Analysis) (o : StoredObject) :
  get_analysis core_client client_id = Some a ->
  outages w = [] ->
  Minio.lookup (object_name (analysis_project_id a) object_id) (objects w) = Some o ->
  hub_upload.upload_local_file load_ecdh_public_key_from_hex_string encrypt_default
    core_client hub private_key object_id client_id remote_node_id entropy w
  = (Return
       (hub_upload.submit_intermediate_result_to_hub
          load_ecdh_public_key_from_hex_string encrypt_default
          core_client hub private_key client_id
          (mkUploadFile
             (Some match filter (has_key result_key str2_eqb (client_id, object_id))
                                (results (db w)) with
                   | [r] => result_filename r
                   | _ => object_id
                   end)
             (object_data o) (Some (object_content_type o)))
          remote_node_id entropy),
     w).
Proof.
  intros Ha Hall Hlook.
  unfold hub_upload.upload_local_file, bind at 1.
  rewrite (@project_id_known _ _ _ w Ha). unfold bind at 1.
  destruct (get_object_from_s3_cases (analysis_project_id a) object_id client_id w)
    as (w1 & _ & Hw1 & E).
  rewrite (no_outage_next w Hall), Hlook, (Hw1 Hall) in E. rewrite E. clear E w1 Hw1.
  assert (Hrt : round_trip OperationalError w = (Return tt, w)).
  { unfold round_trip. now rewrite Hall. }
  unfold bind at 1.
  rewrite (@bind_to_reading _ _ w (filename_lookup_reads object_id client_id w)).
  unfold queries.Result_count, Result_get, bind, ret. rewrite Hrt.
  cbv beta iota.
  rewrite (filter_ext _ _ (selects_by_key object_id client_id)).
  destruct (filter (has_key result_key str2_eqb (client_id, object_id))
                   (results (db w))) as [|r [|r' rows]] eqn:F; simpl;
    [reflexivity | | reflexivity].
  rewrite Hrt, find_head_of_filter.
  rewrite (filter_ext _ _ (selects_by_key object_id client_id)), F. reflexivity.
Qed.

End LocalToHubFacts.

(** X19.  [PUT /local/upload] sends a local upload to the hub under the
    name the ledger has for it.  After a [PUT /local] that returned, on a
    ledger whose unique indices hold and that had no row for the fresh
    object id, with stores that answer, the handler passes to the
    intermediate upload the bytes and the content type that were stored,
    and as filename the effective filename of the upload when it was
    tagged, and the object id when it was not. *)
Theorem upload_local_file_forwards_upload
        (PrivateKey PublicKey : Type)
        (load_ecdh_public_key_from_hex_string : str -> outcome PublicKey)
        (encrypt_default : PrivateKey -> PublicKey -> bytes -> bytes -> bytes)
        (core_client : CoreClient) (hub : HubBuckets) (private_key : PrivateKey)
        (client_id : str) (file : UploadFile) (tag : option str)
        (fresh_object_id object_id : str) (remote_node_id : option str)
        (entropy : bytes) (w w1 : World) :
  crud.constraints_hold (db w) = true ->
  crud.result_key_taken (db w) client_id fresh_object_id = false ->
  local.submit_intermediate_result_to_local core_client client_id file tag
                                            fresh_object_id w
  = (Return object_id, w1) ->
  outages w1 = [] ->
  hub_upload.upload_local_file load_ecdh_public_key_from_hex_string encrypt_default
    core_client hub private_key object_id client_id remote_node_id entropy w1
  = (Return
       (hub_upload.submit_intermediate_result_to_hub
          load_ecdh_public_key_from_hex_string encrypt_default
          core_client hub private_key client_id
          (mkUploadFile
             (Some match tag with
                   | Some _ => local.str_or (file_filename file) local.data_bin
                   | None => object_id
                   end)
             (file_content file)
             (Some (local.str_or (file_content_type file) local.octet_stream)))
          remote_node_id entropy),
     w1).
Proof.
  intros Hinv Hfresh Hput Hall.
  destruct (get_analysis core_client client_id) as [a|] eqn:Ha.
  2:{ unfold local.submit_intermediate_result_to_local, bind in Hput.
      rewrite (@HandlerFacts.project_id_unknown _ _ w Ha) in Hput. discriminate. }
  destruct (@UploadFacts.submit_local_stored _ _ _ _ _ _ _ _ _ Ha Hput)
    as (-> & Hlook & _).
  rewrite (@LocalToHubFacts.upload_local_file_run _ _
             load_ecdh_public_key_from_hex_string encrypt_default core_client hub
             private_key fresh_object_id client_id remote_node_id entropy w1 a _
             Ha Hall Hlook).
  simpl. do 4 f_equal.
  rewrite (@UploadFacts.submit_local_known _ _ file tag fresh_object_id w _ Ha)
    in Hput.
  destruct tag as [t|].
  - destruct (local.tag_object t (analysis_project_id a) client_id fresh_object_id
                (file_filename file) w) as [[[]|e] wt] eqn:Etag; [|discriminate].
    destruct (LocalFacts.put_object_cases
                (local.object_name (analysis_project_id a) fresh_object_id)
                (file_content file)
                (local.str_or (file_content_type file) local.octet_stream) wt)
      as [(_ & w2 & E & _) | (_ & w2 & E & Hdb & _)];
      rewrite E in Hput; [discriminate|].
    inversion Hput; subst w2. rewrite Hdb.
    destruct (@TagObjectFacts.tag_object_returned _ _ _ _ _ _ _ Etag)
      as (_ & r & _ & _ & Hr & _ & _ & Hc & Ho & Hf & _).
    pose proof (Invariant.tag_object_keeps t (analysis_project_id a) client_id
                  fresh_object_id (file_filename file) w Hinv) as Hkeeps.
    rewrite Etag in Hkeeps. simpl in Hkeeps.
    apply TagObjectFacts.constraints_hold_parts in Hkeeps.
    destruct Hkeeps as (Hu & _ & _).
    pose proof (@unique_filter_one _ _ crud.result_key str2_eqb str2_eqb_eq
                  (results (db wt)) r Hu Hr) as Hone.
    unfold crud.result_key at 2 in Hone. rewrite Hc, Ho in Hone.
    rewrite Hone. now rewrite Hf.
  - destruct (LocalFacts.put_object_cases
                (local.object_name (analysis_project_id a) fresh_object_id)
                (file_content file)
                (local.str_or (file_content_type file) local.octet_stream) w)
      as [(_ & w2 & E & _) | (_ & w2 & E & Hdb & _)];
      rewrite E in Hput; [discriminate|].
    inversion Hput; subst w2. rewrite Hdb.
    unfold crud.result_key_taken in Hfresh.
    now rewrite (@key_free_filter _ _ crud.result_key str2_eqb _ _ Hfresh).
Qed.

Lemma upload_local_file_forwards_upload_witness :
  let hub :=
    mkHubBuckets (fun _ _ => [mkAnalysisBucket (py "ab1") (py "b1")])
                 (fun upload => [mkUploadedBucketFile (py "f1") (py "r.csv")]) in
  let w1 := snd (local.submit_intermediate_result_to_local
                   fixtures.hub (py "an1") fixtures.blob (Some (py "t1")) (py "o1")
                   fixtures.fresh) in
  hub_upload.upload_local_file (fun _ : str => Return 5%N)
    (fun (_ _ : N) (_ data : bytes) => data)
    fixtures.hub hub 3%N (py "o1") (py "an1") None [] w1
  = (Return
       (hub_upload.submit_intermediate_result_to_hub
          (fun _ : str => Return 5%N) (fun (_ _ : N) (_ data : bytes) => data)
          fixtures.hub hub 3%N (py "an1")
          (mkUploadFile (Some (py "r.csv")) [7; 8; 9]%N (Some local.octet_stream))
          None []),
     w1).
Proof.
  intros hub w1.
  apply (@upload_local_file_forwards_upload N N (fun _ : str => Return 5%N)
           (fun (_ _ : N) (_ data : bytes) => data) fixtures.hub hub 3%N (py "an1")
           fixtures.blob (Some (py "t1")) (py "o1") (py "o1") None []
           fixtures.fresh w1).
  - reflexivity.
  - reflexivity.
  - reflexivity.
  - reflexivity.
Defined.

(** ** The dependencies *)

(** X20.  The proxy mounts cover both schemes as soon as one proxy URL is
    set.  [get_proxy_mounts] returns [None] exactly when neither URL is
    set.  Otherwise it mounts a transport for [http://] and one for
    [https://], in this order, the latter with the SSL context; each uses
    the URL set for its own scheme, and the URL of the other scheme when
    its own is not set, so the text of an unset URL is never used. *)
Theorem proxy_mounts_cover_both_schemes (proxy : dependencies.ProxyConfig) :
  match dependencies.get_proxy_mounts proxy with
  | None => dependencies.http_url proxy = None /\ dependencies.https_url proxy = None
  | Some mounts =>
      exists for_http for_https,
        mounts = [(py "http://", dependencies.mkHTTPTransport for_http false);
                  (py "https://", dependencies.mkHTTPTransport for_https true)]
        /\ In (Some for_http) [dependencies.http_url proxy; dependencies.https_url proxy]
        /\ In (Some for_https) [dependencies.http_url proxy; dependencies.https_url proxy]
        /\ (forall url, dependencies.http_url proxy = Some url -> for_http = url)
        /\ (forall url, dependencies.https_url proxy = Some url -> for_https = url)
  end.
Proof.
  destruct proxy as [[h|] [s|]]; unfold dependencies.get_proxy_mounts; simpl.
  - exists h, s. split; [reflexivity|]. split; [now left|]. split; [now right; left|].
    split; intros url H; now inversion H.
  - exists h, h. split; [reflexivity|]. split; [now left|]. split; [now left|].
    split; intros url H; now inversion H.
  - exists s, s. split; [reflexivity|]. split; [now right; left|].
    split; [now right; left|].
    split; intros url H; now inversion H.
  - split; reflexivity.
Qed.

Module KeyFacts.

Import dependencies.

(** Data without a backslash has nothing to replace. *)
Lemma replace_pair_without_first (a b : N) (new data : bytes) :
  Forall (fun c => c <> a) data -> replace_pair a b new data = data.
Proof.
  induction 1 as [|c data Hc Hall IH]; [reflexivity|].
  cbn [replace_pair]. destruct data as [|d data]; [reflexivity|].
  destruct (N.eqb c a) eqn:E; [apply N.eqb_eq in E; contradiction|].
  simpl andb. cbv iota. now rewrite IH.
Qed.

(** Writing [a b] for every [x] is undone, when the data has no [a]. *)
Lemma replace_pair_undoes (a b x : N) (data : bytes) :
  x <> a ->
  Forall (fun c => c <> a) data ->
  replace_pair a b [x] (flat_map (fun c => if N.eqb c x then [a; b] else [c]) data)
  = data.
Proof.
  intros Hx. induction 1 as [|c data Hc Hall IH]; [reflexivity|].
  cbn [flat_map]. destruct (N.eqb c x) eqn:E.
  - apply N.eqb_eq in E. subst c. cbn [app replace_pair].
    rewrite !N.eqb_refl. simpl. now rewrite IH.
  - cbn [app]. remember (flat_map _ data) as escaped eqn:Hesc.
    cbn [replace_pair]. destruct escaped as [|d escaped].
    + destruct data as [|c' data]; [reflexivity|].
      simpl in Hesc. destruct (N.eqb c' x); discriminate.
    + destruct (N.eqb c a) eqn:E'; [apply N.eqb_eq in E'; contradiction|].
      simpl andb. cbv iota. now rewrite IH.
Qed.

End KeyFacts.

(** X21.  A private key may be configured with the two characters
    backslash and [n] in the place of every line feed.  For a key without
    a backslash, the key written in that way and the key itself are handed
    to the loader as the same bytes, so both configurations give the same
    private key (or the same error). *)
Theorem escaped_private_key_is_unescaped
        (PrivateKey : Type)
        (load_ecdh_private_key : bytes -> outcome PrivateKey)
        (load_ecdh_private_key_from_path : str -> outcome PrivateKey)
        (key : bytes) :
  Forall (fun c => c <> 92%N) key ->
  let escaped := flat_map (fun c => if N.eqb c 10 then [92; 110]%N else [c]) key in
  dependencies.get_ecdh_private_key load_ecdh_private_key
    load_ecdh_private_key_from_path (dependencies.RawCryptoConfig escaped)
  = load_ecdh_private_key key
  /\ dependencies.get_ecdh_private_key load_ecdh_private_key
       load_ecdh_private_key_from_path (dependencies.RawCryptoConfig key)
     = load_ecdh_private_key key.
Proof.
  intros Hkey escaped. subst escaped.
  unfold dependencies.get_ecdh_private_key,
    dependencies.get_ecdh_private_key_from_bytes.
  rewrite (@KeyFacts.replace_pair_undoes 92 110 10 key) by (discriminate || exact Hkey).
  now rewrite (@KeyFacts.replace_pair_without_first 92 110 [10%N] key Hkey).
Qed.

Lemma escaped_private_key_is_unescaped_witness :
  let load := fun data : bytes => Return (List.length data) in
  let load_from_path := fun _ : str => @Raise nat ValueError in
  dependencies.get_ecdh_private_key load load_from_path
    (dependencies.RawCryptoConfig (py "ab\ncd\n"))
  = Return 6
  /\ dependencies.get_ecdh_private_key load load_from_path
       (dependencies.RawCryptoConfig [97; 98; 10; 99; 100; 10]%N)
     = Return 6.
Proof.
  intros load load_from_path.
  apply (@escaped_private_key_is_unescaped nat load load_from_path
           [97; 98; 10; 99; 100; 10]%N).
  repeat constructor; discriminate.
Defined.

(** ** What the ledger keeps, whatever the requests *)

Module KeptFacts.

Import crud local service HandlerFacts.

Lemma links_resolve_spec (d : Db) :
  links_resolve d = true
  <-> forall l, In l (tagged_results d) ->
                (exists t, In t (tags d) /\ tag_id t = link_tag l)
                /\ (exists r, In r (results d) /\ result_id r = link_result l).
Proof.
  unfold links_resolve. rewrite forallb_forall.
  split; intros H l Hin; specialize (H l Hin).
  - apply andb_true_iff in H. destruct H as (Ht & Hr).
    apply existsb_exists in Ht, Hr.
    destruct Ht as (t & Ht & Et), Hr as (r & Hr & Er).
    apply Nat.eqb_eq in Et, Er. split; [now exists t | now exists r].
  - destruct H as ((t & Ht & Et) & (r & Hr & Er)).
    apply andb_true_iff. split; apply existsb_exists.
    + exists t. split; [exact Ht | now apply Nat.eqb_eq].
    + exists r. split; [exact Hr | now apply Nat.eqb_eq].
Qed.

Lemma rows_validated_spec (d : Db) :
  rows_validated d = true
  <-> (forall t, In t (tags d) -> TagGrammar.is_valid_tag (tag_name t) = true)
      /\ (forall r, In r (results d) -> result_filename r <> []).
Proof.
  unfold rows_validated. rewrite andb_true_iff, !forallb_forall.
  split; intros (Ht & Hr); (split; [exact Ht|]); intros r Hin; specialize (Hr r Hin).
  - apply negb_true_iff in Hr. now apply str_eqb_neq.
  - apply negb_true_iff. now apply str_eqb_neq.
Qed.

Lemma str_or_not_empty (x : option str) (default : str) :
  default <> [] -> str_or x default <> [].
Proof. intros Hd. destruct x as [[|c s]|]; simpl; trivial; discriminate. Qed.

(** The ledger is kept when rows are only appended, the appended Result
    and Tag rows are validated, and the appended links resolve. *)
Lemma kept_after_appending (d d' : Db) :
  ledger_kept d ->
  constraints_hold d' = true ->
  (results d' = results d
   \/ exists r, results d' = results d ++ [r] /\ result_filename r <> []) ->
  (tags d' = tags d
   \/ exists t, tags d' = tags d ++ [t]
                /\ TagGrammar.is_valid_tag (tag_name t) = true) ->
  (tagged_results d' = tagged_results d
   \/ exists l t r, tagged_results d' = tagged_results d ++ [l]
                    /\ In t (tags d') /\ tag_id t = link_tag l
                    /\ In r (results d') /\ result_id r = link_result l) ->
  ledger_kept d'.
Proof.
  intros (_ & Hlinks & Hrows) Hc Hres Htags Htr.
  pose proof (proj1 (links_resolve_spec _) Hlinks) as Hlinks'. clear Hlinks.
  rename Hlinks' into Hlinks. apply (proj1 (rows_validated_spec _)) in Hrows.
  destruct Hrows as (Hvalid & Hnamed).
  assert (Hres_in : forall r, In r (results d) -> In r (results d')).
  { intros r Hin. destruct Hres as [-> | (r' & -> & _)]; [exact Hin|].
    apply in_or_app. now left. }
  assert (Htags_in : forall t, In t (tags d) -> In t (tags d')).
  { intros t Hin. destruct Htags as [-> | (t' & -> & _)]; [exact Hin|].
    apply in_or_app. now left. }
  split; [exact Hc|]. split.
  - apply (proj2 (links_resolve_spec _)). intros l Hin.
    assert (Hold : In l (tagged_results d) ->
                   (exists t, In t (tags d') /\ tag_id t = link_tag l)
                   /\ (exists r, In r (results d') /\ result_id r = link_result l)).
    { intros Hl. destruct (Hlinks l Hl) as ((t & Ht & Et) & (r & Hr & Er)).
      split; [exists t | exists r]; auto. }
    destruct Htr as [E | (l' & t & r & E & Ht & Et & Hr & Er)]; rewrite E in Hin.
    + now apply Hold.
    + apply in_app_or in Hin. destruct Hin as [Hin | [<- | []]]; [now apply Hold|].
      split; [now exists t | now exists r].
  - apply (proj2 (rows_validated_spec _)). split.
    + intros t Hin. destruct Htags as [E | (t' & E & Hv)]; rewrite E in Hin.
      * now apply Hvalid.
      * apply in_app_or in Hin. destruct Hin as [Hin | [<- | []]]; auto.
    + intros r Hin. destruct Hres as [E | (r' & E & Hv)]; rewrite E in Hin.
      * now apply Hnamed.
      * apply in_app_or in Hin. destruct Hin as [Hin | [<- | []]]; auto.
Qed.

Lemma kept_same_tables (d d' : Db) :
  ledger_kept d ->
  results d' = results d -> tags d' = tags d ->
  tagged_results d' = tagged_results d ->
  ledger_kept d'.
Proof.
  unfold ledger_kept, constraints_hold, links_resolve, rows_validated.
  now intros H -> -> ->.
Qed.

(** [tag_object] keeps the ledger, also when it fails on the way. *)
Lemma tag_object_kept (tag project_id client_id object_id : str)
      (filename : option str) (w : World) :
  ledger_kept (db w) ->
  ledger_kept (db (snd (tag_object tag project_id client_id object_id filename w))).
Proof.
  intros Hkept.
  destruct (TagGrammar.is_valid_tag tag) eqn:Hvalid.
  2:{ now rewrite (@TagObjectFacts.tag_object_invalid tag project_id client_id
                     object_id filename w Hvalid). }
  rewrite (@TagObjectFacts.tag_object_valid tag project_id client_id object_id
             filename w Hvalid).
  destruct (Result_get_or_create client_id object_id (str_or filename data_bin) w)
    as [out1 w1] eqn:E1.
  pose proof (@Invariant.Result_step_keeps _ _ _ _ _ _ E1 (proj1 Hkept)) as Hc1.
  destruct (@LedgerFacts.Result_step _ _ _ _ _ _ E1) as (_ & Htags1 & Hlinks1 & _ & H1).
  assert (Hkept1 : ledger_kept (db w1)
                   /\ forall r created, out1 = Return (r, created) ->
                                        In r (results (db w1))).
  { destruct out1 as [[r [|]]|e].
    - destruct H1 as (_ & _ & _ & Hr & Hres & _). split.
      + apply (@kept_after_appending _ _ Hkept Hc1); [right|now left|now left].
        exists r. split; [exact Hres|]. rewrite Hr. simpl.
        apply str_or_not_empty. discriminate.
      + intros r' c H. inversion H; subst r'. rewrite Hres.
        apply in_or_app. right. now left.
    - destruct H1 as (_ & Hsel & Hdb & _). split; [now rewrite Hdb|].
      intros r' c H. inversion H; subst r'. rewrite Hdb.
      unfold Result_select in Hsel. apply find_some in Hsel. tauto.
    - destruct H1 as (Hdb & _). split; [now rewrite Hdb | discriminate]. }
  destruct Hkept1 as (Hkept1 & Hin1).
  destruct out1 as [[r rc]|e1].
  2:{ destruct e1; exact Hkept. }
  specialize (Hin1 r rc eq_refl).
  destruct (Tag_get_or_create tag project_id w1) as [out2 w2] eqn:E2.
  pose proof (@Invariant.Tag_step_keeps _ _ _ _ _ E2 (proj1 Hkept1)) as Hc2.
  destruct (@LedgerFacts.Tag_step _ _ _ _ _ E2) as (_ & Hres2 & Hlinks2 & _ & H2).
  assert (Hkept2 : ledger_kept (db w2)
                   /\ forall t created, out2 = Return (t, created) ->
                                        In t (tags (db w2))).
  { destruct out2 as [[t [|]]|e].
    - destruct H2 as (_ & _ & Ht & Htags & _). split.
      + apply (@kept_after_appending _ _ Hkept1 Hc2); [now left|right|now left].
        exists t. split; [exact Htags|]. now rewrite Ht.
      + intros t' c H. inversion H; subst t'. rewrite Htags.
        apply in_or_app. right. now left.
    - destruct H2 as (_ & Hsel & Hdb & _). split; [now rewrite Hdb|].
      intros t' c H. inversion H; subst t'. rewrite Hdb.
      unfold Tag_select in Hsel. apply find_some in Hsel. tauto.
    - destruct H2 as (Hdb & _). split; [now rewrite Hdb | discriminate]. }
  destruct Hkept2 as (Hkept2 & Hin2).
  destruct out2 as [[t tc]|e2]; [|exact Hkept].
  specialize (Hin2 t tc eq_refl). simpl fst.
  destruct (TaggedResult_get_or_create t r w2) as [out3 w3] eqn:E3.
  pose proof (@Invariant.TaggedResult_step_keeps _ _ _ _ _ E3 (proj1 Hkept2)) as Hc3.
  destruct (@LedgerFacts.TaggedResult_step _ _ _ _ _ E3)
    as (_ & Hres3 & Htags3 & _ & H3).
  assert (Hkept3 : ledger_kept (db w3)).
  { destruct out3 as [[l [|]]|e].
    - destruct H3 as (_ & _ & Hl & Hlinks & _).
      apply (@kept_after_appending _ _ Hkept2 Hc3); [now left|now left|right].
      exists l, t, r. split; [exact Hlinks|].
      rewrite Htags3, Hres3, Hres2, Hl. simpl. repeat split; assumption.
    - destruct H3 as (_ & _ & Hdb & _). now rewrite Hdb.
    - destruct H3 as (Hdb & _). now rewrite Hdb. }
  destruct out3; [exact Hkept3 | exact Hkept].
Qed.

(** A delete with its cascade keeps the ledger. *)
Lemma kept_after_cascade (d d' : Db) (gone_results : ResultRow -> bool)
      (gone_tags : TagRow -> bool) :
  ledger_kept d ->
  constraints_hold d' = true ->
  results d' = filter (fun r => negb (gone_results r)) (results d) ->
  tags d' = filter (fun t => negb (gone_tags t)) (tags d) ->
  tagged_results d'
  = filter (fun l => negb (mem_nat (link_result l)
                             (map result_id (filter gone_results (results d))))
                     && negb (mem_nat (link_tag l)
                                (map tag_id (filter gone_tags (tags d)))))
           (tagged_results d) ->
  ledger_kept d'.
Proof.
  intros (_ & Hlinks & Hrows) Hc Hres Htags Htr.
  pose proof (proj1 (links_resolve_spec _) Hlinks) as Hlinks'. clear Hlinks.
  rename Hlinks' into Hlinks. apply (proj1 (rows_validated_spec _)) in Hrows.
  destruct Hrows as (Hvalid & Hnamed).
  split; [exact Hc|]. split.
  - apply (proj2 (links_resolve_spec _)). intros l Hin. rewrite Htr in Hin.
    apply filter_In in Hin. destruct Hin as (Hin & Hstays).
    apply andb_true_iff in Hstays. destruct Hstays as (Hr & Ht).
    apply negb_true_iff in Hr, Ht.
    destruct (Hlinks l Hin) as ((t & Hint & Et) & (r & Hinr & Er)). split.
    + exists t. split; [|exact Et]. rewrite Htags. apply filter_In.
      split; [exact Hint|]. destruct (gone_tags t) eqn:G; [|reflexivity].
      exfalso. assert (mem_nat (link_tag l) (map tag_id (filter gone_tags (tags d)))
                       = true) as T.
      { apply LocalFacts.mem_nat_in. apply in_map_iff. exists t.
        split; [exact Et|]. apply filter_In. auto. }
      congruence.
    + exists r. split; [|exact Er]. rewrite Hres. apply filter_In.
      split; [exact Hinr|]. destruct (gone_results r) eqn:G; [|reflexivity].
      exfalso. assert (mem_nat (link_result l)
                         (map result_id (filter gone_results (results d))) = true)
        as T.
      { apply LocalFacts.mem_nat_in. apply in_map_iff. exists r.
        split; [exact Er|]. apply filter_In. auto. }
      congruence.
  - apply (proj2 (rows_validated_spec _)). split.
    + intros t Hin. rewrite Htags in Hin. apply filter_In in Hin. now apply Hvalid.
    + intros r Hin. rewrite Hres in Hin. apply filter_In in Hin. now apply Hnamed.
Qed.

Lemma filter_all {A} (l : list A) : filter (fun _ => true) l = l.
Proof. induction l as [|x l IH]; simpl; [reflexivity | now rewrite IH]. Qed.

Lemma filter_none {A} (l : list A) : filter (fun _ => false) l = [].
Proof. induction l as [|x l IH]; simpl; [reflexivity | exact IH]. Qed.

Lemma Result_delete_kept (object_ids : list str) (w : World) :
  ledger_kept (db w) ->
  ledger_kept (db (snd (Result_delete_where_object_id_in object_ids w))).
Proof.
  intros Hkept.
  pose proof (proj1 (Invariant.deletes_keep object_ids [] w (proj1 Hkept))) as Hc.
  revert Hc. unfold Result_delete_where_object_id_in, bind.
  destruct (round_trip_cases OperationalError w)
    as [(_ & w1 & E & A & _) | (_ & w1 & E & A & _)]; rewrite E; simpl.
  - intros _. now rewrite A.
  - intros Hc. rewrite A in Hc |- *.
    apply (@kept_after_cascade (db w) _
             (fun r => mem_str (result_object_id r) object_ids) (fun _ => false)
             Hkept Hc); simpl.
    + reflexivity.
    + symmetry. apply filter_all.
    + rewrite filter_none. simpl. apply filter_ext. intros l.
      now rewrite andb_true_r.
Qed.

Lemma Tag_delete_kept (project_id : str) (w : World) :
  ledger_kept (db w) ->
  ledger_kept (db (snd (Tag_delete_where_project_id project_id w))).
Proof.
  intros Hkept.
  pose proof (proj2 (Invariant.deletes_keep [] project_id w (proj1 Hkept))) as Hc.
  revert Hc. unfold Tag_delete_where_project_id, bind.
  destruct (round_trip_cases OperationalError w)
    as [(_ & w1 & E & A & _) | (_ & w1 & E & A & _)]; rewrite E; simpl.
  - intros _. now rewrite A.
  - intros Hc. rewrite A in Hc |- *.
    apply (@kept_after_cascade (db w) _
             (fun _ => false) (fun t => str_eqb (tag_project_id t) project_id)
             Hkept Hc); simpl.
    + symmetry. apply filter_all.
    + reflexivity.
    + rewrite filter_none. simpl. reflexivity.
Qed.

End KeptFacts.

Module ServiceFacts.

Import crud local service HandlerFacts KeptFacts.

Lemma round_trip_db (e : exn) (w : World) : db (snd (round_trip e w)) = db w.
Proof.
  destruct (round_trip_cases e w) as [(_ & w1 & E & A & _) | (_ & w1 & E & A & _)];
    now rewrite E.
Qed.

Lemma put_object_db (name : str) (data : bytes) (content_type : str) (w : World) :
  db (snd (Minio.put_object name data content_type w)) = db w.
Proof.
  unfold Minio.put_object, bind. pose proof (round_trip_db (S3Error Minio.InternalError) w).
  destruct (round_trip (S3Error Minio.InternalError) w) as [[[]|e] w1]; exact H.
Qed.

Lemma list_objects_db (prefix : str) (w : World) :
  db (snd (Minio.list_objects prefix w)) = db w.
Proof.
  unfold Minio.list_objects, bind.
  pose proof (round_trip_db (S3Error Minio.InternalError) w).
  destruct (round_trip (S3Error Minio.InternalError) w) as [[[]|e] w1]; exact H.
Qed.

Lemma remove_object_db (name : str) (w : World) :
  db (snd (Minio.remove_object name w)) = db w.
Proof.
  unfold Minio.remove_object, bind.
  pose proof (round_trip_db (S3Error Minio.InternalError) w).
  destruct (round_trip (S3Error Minio.InternalError) w) as [[[]|e] w1]; exact H.
Qed.

Lemma remove_listed_db (listed : list str) :
  forall (acc : list str) (w : World), db (snd (remove_listed listed acc w)) = db w.
Proof.
  induction listed as [|name listed IH]; intros acc w; [reflexivity|].
  cbn [remove_listed]. unfold bind.
  pose proof (remove_object_db name w) as H.
  destruct (Minio.remove_object name w) as [[[]|e] w1]; simpl in H.
  - now rewrite IH.
  - exact H.
Qed.

Lemma submit_local_kept (core_client : CoreClient) (client_id : str)
      (file : UploadFile) (tag : option str) (fresh_object_id : str) (w : World) :
  ledger_kept (db w) ->
  ledger_kept (db (snd (submit_intermediate_result_to_local
                          core_client client_id file tag fresh_object_id w))).
Proof.
  intros Hkept.
  destruct (get_analysis core_client client_id) as [a|] eqn:Ha.
  2:{ unfold submit_intermediate_result_to_local, bind.
      now rewrite (@project_id_unknown _ _ w Ha). }
  rewrite (@UploadFacts.submit_local_known _ _ file tag fresh_object_id w _ Ha).
  assert (Htag : ledger_kept
                   (db (snd match tag with
                            | Some t => tag_object t (analysis_project_id a) client_id
                                                   fresh_object_id (file_filename file) w
                            | None => (Return tt, w)
                            end))).
  { destruct tag; [now apply tag_object_kept | exact Hkept]. }
  destruct (match tag with Some _ => _ | None => _ end) as [[[]|e] wt];
    simpl in Htag; [|exact Htag].
  pose proof (put_object_db (object_name (analysis_project_id a) fresh_object_id)
                (file_content file) (str_or (file_content_type file) octet_stream) wt)
    as Hput.
  destruct (Minio.put_object _ _ _ wt) as [[[]|e] w2]; simpl in Hput |- *;
    now rewrite Hput.
Qed.

Lemma create_object_tag_kept (core_client : CoreClient)
      (tag_name object_id client_id : str) (filename : option str) (w : World) :
  ledger_kept (db w) ->
  ledger_kept (db (snd (create_object_tag core_client tag_name object_id client_id
                                          filename w))).
Proof.
  intros Hkept. unfold create_object_tag, bind at 1.
  destruct (get_analysis core_client client_id) as [a|] eqn:Ha.
  2:{ now rewrite (@project_id_unknown _ _ w Ha). }
  rewrite (@project_id_known _ _ _ w Ha). unfold bind at 1.
  destruct (get_object_from_s3_cases (analysis_project_id a) object_id client_id w)
    as (w0 & (Hdb0 & _ & _) & _ & E0).
  rewrite E0. clear E0.
  assert (Hkept0 : ledger_kept (db w0)) by now rewrite Hdb0.
  destruct (next_fails w); [exact Hkept0|].
  destruct (Minio.lookup _ (objects w)); [|exact Hkept0].
  unfold bind at 1.
  pose proof (@tag_object_kept tag_name (analysis_project_id a) client_id object_id
                filename w0 Hkept0) as Hkept1.
  destruct (tag_object tag_name (analysis_project_id a) client_id object_id
              filename w0) as [[[]|e] wt]; simpl in Hkept1; [|exact Hkept1].
  unfold bind at 1.
  rewrite (@bind_to_reading _ _ wt (Result_get_reads object_id client_id wt)).
  unfold ret.
  destruct (TaggingFacts.Result_get_cases object_id client_id wt)
    as (w1 & (Hdb1 & _ & _) & E1).
  rewrite E1. destruct (next_fails wt); simpl; [now rewrite Hdb1|].
  destruct (find _ (results (db wt))); simpl; now rewrite Hdb1.
Qed.

Lemma delete_local_results_kept (settings : Settings) (core_client : CoreClient)
      (project_id client_id : str) (w : World) :
  ledger_kept (db w) ->
  ledger_kept (db (snd (delete_local_results settings core_client project_id
                                             client_id w))).
Proof.
  intros Hkept. unfold delete_local_results.
  destruct (negb (str_eqb client_id (hub_adapter_client_id settings)));
    [exact Hkept|].
  destruct (get_project core_client project_id); [exact Hkept|].
  unfold bind at 1.
  pose proof (list_objects_db (project_prefix project_id) w) as H1.
  destruct (Minio.list_objects (project_prefix project_id) w) as [[listed|e] w1];
    simpl in H1; cbv beta iota; [|cbn [snd]; now rewrite H1].
  unfold bind at 1.
  pose proof (remove_listed_db listed [] w1) as H2.
  destruct (remove_listed listed [] w1) as [[object_ids|e] w2];
    simpl in H2; cbv beta iota; [|cbn [snd]; now rewrite H2, H1].
  assert (Hkept2 : ledger_kept (db w2)) by now rewrite H2, H1.
  unfold bind_to, bind.
  pose proof (@Result_delete_kept object_ids w2 Hkept2) as Hkept3.
  destruct (Result_delete_where_object_id_in object_ids w2) as [[[]|e] w3];
    simpl in Hkept3; cbv beta iota; [|exact Hkept2].
  pose proof (@Tag_delete_kept project_id w3 Hkept3) as Hkept4.
  destruct (Tag_delete_where_project_id project_id w3) as [[[]|e] w4];
    simpl in Hkept4 |- *; [exact Hkept4 | exact Hkept2].
Qed.

Section Serving.

Variable settings : Settings.
Variables PrivateKey PublicKey : Type.
Variable load_ecdh_public_key_from_hex_string : str -> outcome PublicKey.
Variable encrypt_default : PrivateKey -> PublicKey -> bytes -> bytes -> bytes.
Variable private_key : PrivateKey.

Let handle := handle settings load_ecdh_public_key_from_hex_string encrypt_default
                     private_key.
Let serve := serve settings load_ecdh_public_key_from_hex_string encrypt_default
                   private_key.

Lemma handle_kept (a : arrival) (w : World) :
  ledger_kept (db w) -> ledger_kept (db (snd (handle a w))).
Proof.
  intros Hkept. unfold handle, service.handle.
  destruct (asked a) as [client_id file tag fresh_object_id
                        | project_id client_id
                        | client_id
                        | tag_name object_id client_id filename
                        | tag_name client_id
                        | client_id object_id
                        | object_id client_id remote_node_id entropy].
  - pose proof (@submit_local_kept (hub_core a) client_id file tag fresh_object_id
                  w Hkept) as H.
    unfold bind, ret.
    destruct (submit_intermediate_result_to_local _ _ _ _ _ w) as [[?|?] ?]; exact H.
  - now apply delete_local_results_kept.
  - destruct (ReadingFacts.get_project_tags_untouched (hub_core a) client_id w)
      as (H & _).
    unfold bind, ret.
    destruct (local_listing.get_project_tags _ _ w) as [[?|?] ?]; simpl in *;
      now rewrite H.
  - pose proof (@create_object_tag_kept (hub_core a) tag_name object_id client_id
                  filename w Hkept) as H.
    unfold bind, ret.
    destruct (create_object_tag _ _ _ _ _ w) as [[?|?] ?]; exact H.
  - destruct (ReadingFacts.get_results_by_project_tag_untouched
                (hub_core a) tag_name client_id w) as (H & _).
    unfold bind, ret.
    destruct (local_listing.get_results_by_project_tag _ _ _ w) as [[?|?] ?];
      simpl in *; now rewrite H.
  - destruct (ReadingFacts.retrieve_untouched (hub_core a) client_id object_id w)
      as (H & _).
    unfold bind, ret.
    destruct (retrieve_intermediate_result_from_local _ _ _ w) as [[?|?] ?];
      simpl in *; now rewrite H.
  - destruct (ReadingFacts.upload_local_file_untouched
                load_ecdh_public_key_from_hex_string encrypt_default (hub_core a)
                (hub_buckets a) private_key object_id client_id remote_node_id
                entropy w) as (H & _).
    unfold bind, ret.
    destruct (hub_upload.upload_local_file _ _ _ _ _ _ _ _ _ w) as [[?|?] ?];
      simpl in *; now rewrite H.
Qed.

Lemma serve_kept (w : World) (a : arrival) :
  ledger_kept (db w) -> ledger_kept (db (serve w a)).
Proof. intros Hkept. unfold serve, service.serve. now apply handle_kept. Qed.

Lemma fold_serve_kept (arrivals : list arrival) :
  forall w, ledger_kept (db w) -> ledger_kept (db (fold_left serve arrivals w)).
Proof.
  induction arrivals as [|a arrivals IH]; intros w Hkept; [exact Hkept|].
  simpl. apply IH. now apply serve_kept.
Qed.

End Serving.

End ServiceFacts.

(** X22.  What the ledger keeps.  Start the service with an empty ledger
    and an empty bucket, and let any requests arrive at the endpoints of
    [/local], in any order, from any callers, with any answers of the hub
    and with stores that fail to answer at any round trip.  Then, after
    every request, no two rows of a table agree on its unique index, every
    TaggedResult row links a Tag row and a Result row that exist, every
    Tag row has a valid tag name, and every Result row has a filename that
    is not empty. *)
Theorem ledger_kept_by_every_request
        (settings : Settings) (PrivateKey PublicKey : Type)
        (load_ecdh_public_key_from_hex_string : str -> outcome PublicKey)
        (encrypt_default : PrivateKey -> PublicKey -> bytes -> bytes -> bytes)
        (private_key : PrivateKey) (arrivals : list service.arrival) :
  let d := db (service.after settings load_ecdh_public_key_from_hex_string
                             encrypt_default private_key arrivals) in
  crud.constraints_hold d = true
  /\ service.links_resolve d = true
  /\ service.rows_validated d = true.
Proof.
  intros d. subst d. unfold service.after.
  apply (ServiceFacts.fold_serve_kept settings load_ecdh_public_key_from_hex_string
           encrypt_default private_key arrivals).
  repeat split.
Qed.

(** ** The helpers of the tests *)

Module HelperFacts.

Import helpers.

Section Eventually.

Variable State : Type.
Variable predicate : State -> bool * State.

Lemma state_after_next (k : nat) (s : State) :
  state_after predicate (S k) s = snd (predicate (state_after predicate k s)).
Proof.
  revert s. induction k as [|k IH]; intros s; [reflexivity|].
  change (state_after predicate (S (S k)) s)
    with (state_after predicate (S k) (snd (predicate s))).
  now rewrite IH.
Qed.


End Eventually.

End HelperFacts.

